(** * gdal_proximity.py and samples/vec_tr.py: a shallow embedding

    The two scripts are thin drivers of the GDAL/OGR library.  Their own
    code (argument parsing, the order and the arguments of the library
    calls, the geometry walker) is embedded below as Rocq functions.  A call
    into the library is an interaction: the script asks, the library
    answers, and a property of the script is a property of every run,
    whatever the library answers. *)

From Stdlib Require Import ZArith Lia Ascii.
From Stdlib Require PrimFloat FloatOps SpecFloat Uint63.
From stdpp Require Import base tactics option list strings gmap.

Set Implicit Arguments.
Unset Strict Implicit.
Set Warnings "-register-all".

(** ** Python values, exceptions and results *)

(** The exceptions the scripts can meet, all of class [Exception], the
    class that [except Exception] catches.  [OtherError] is any other
    exception of that class raised inside the library; what is not an
    [Exception] (KeyboardInterrupt, SystemExit) is not modelled. *)
Inductive exn : Type :=
| IndexError
| ValueError
| AttributeError
| TypeError
| OtherError (name : string).

(** What a library call answers: a value or an exception. *)
Inductive reply (V : Type) : Type :=
| Gives (v : V)
| Throws (e : exn).
Arguments Gives {V} v.
Arguments Throws {V} e.

(** What a Python function does: it returns, or raises; [Unfinished] is
    the embedding running out of fuel in a [while] loop. *)
Inductive outcome (A : Type) : Type :=
| Return (a : A)
| Raise (e : exn)
| Unfinished.
Arguments Return {A} a.
Arguments Raise {A} e.
Arguments Unfinished {A}.

(** Values: [G] is the type of the objects whose contents the embedding
    looks into (the geometries of vec_tr); every other library object is
    an opaque handle [VObj]. *)
Inductive pyval (G : Type) : Type :=
| VNone
| VInt (n : Z)
| VStr (s : string)
| VList (l : list string)
| VObj (handle : nat)
| VModule (name : string)
| VModAttr (module attr : string)
| VGeom (g : G).
Arguments VNone {G}.
Arguments VInt {G} n.
Arguments VStr {G} s.
Arguments VList {G} l.
Arguments VObj {G} handle.
Arguments VModule {G} name.
Arguments VModAttr {G} module attr.
Arguments VGeom {G} g.

Definition is_None {G} (v : pyval G) : bool :=
  match v with VNone => true | _ => false end.

(** [x or []] on an optional list. *)
Definition or_empty (l : option (list string)) : list string :=
  match l with
  | Some (x :: l') => x :: l'
  | _ => []
  end.

(** ["%s" % x] for an optional string. *)
Definition percent_s (x : option string) : string :=
  match x with Some s => s | None => "None" end.

Definition opt_str {G} (x : option string) : pyval G :=
  match x with Some s => VStr s | None => VNone end.

Definition newline : string := String (Ascii.ascii_of_nat 10) EmptyString.

(** ** Interactions with the library *)

Section Interaction.
Context {G : Type}.
Local Abbreviation value := (pyval G).

(** A request to the library: a method (or module function) call with
    positional and keyword arguments, or an attribute read. *)
Inductive call : Type :=
| Method (self : value) (name : string) (args : list value)
         (kwargs : list (string * value))
| Attr (self : value) (name : string).

Inductive output : Type :=
| Stdout (text : string)
| Stderr (text : string).

(** A program: it finishes with a result, asks the library and goes on
    with the answer, or writes to a stream and goes on. *)
Inductive prog (R : Type) : Type :=
| Done (r : R)
| Ask (c : call) (k : reply value -> prog R)
| Emit (o : output) (k : prog R).
Arguments Done {R} r.
Arguments Ask {R} c k.
Arguments Emit {R} o k.

(** The body of a Python function returning an [A]. *)
Definition py (A : Type) : Type := prog (outcome A).

Definition ret {A} (a : A) : py A := Done (Return a).
Definition raise {A} (e : exn) : py A := Done (Raise e).

Fixpoint bind {A B} (m : py A) (f : A -> py B) : py B :=
  match m with
  | Done (Return a) => f a
  | Done (Raise e) => Done (Raise e)
  | Done Unfinished => Done Unfinished
  | Ask c k => Ask c (fun r => bind (k r) f)
  | Emit o k => Emit o (bind k f)
  end.

(** [try: m / except Exception: h]. *)
Fixpoint try_except {A} (m : py A) (h : exn -> py A) : py A :=
  match m with
  | Done (Raise e) => h e
  | Done r => Done r
  | Ask c k => Ask c (fun r => try_except (k r) h)
  | Emit o k => Emit o (try_except k h)
  end.

Definition ask (c : call) : py value :=
  Ask c (fun r => match r with Gives v => ret v | Throws e => raise e end).

Definition emit (o : output) : py unit := Emit o (ret tt).

(** [obj.name(args, kwargs)]: the attribute lookup on [None] fails before
    the arguments are evaluated. *)
Definition method (self : value) (name : string) (args : py (list value))
    (kwargs : py (list (string * value))) : py value :=
  if is_None self then raise AttributeError
  else bind args (fun a => bind kwargs (fun kw => ask (Method self name a kw))).

Definition attr (self : value) (name : string) : py value :=
  if is_None self then raise AttributeError else ask (Attr self name).

(** *** Runs *)

Inductive event : Type :=
| Asked (c : call) (r : reply value)
| Wrote (o : output).

(** [runs p tr r]: [p] can run to the result [r], with the trace [tr] of
    its calls (each with the library's answer) and of its outputs. *)
Inductive runs {R} : prog R -> list event -> R -> Prop :=
| runs_done r : runs (Done r) [] r
| runs_ask c k a tr r : runs (k a) tr r -> runs (Ask c k) (Asked c a :: tr) r
| runs_emit o k tr r : runs k tr r -> runs (Emit o k) (Wrote o :: tr) r.

(** A run against a script of answers, used in order. *)
Fixpoint exec {R} (p : prog R) (answers : list (reply value))
    : option (list event * R) :=
  match p with
  | Done r => Some ([], r)
  | Ask c k =>
      match answers with
      | [] => None
      | a :: rest =>
          match exec (k a) rest with
          | Some (tr, r) => Some (Asked c a :: tr, r)
          | None => None
          end
      end
  | Emit o k =>
      match exec k answers with
      | Some (tr, r) => Some (Wrote o :: tr, r)
      | None => None
      end
  end.

(** [always p Q]: [Q] holds of the trace and the result of every run of
    [p], whatever the library answers. *)
Fixpoint always {R} (p : prog R) (Q : list event -> R -> Prop) : Prop :=
  match p with
  | Done r => Q [] r
  | Ask c k => forall a, always (k a) (fun tr r => Q (Asked c a :: tr) r)
  | Emit o k => always k (fun tr r => Q (Wrote o :: tr) r)
  end.

(** The name of the method an event calls. *)
Definition method_name (e : event) : option string :=
  match e with
  | Asked (Method _ name _ _) _ => Some name
  | _ => None
  end.

Definition calls_method (name : string) (e : event) : bool :=
  match method_name e with
  | Some n => String.eqb n name
  | None => false
  end.

(** No event of the trace calls the method [name]. *)
Definition never_calls (name : string) (tr : list event) : bool :=
  forallb (fun e => negb (calls_method name e)) tr.

(** The result of a call, from the answer of the library. *)
Definition answered (a : reply value) : outcome value :=
  match a with
  | Gives v => Return v
  | Throws e => Raise e
  end.

(** [keeps ok p]: every event of every run of [p] passes the test [ok]. *)
Definition keeps {R} (ok : event -> bool) (p : prog R) : Prop :=
  always p (fun tr _ => forallb ok tr = true).

End Interaction.

Arguments call G : clear implicits.
Arguments output : clear implicits.
Arguments event G : clear implicits.
Arguments prog G R : clear implicits.
Arguments py G A : clear implicits.

Declare Scope py_scope.
Delimit Scope py_scope with py.
Notation "x <- m ;; k" := (bind m (fun x => k))
  (at level 100, m at next level, right associativity) : py_scope.
Notation "m ;;; k" := (bind m (fun _ => k))
  (at level 100, right associativity) : py_scope.

(** * gdal_proximity.py *)

Module GdalProximity.

(** No library object of this script is looked into. *)
Abbreviation value := (pyval Empty_set).

Definition gdal : value := VModule "gdal".
Definition util : value := VModule "osgeo_utils.auxiliary.util".

Definition usage_text : string :=
"
Usage: gdal_proximity [--help] [--help-general]
                  <srcfile> <dstfile> [-srcband <n>] [-dstband <n>]
                  [-of <format>] [-co <name>=<value>]...
                  [-ot {Byte|UInt16|UInt32|Float32|etc}]
                  [-values <n>,<n>,<n>] [-distunits {PIXEL|GEO}]
                  [-maxdist <n>] [-nodata <n>] [-use_input_nodata {YES|NO}]
                  [-fixed-buf-val <n>] [-q] ".

(** [Usage(isError)]: what it prints, and what it returns. *)
Definition Usage_output (isError : bool) : output :=
  if isError then Stderr (usage_text +:+ newline)
  else Stdout (usage_text +:+ newline).

Definition Usage_code (isError : bool) : Z := if isError then 2%Z else 0%Z.

Definition Usage (isError : bool) : py Empty_set value :=
  (emit (Usage_output isError) ;;; ret (VInt (Usage_code isError)))%py.

(** The local variables of [main] that the argument loop sets. *)
Record options : Type := Options {
  driver_name : option string;
  creation_options : list string;
  alg_options : list string;
  src_filename : option string;
  src_band_n : Z;
  dst_filename : option string;
  dst_band_n : Z;
  creation_type : string;
  quiet : bool
}.

Definition initial : options :=
  {| driver_name := None; creation_options := []; alg_options := [];
     src_filename := None; src_band_n := 1; dst_filename := None;
     dst_band_n := 1; creation_type := "Float32"; quiet := false |}.

Definition set_driver_name (v : string) (o : options) : options :=
  Options (Some v) (creation_options o) (alg_options o) (src_filename o)
    (src_band_n o) (dst_filename o) (dst_band_n o) (creation_type o) (quiet o).
Definition add_creation_option (v : string) (o : options) : options :=
  Options (driver_name o) (creation_options o ++ [v]) (alg_options o)
    (src_filename o) (src_band_n o) (dst_filename o) (dst_band_n o)
    (creation_type o) (quiet o).
Definition add_alg_option (v : string) (o : options) : options :=
  Options (driver_name o) (creation_options o) (alg_options o ++ [v])
    (src_filename o) (src_band_n o) (dst_filename o) (dst_band_n o)
    (creation_type o) (quiet o).
Definition set_src_filename (v : string) (o : options) : options :=
  Options (driver_name o) (creation_options o) (alg_options o) (Some v)
    (src_band_n o) (dst_filename o) (dst_band_n o) (creation_type o) (quiet o).
Definition set_src_band_n (n : Z) (o : options) : options :=
  Options (driver_name o) (creation_options o) (alg_options o) (src_filename o)
    n (dst_filename o) (dst_band_n o) (creation_type o) (quiet o).
Definition set_dst_filename (v : string) (o : options) : options :=
  Options (driver_name o) (creation_options o) (alg_options o) (src_filename o)
    (src_band_n o) (Some v) (dst_band_n o) (creation_type o) (quiet o).
Definition set_dst_band_n (n : Z) (o : options) : options :=
  Options (driver_name o) (creation_options o) (alg_options o) (src_filename o)
    (src_band_n o) (dst_filename o) n (creation_type o) (quiet o).
Definition set_creation_type (v : string) (o : options) : options :=
  Options (driver_name o) (creation_options o) (alg_options o) (src_filename o)
    (src_band_n o) (dst_filename o) (dst_band_n o) v (quiet o).
Definition set_quiet (o : options) : options :=
  Options (driver_name o) (creation_options o) (alg_options o) (src_filename o)
    (src_band_n o) (dst_filename o) (dst_band_n o) (creation_type o) true.

(** One turn of the [while] loop of [main]: it goes on with [i] advanced
    (by 2 when the option took a value, by 1 otherwise), returns from
    [main] after some output, or raises. *)
Inductive turn : Type :=
| Next (took_value : bool) (o : options)
| Returns (out : list output) (code : Z)
| Fails (e : exn).

(** [i = i + 1; ... argv[i]]: the value of an option; [argv[i]] raises
    IndexError past the end of the list. *)
Definition with_value (next : option string) (k : string -> turn) : turn :=
  match next with
  | Some v => k v
  | None => Fails IndexError
  end.

Section Main.

(** Python's built-in [int] on a [str]; [None] stands for its ValueError. *)
Variable int : string -> option Z.

Definition with_int (v : string) (k : Z -> turn) : turn :=
  match int v with
  | Some n => k n
  | None => Fails ValueError
  end.

(** The body of the loop at [arg = argv[i]], with [next] the element
    [argv[i+1]] if there is one. *)
Definition loop_body (arg : string) (next : option string) (o : options)
    : turn :=
  if String.eqb arg "--help" then
    Returns [Usage_output false] (Usage_code false)
  else if String.eqb arg "-of" || String.eqb arg "-f" then
    with_value next (fun v => Next true (set_driver_name v o))
  else if String.eqb arg "-co" then
    with_value next (fun v => Next true (add_creation_option v o))
  else if String.eqb arg "-ot" then
    with_value next (fun v => Next true (set_creation_type v o))
  else if String.eqb arg "-maxdist" then
    with_value next (fun v => Next true (add_alg_option ("MAXDIST=" +:+ v) o))
  else if String.eqb arg "-values" then
    with_value next (fun v => Next true (add_alg_option ("VALUES=" +:+ v) o))
  else if String.eqb arg "-distunits" then
    with_value next
      (fun v => Next true (add_alg_option ("DISTUNITS=" +:+ v) o))
  else if String.eqb arg "-nodata" then
    with_value next (fun v => Next true (add_alg_option ("NODATA=" +:+ v) o))
  else if String.eqb arg "-use_input_nodata" then
    with_value next
      (fun v => Next true (add_alg_option ("USE_INPUT_NODATA=" +:+ v) o))
  else if String.eqb arg "-fixed-buf-val" then
    with_value next
      (fun v => Next true (add_alg_option ("FIXED_BUF_VAL=" +:+ v) o))
  else if String.eqb arg "-srcband" then
    with_value next
      (fun v => with_int v (fun n => Next true (set_src_band_n n o)))
  else if String.eqb arg "-dstband" then
    with_value next
      (fun v => with_int v (fun n => Next true (set_dst_band_n n o)))
  else if String.eqb arg "-q" || String.eqb arg "-quiet" then
    Next false (set_quiet o)
  else
    match arg with
    | EmptyString => Fails IndexError
    | String c _ =>
        if Ascii.eqb c "-"%char then
          Returns [Stderr ("Unrecognized option : " +:+ arg +:+ newline);
                   Usage_output true] (Usage_code true)
        else
          match src_filename o, dst_filename o with
          | None, _ => Next false (set_src_filename arg o)
          | Some _, None => Next false (set_dst_filename arg o)
          | Some _, Some _ => Returns [Usage_output true] (Usage_code true)
          end
    end.

(** How the argument loop ends. *)
Inductive parsed : Type :=
| Parsed (o : options)
| Exits (out : list output) (code : Z)
| Crashes (e : exn)
| OutOfFuel.

(** [while i < len(argv): ...], with one unit of fuel per test of the
    condition. *)
Fixpoint parse_loop (fuel : nat) (argv : list string) (i : nat) (o : options)
    : parsed :=
  match fuel with
  | O => OutOfFuel
  | S fuel' =>
      if (i <? length argv)%nat then
        match argv !! i with
        | None => Crashes IndexError
        | Some arg =>
            match loop_body arg (argv !! (i + 1)%nat) o with
            | Next true o' => parse_loop fuel' argv (i + 1 + 1) o'
            | Next false o' => parse_loop fuel' argv (i + 1) o'
            | Returns out code => Exits out code
            | Fails e => Crashes e
            end
        end
      else Parsed o
  end.

(** The same loop on the arguments still to read, [argv[i:]]. *)
Fixpoint parse_rest (args : list string) (o : options) : parsed :=
  match args with
  | [] => Parsed o
  | arg :: rest =>
      match loop_body arg (head rest) o with
      | Next true o' =>
          match rest with
          | [] => Parsed o'
          | _ :: rest' => parse_rest rest' o'
          end
      | Next false o' => parse_rest rest o'
      | Returns out code => Exits out code
      | Fails e => Crashes e
      end
  end.

(** The options that take a value. *)
Definition takes_value (arg : string) : bool :=
  String.eqb arg "-of" || String.eqb arg "-f" || String.eqb arg "-co"
  || String.eqb arg "-ot" || String.eqb arg "-maxdist"
  || String.eqb arg "-values" || String.eqb arg "-distunits"
  || String.eqb arg "-nodata" || String.eqb arg "-use_input_nodata"
  || String.eqb arg "-fixed-buf-val" || String.eqb arg "-srcband"
  || String.eqb arg "-dstband".

(** *** [gdal_proximity] *)

Definition GA_Update : value := VModAttr "gdal" "GA_Update".
Definition TermProgress_nocb : value := VModAttr "gdal" "TermProgress_nocb".

Definition nothing {A} : py Empty_set (list A) := ret [].

(** The [try] block on the destination.  It leaves the new value of
    [driver_name] (assigned as soon as [IdentifyDriver] has answered) and,
    when nothing was raised, [dst_ds] with [dstband]; [None] stands for
    [dst_ds = None]. *)
Definition open_existing (dst_filename : option string) (dst_band_n : Z)
    (driver_name : value) : py Empty_set (value * option (value * value)) :=
  try_except
    (identified <- method gdal "IdentifyDriver"
                     (ret [opt_str dst_filename]) nothing ;;
     if is_None identified then ret (identified, None)
     else
       try_except
         (dst_ds <- method gdal "Open"
                      (ret [opt_str dst_filename; GA_Update]) nothing ;;
          dstband <- method dst_ds "GetRasterBand"
                       (ret [VInt dst_band_n]) nothing ;;
          ret (identified, Some (dst_ds, dstband)))
         (fun _ => ret (identified, None)))%py
    (fun _ => ret (driver_name, None)).

(** [if driver_name is None: driver_name = GetOutputDriverFor(dst_filename)]. *)
Definition output_driver (dst_filename : option string) (driver_name : value)
    : py Empty_set value :=
  if is_None driver_name
  then method util "GetOutputDriverFor" (ret [opt_str dst_filename]) nothing
  else ret driver_name.

(** The rest of the [if dst_ds is None:] block. *)
Definition create_dataset (src_ds : value) (dst_filename : option string)
    (driver_name : value) (creation_type : string)
    (creation_options : list string) : py Empty_set (value * value) :=
  (drv <- method gdal "GetDriverByName" (ret [driver_name]) nothing ;;
   dst_ds <- method drv "Create"
               (xsize <- attr src_ds "RasterXSize" ;;
                ysize <- attr src_ds "RasterYSize" ;;
                dtype <- method gdal "GetDataTypeByName"
                           (ret [VStr creation_type]) nothing ;;
                ret [opt_str dst_filename; xsize; ysize; VInt 1; dtype;
                     VList creation_options])
               nothing ;;
   method dst_ds "SetGeoTransform"
     (gt <- method src_ds "GetGeoTransform" nothing nothing ;; ret [gt])
     nothing ;;;
   method dst_ds "SetProjection"
     (wkt <- method src_ds "GetProjectionRef" nothing nothing ;; ret [wkt])
     nothing ;;;
   dstband <- method dst_ds "GetRasterBand" (ret [VInt 1]) nothing ;;
   ret (dst_ds, dstband))%py.

(** The [if dst_ds is None:] block. *)
Definition create_output (src_ds : value) (dst_filename : option string)
    (driver_name : value) (creation_type : string)
    (creation_options : list string) : py Empty_set (value * value) :=
  (driver_name <- output_driver dst_filename driver_name ;;
   create_dataset src_ds dst_filename driver_name creation_type
     creation_options)%py.

Definition gdal_proximity (src_filename : option string) (src_band_n : Z)
    (dst_filename : option string) (dst_band_n : Z) (driver_name : value)
    (creation_type : string) (creation_options alg_options : option (list string))
    (quiet : bool) : py Empty_set value :=
  let creation_options := or_empty creation_options in
  let alg_options := or_empty alg_options in
  (src_ds <- method gdal "Open" (ret [opt_str src_filename]) nothing ;;
   if is_None src_ds then
     emit (Stdout ("Unable to open " +:+ percent_s src_filename +:+ newline)) ;;;
     ret (VInt 1)
   else
     srcband <- method src_ds "GetRasterBand" (ret [VInt src_band_n]) nothing ;;
     existing <- open_existing dst_filename dst_band_n driver_name ;;
     dst <- match existing with
            | (_, Some dst) => ret dst
            | (driver_name, None) =>
                create_output src_ds dst_filename driver_name creation_type
                  creation_options
            end ;;
     let prog_func := if quiet then VNone else TermProgress_nocb in
     method gdal "ComputeProximity"
       (ret [srcband; snd dst; VList alg_options])
       (ret [("callback", prog_func)]) ;;;
     ret VNone)%py.

(** *** [main] *)

Fixpoint emit_all (out : list output) : py Empty_set unit :=
  match out with
  | [] => ret tt
  | o :: rest => (emit o ;;; emit_all rest)%py
  end.

(** [GeneralCmdLineProcessor] answers a list of strings or [None]; any
    other answer is not a list and is taken to fail at [len(argv)].  The
    decorator [enable_gdal_exceptions] wraps the call without touching its
    arguments or its result: it makes the library raise where it would
    answer [None], and every answer of the library is allowed here. *)
Definition main (argv : list string) : py Empty_set value :=
  (argv <- method gdal "GeneralCmdLineProcessor" (ret [VList argv]) nothing ;;
   match argv with
   | VNone => ret (VInt 0)
   | VList argv =>
       match parse_loop (S (length argv)) argv 1 initial with
       | Exits out code => emit_all out ;;; ret (VInt code)
       | Crashes e => raise e
       | OutOfFuel => Done Unfinished
       | Parsed o =>
           match src_filename o, dst_filename o with
           | None, _ =>
               emit (Stderr ("Missing <srcfile>" +:+ newline)) ;;; Usage true
           | Some _, None =>
               emit (Stderr ("Missing <dstfile>" +:+ newline)) ;;; Usage true
           | Some _, Some _ =>
               gdal_proximity (src_filename o) (src_band_n o) (dst_filename o)
                 (dst_band_n o) (opt_str (driver_name o)) (creation_type o)
                 (Some (creation_options o)) (Some (alg_options o)) (quiet o)
           end
       end
   | _ => raise TypeError
   end)%py.

(** [sys.exit(main(sys.argv))]: the exit status of the process.  [None]
    exits with 0, an integer with itself, an uncaught exception with 1. *)
Definition exit_status (r : outcome value) : option Z :=
  match r with
  | Return VNone => Some 0%Z
  | Return (VInt n) => Some n
  | Return _ => Some 1%Z
  | Raise _ => Some 1%Z
  | Unfinished => None
  end.

End Main.

(** *** Command lines, as the usage message describes them *)

Inductive alg_key : Type :=
| VALUES | DISTUNITS | MAXDIST | NODATA | USE_INPUT_NODATA | FIXED_BUF_VAL.

Definition alg_flag (k : alg_key) : string :=
  match k with
  | VALUES => "-values"
  | DISTUNITS => "-distunits"
  | MAXDIST => "-maxdist"
  | NODATA => "-nodata"
  | USE_INPUT_NODATA => "-use_input_nodata"
  | FIXED_BUF_VAL => "-fixed-buf-val"
  end.

Definition alg_name (k : alg_key) : string :=
  match k with
  | VALUES => "VALUES"
  | DISTUNITS => "DISTUNITS"
  | MAXDIST => "MAXDIST"
  | NODATA => "NODATA"
  | USE_INPUT_NODATA => "USE_INPUT_NODATA"
  | FIXED_BUF_VAL => "FIXED_BUF_VAL"
  end.

(** One option of the command line, or one file name. *)
Inductive item : Type :=
| Algorithm (k : alg_key) (v : string)
| Format (short : bool) (v : string)
| CreationOption (v : string)
| OutputType (v : string)
| SrcBand (v : string)
| DstBand (v : string)
| Quiet (long : bool)
| File (name : string).

Definition words (it : item) : list string :=
  match it with
  | Algorithm k v => [alg_flag k; v]
  | Format short v => [if short then "-f" else "-of"; v]
  | CreationOption v => ["-co"; v]
  | OutputType v => ["-ot"; v]
  | SrcBand v => ["-srcband"; v]
  | DstBand v => ["-dstband"; v]
  | Quiet long => [if long then "-quiet" else "-q"]
  | File name => [name]
  end.

Fixpoint command_line (items : list item) : list string :=
  match items with
  | [] => []
  | it :: rest => words it ++ command_line rest
  end.

(** A file name is not empty and does not begin with a dash. *)
Definition is_file_name (s : string) : bool :=
  match s with
  | EmptyString => false
  | String c _ => negb (Ascii.eqb c "-"%char)
  end.

(** An argument that begins with a dash and is no option of the script. *)
Definition unrecognized (s : string) : bool :=
  match s with
  | EmptyString => false
  | String c _ =>
      Ascii.eqb c "-"%char && negb (takes_value s)
      && negb (String.eqb s "--help") && negb (String.eqb s "-q")
      && negb (String.eqb s "-quiet")
  end.

Definition file_names_ok (it : item) : bool :=
  match it with
  | File name => is_file_name name
  | _ => true
  end.

(** The band numbers are integers, for [int] as Python reads them. *)
Definition bands_ok (int : string -> option Z) (it : item) : bool :=
  match it with
  | SrcBand v | DstBand v => bool_decide (is_Some (int v))
  | _ => true
  end.

Fixpoint files (items : list item) : list string :=
  match items with
  | [] => []
  | File name :: rest => name :: files rest
  | _ :: rest => files rest
  end.

(** What the specification says the script makes of the items. *)
Fixpoint alg_strings (items : list item) : list string :=
  match items with
  | [] => []
  | Algorithm k v :: rest => (alg_name k +:+ "=" +:+ v) :: alg_strings rest
  | _ :: rest => alg_strings rest
  end.

Definition quiet_given (items : list item) : bool :=
  existsb (fun it => match it with Quiet _ => true | _ => false end) items.

(** Well-formed: proper file names, at most two of them, integer bands. *)
Definition well_formed (int : string -> option Z) (items : list item) : Prop :=
  forallb file_names_ok items = true /\ forallb (bands_ok int) items = true
  /\ length (files items) <= 2.

(** What the loop does on the words of one item: it goes on with new
    options, or ends. *)
Definition item_effect (int : string -> option Z) (it : item) (o : options)
    : options + parsed :=
  match it with
  | Algorithm k v => inl (add_alg_option (alg_name k +:+ "=" +:+ v) o)
  | Format _ v => inl (set_driver_name v o)
  | CreationOption v => inl (add_creation_option v o)
  | OutputType v => inl (set_creation_type v o)
  | SrcBand v =>
      match int v with
      | Some n => inl (set_src_band_n n o)
      | None => inr (Crashes ValueError)
      end
  | DstBand v =>
      match int v with
      | Some n => inl (set_dst_band_n n o)
      | None => inr (Crashes ValueError)
      end
  | Quiet _ => inl (set_quiet o)
  | File name =>
      match src_filename o, dst_filename o with
      | None, _ => inl (set_src_filename name o)
      | Some _, None => inl (set_dst_filename name o)
      | Some _, Some _ => inr (Exits [Usage_output true] (Usage_code true))
      end
  end.

Fixpoint items_effect (int : string -> option Z) (items : list item)
    (o : options) : options + parsed :=
  match items with
  | [] => inl o
  | it :: rest =>
      match item_effect int it o with
      | inl o' => items_effect int rest o'
      | inr p => inr p
      end
  end.

(** The file names held by the options, in the order they were given. *)
Definition named (o : options) : list string :=
  match src_filename o, dst_filename o with
  | Some s, Some d => [s; d]
  | Some s, None => [s]
  | None, _ => []
  end.

(** *** The runs of [gdal_proximity] *)

(** The call of [ComputeProximity]. *)
Definition is_compute (e : event Empty_set) : bool :=
  calls_method "ComputeProximity" e.

(** What the library answers while the output is created. *)
Record creation : Type := Creation {
  c_driver_name : value;
  c_drv : value;
  c_xsize : value;
  c_ysize : value;
  c_dtype : value;
  c_dst_ds : value;
  c_geotransform : value;
  c_set_geotransform : value;
  c_projection : value;
  c_set_projection : value;
  c_dstband : value
}.

Section Runs.
Variables (src_filename : option string) (src_band_n : Z)
  (dst_filename : option string) (dst_band_n : Z) (driver_name : value)
  (creation_type : string) (creation_options alg_options : option (list string))
  (quiet : bool).

(** The calls that create the output like the source [src_ds]: size of the
    source, one band of the requested type, then geotransform and
    projection of the source. *)
Definition creation_calls (src_ds : value) (c : creation)
    : list (event Empty_set) :=
  [ Asked (Method gdal "GetDriverByName" [c_driver_name c] []) (Gives (c_drv c));
    Asked (Attr src_ds "RasterXSize") (Gives (c_xsize c));
    Asked (Attr src_ds "RasterYSize") (Gives (c_ysize c));
    Asked (Method gdal "GetDataTypeByName" [VStr creation_type] [])
      (Gives (c_dtype c));
    Asked (Method (c_drv c) "Create"
             [opt_str dst_filename; c_xsize c; c_ysize c; VInt 1; c_dtype c;
              VList (or_empty creation_options)] [])
      (Gives (c_dst_ds c));
    Asked (Method src_ds "GetGeoTransform" [] []) (Gives (c_geotransform c));
    Asked (Method (c_dst_ds c) "SetGeoTransform" [c_geotransform c] [])
      (Gives (c_set_geotransform c));
    Asked (Method src_ds "GetProjectionRef" [] []) (Gives (c_projection c));
    Asked (Method (c_dst_ds c) "SetProjection" [c_projection c] [])
      (Gives (c_set_projection c));
    Asked (Method (c_dst_ds c) "GetRasterBand" [VInt 1] [])
      (Gives (c_dstband c)) ].

Definition open_source (src_ds : reply value) : event Empty_set :=
  Asked (Method gdal "Open" [opt_str src_filename] []) src_ds.

Definition source_band (src_ds srcband : value) : event Empty_set :=
  Asked (Method src_ds "GetRasterBand" [VInt src_band_n] []) (Gives srcband).

Definition compute (srcband dstband : value) (a : reply value)
    : event Empty_set :=
  Asked (Method gdal "ComputeProximity"
           [srcband; dstband; VList (or_empty alg_options)]
           [("callback", if quiet then VNone else TermProgress_nocb)]) a.

Definition after_compute (a : reply value) : outcome value :=
  match a with
  | Gives _ => Return VNone
  | Throws e => Raise e
  end.

(** The destination was opened as an existing dataset: [gdal.Open] in
    update mode gave a dataset, and the dataset gave its band. *)
Definition opened_existing (tr : list (event Empty_set)) : Prop :=
  exists pre dst_ds dstband post,
    is_None dst_ds = false /\
    tr = pre
         ++ Asked (Method gdal "Open" [opt_str dst_filename; GA_Update] [])
              (Gives dst_ds)
         :: Asked (Method dst_ds "GetRasterBand" [VInt dst_band_n] [])
              (Gives dstband)
         :: post.

(** The four ways a run of [gdal_proximity] goes. *)
Inductive proximity_run : list (event Empty_set) -> outcome value -> Prop :=
| run_unopened :
    proximity_run
      [ open_source (Gives VNone);
        Wrote (Stdout ("Unable to open " +:+ percent_s src_filename
                       +:+ newline)) ]
      (Return (VInt 1))
| run_stopped a tr e :
    a <> Gives VNone ->
    never_calls "ComputeProximity" tr = true ->
    proximity_run (open_source a :: tr) (Raise e)
| run_existing src_ds srcband identified dst_ds dstband a :
    is_None src_ds = false -> is_None identified = false ->
    is_None dst_ds = false ->
    proximity_run
      [ open_source (Gives src_ds); source_band src_ds srcband;
        Asked (Method gdal "IdentifyDriver" [opt_str dst_filename] [])
          (Gives identified);
        Asked (Method gdal "Open" [opt_str dst_filename; GA_Update] [])
          (Gives dst_ds);
        Asked (Method dst_ds "GetRasterBand" [VInt dst_band_n] [])
          (Gives dstband);
        compute srcband dstband a ]
      (after_compute a)
| run_created src_ds srcband attempt c a :
    is_None src_ds = false ->
    never_calls "ComputeProximity" attempt = true ->
    never_calls "Create" attempt = true ->
    proximity_run
      (open_source (Gives src_ds) :: source_band src_ds srcband
       :: attempt ++ creation_calls src_ds c
       ++ [compute srcband (c_dstband c) a])
      (after_compute a).

End Runs.

(** What the [try] block on the destination leaves behind. *)
Definition existing_post (dst_filename : option string) (dst_band_n : Z)
    (tr : list (event Empty_set))
    (res : outcome (value * option (value * value))) : Prop :=
  never_calls "ComputeProximity" tr = true /\
  never_calls "Create" tr = true /\
  ((exists d, res = Return (d, None)) \/
   (exists d dst_ds dstband,
      is_None d = false /\ is_None dst_ds = false /\
      res = Return (d, Some (dst_ds, dstband)) /\
      tr = [ Asked (Method gdal "IdentifyDriver" [opt_str dst_filename] [])
               (Gives d);
             Asked (Method gdal "Open" [opt_str dst_filename; GA_Update] [])
               (Gives dst_ds);
             Asked (Method dst_ds "GetRasterBand" [VInt dst_band_n] [])
               (Gives dstband) ])).

(** What [create_dataset] leaves behind. *)
Definition dataset_post (src_ds : value) (dst_filename : option string)
    (creation_type : string) (creation_options : option (list string))
    (tr : list (event Empty_set)) (res : outcome (value * value)) : Prop :=
  never_calls "ComputeProximity" tr = true /\
  match res with
  | Return (dst_ds, dstband) =>
      exists c,
        tr = creation_calls dst_filename creation_type creation_options src_ds c
        /\ c_dstband c = dstband
  | Raise _ => True
  | Unfinished => False
  end.

(** What [main] does once the argument loop has ended. *)
Definition after_loop (p : parsed) (tr : list (event Empty_set))
    (r : outcome value) : Prop :=
  match p with
  | Exits out code => tr = map Wrote out /\ r = Return (VInt code)
  | Crashes e => tr = [] /\ r = Raise e
  | OutOfFuel => False
  | Parsed o =>
      match src_filename o, dst_filename o with
      | None, _ =>
          tr = [Wrote (Stderr ("Missing <srcfile>" +:+ newline));
                Wrote (Usage_output true)]
          /\ r = Return (VInt 2)
      | Some _, None =>
          tr = [Wrote (Stderr ("Missing <dstfile>" +:+ newline));
                Wrote (Usage_output true)]
          /\ r = Return (VInt 2)
      | Some _, Some _ =>
          proximity_run (src_filename o) (src_band_n o) (dst_filename o)
            (dst_band_n o) (creation_type o) (Some (creation_options o))
            (Some (alg_options o)) (quiet o) tr r
      end
  end.

Definition after_parse (int : string -> option Z) (cmd : list string)
    (tr : list (event Empty_set)) (r : outcome value) : Prop :=
  after_loop (parse_rest int (drop 1 cmd) initial) tr r.

(** The runs of [main]: the answer of [GeneralCmdLineProcessor], then
    what the argument loop and [gdal_proximity] do. *)
Definition main_run (int : string -> option Z) (argv : list string)
    (tr : list (event Empty_set)) (r : outcome value) : Prop :=
  exists a tr',
    tr = Asked (Method gdal "GeneralCmdLineProcessor" [VList argv] []) a :: tr'
    /\
    match a with
    | Throws e => tr' = [] /\ r = Raise e
    | Gives VNone => tr' = [] /\ r = Return (VInt 0)
    | Gives (VList cmd) => after_parse int cmd tr' r
    | Gives _ => tr' = [] /\ r = Raise TypeError
    end.

(** What the exit codes of the usage message make of a command line:
    well-formed [items], then the arguments [rest]. *)
Inductive verdict : Type :=
| Code (n : Z)
| Proceeds (src dst : string).

Definition expected (items : list item) (rest : list string)
    : option verdict :=
  match rest with
  | [] =>
      match files items with
      | [src; dst] => Some (Proceeds src dst)
      | _ => Some (Code 2)
      end
  | arg :: _ =>
      if String.eqb arg "--help" then Some (Code 0)
      else if unrecognized arg then Some (Code 2)
      else if is_file_name arg && (length (files items) =? 2)%nat
      then Some (Code 2)
      else None
  end.

(** The answer an event carries. *)
Definition answer (e : event Empty_set) : option (reply value) :=
  match e with
  | Asked _ a => Some a
  | Wrote _ => None
  end.

(** The command line that [GeneralCmdLineProcessor] hands back. *)
Definition processed (tr : list (event Empty_set)) : option (list string) :=
  match tr with
  | Asked (Method _ "GeneralCmdLineProcessor" _ _) (Gives (VList cmd)) :: _ =>
      Some cmd
  | _ => None
  end.

(** *** Examples of command lines and of runs *)

(** A reader of decimal numerals, standing for [int] in the examples. *)
Fixpoint decimal_from (acc : Z) (s : string) : option Z :=
  match s with
  | EmptyString => Some acc
  | String c rest =>
      let d := nat_of_ascii c in
      if (48 <=? d)%nat && (d <=? 57)%nat
      then decimal_from (10 * acc + Z.of_nat (d - 48)) rest
      else None
  end.

Definition decimal (s : string) : option Z :=
  match s with
  | EmptyString => None
  | _ => decimal_from 0 s
  end.

(** A library that hands the command line back, opens the source, finds
    no dataset at the destination and creates it. *)
Definition creating_library (cmd : list string) : list (reply value) :=
  [ Gives (VList cmd);       (* GeneralCmdLineProcessor *)
    Gives (VObj 1);          (* Open: src_ds *)
    Gives (VObj 2);          (* GetRasterBand: srcband *)
    Gives VNone;             (* IdentifyDriver *)
    Gives (VStr "GTiff");    (* GetOutputDriverFor *)
    Gives (VObj 3);          (* GetDriverByName: drv *)
    Gives (VInt 10);         (* RasterXSize *)
    Gives (VInt 20);         (* RasterYSize *)
    Gives (VInt 6);          (* GetDataTypeByName *)
    Gives (VObj 4);          (* Create: dst_ds *)
    Gives (VObj 5);          (* GetGeoTransform *)
    Gives VNone;             (* SetGeoTransform *)
    Gives (VStr "WKT");      (* GetProjectionRef *)
    Gives VNone;             (* SetProjection *)
    Gives (VObj 6);          (* GetRasterBand: dstband *)
    Gives VNone ].           (* ComputeProximity *)

Definition sample_command : list string :=
  ["gdal_proximity"; "in.tif"; "-values"; "3,4"; "out.tif"; "-q";
   "-maxdist"; "7"].

Definition sample_items : list item :=
  [File "in.tif"; Algorithm VALUES "3,4"; File "out.tif"; Quiet false;
   Algorithm MAXDIST "7"].

Definition sample_run : list (event Empty_set) * outcome value :=
  Eval vm_compute in
    default ([], Unfinished)
      (exec (main decimal sample_command) (creating_library sample_command)).

Definition sample_compute : event Empty_set :=
  Eval vm_compute in default (Wrote (Stdout "")) (last sample_run.1).

(** The same library seen from [gdal_proximity], called directly. *)
Definition sample_proximity_run : list (event Empty_set) * outcome value :=
  Eval vm_compute in
    default ([], Unfinished)
      (exec (gdal_proximity (Some "in.tif") 1 (Some "out.tif") 1 VNone
               "Float32" (Some ["COMPRESS=LZW"]) (Some ["VALUES=3,4"]) false)
         (drop 1 (creating_library []))).

Definition sample_proximity_compute : event Empty_set :=
  Eval vm_compute in default (Wrote (Stdout "")) (last sample_proximity_run.1).

(** Command lines that stop before their last argument is read. *)
Definition help_then_bogus : list string :=
  ["gdal_proximity"; "--help"; "-bogus"].
Definition bogus_then_flag : list string :=
  ["gdal_proximity"; "-bogus"; "-of"].
Definition help_then_flag : list string :=
  ["gdal_proximity"; "--help"; "-of"].
Definition flag_as_value : list string :=
  ["gdal_proximity"; "-of"; "-of"].

(** The result of [main] when the library hands the command line back. *)
Definition result_on (cmd : list string) : option (outcome value) :=
  snd <$> exec (main decimal cmd) [Gives (VList cmd)].

(** *** What the argument loop makes of a command line *)

Definition format_of (it : item) : option string :=
  match it with Format _ v => Some v | _ => None end.
Definition creation_option_of (it : item) : option string :=
  match it with CreationOption v => Some v | _ => None end.
Definition output_type_of (it : item) : option string :=
  match it with OutputType v => Some v | _ => None end.
Definition src_band_of (it : item) : option string :=
  match it with SrcBand v => Some v | _ => None end.
Definition dst_band_of (it : item) : option string :=
  match it with DstBand v => Some v | _ => None end.

(** The band number that the values of -srcband (or -dstband) give: the
    integer of the last one, 1 without any. *)
Definition band_of (int : string -> option Z) (values : list string) : Z :=
  default 1%Z (last values ≫= int).

(** The local variables of [main] after the items: the last -of or -f,
    -ot, -srcband and -dstband win, the values of -co and the algorithm
    options pile up in order, the first file name is the source and the
    second the destination. *)
Definition options_of (int : string -> option Z) (items : list item)
    : options :=
  {| driver_name := last (omap format_of items);
     creation_options := omap creation_option_of items;
     alg_options := alg_strings items;
     src_filename := files items !! 0%nat;
     src_band_n := band_of int (omap src_band_of items);
     dst_filename := files items !! 1%nat;
     dst_band_n := band_of int (omap dst_band_of items);
     creation_type := default "Float32" (last (omap output_type_of items));
     quiet := quiet_given items |}.

Definition is_band_flag (arg : string) : bool :=
  String.eqb arg "-srcband" || String.eqb arg "-dstband".

(** How the loop ends at the arguments [rest] that follow the items:
    at the end of the command line, at --help, at an option without its
    value or with a band that is no integer, at an empty argument, at a
    third file name, at an unrecognized option. *)
Definition ends (int : string -> option Z) (items : list item)
    (rest : list string) : parsed :=
  match rest with
  | [] => Parsed (options_of int items)
  | arg :: more =>
      if String.eqb arg "--help" then
        Exits [Usage_output false] (Usage_code false)
      else if takes_value arg then
        match more with
        | [] => Crashes IndexError
        | _ :: _ => Crashes ValueError
        end
      else if String.eqb arg "" then Crashes IndexError
      else if is_file_name arg then
        Exits [Usage_output true] (Usage_code true)
      else
        Exits [Stderr ("Unrecognized option : " +:+ arg +:+ newline);
               Usage_output true] (Usage_code true)
  end.

(** The items cannot be read any further than [rest]: its first argument
    is no -q, a file name only as a third one, an option taking a value
    only without its value or, for a band, with a value that is no
    integer. *)
Definition stops_at (int : string -> option Z) (items : list item)
    (rest : list string) : Prop :=
  match rest with
  | [] => True
  | arg :: more =>
      arg <> "-q" /\ arg <> "-quiet"
      /\ (is_file_name arg = true -> length (files items) = 2%nat)
      /\ (takes_value arg = true ->
          more = []
          \/ (is_band_flag arg = true
              /\ exists v, head more = Some v /\ int v = None))
  end.

Definition is_stderr (o : output) : bool :=
  match o with Stderr _ => true | Stdout _ => false end.

(** The call that opens [main]. *)
Definition processor (argv : list string) (a : reply value)
    : event Empty_set :=
  Asked (Method gdal "GeneralCmdLineProcessor" [VList argv] []) a.

(** *** The calls of [gdal_proximity] on the destination *)

Definition identify_driver (dst_filename : option string) (a : reply value)
    : event Empty_set :=
  Asked (Method gdal "IdentifyDriver" [opt_str dst_filename] []) a.

Definition open_update (dst_filename : option string) (a : reply value)
    : event Empty_set :=
  Asked (Method gdal "Open" [opt_str dst_filename; GA_Update] []) a.

Definition destination_band (dst_ds : value) (dst_band_n : Z)
    (a : reply value) : event Empty_set :=
  Asked (Method dst_ds "GetRasterBand" [VInt dst_band_n] []) a.

Definition output_driver_for (dst_filename : option string) (a : reply value)
    : event Empty_set :=
  Asked (Method util "GetOutputDriverFor" [opt_str dst_filename] []) a.

Definition get_driver (name : value) (a : reply value) : event Empty_set :=
  Asked (Method gdal "GetDriverByName" [name] []) a.

(** The exception that a reply carries. *)
Definition thrown (e : event Empty_set) : option exn :=
  match e with
  | Asked _ (Throws err) => Some err
  | _ => None
  end.

(** A call that gave [None]. *)
Definition gave_None (name : string) (e : event Empty_set) : bool :=
  match e with
  | Asked (Method _ n _ _) (Gives VNone) => String.eqb n name
  | _ => false
  end.
(** *** More examples of command lines and of runs *)

(** Options given twice, and two values of -co. *)
Definition override_items : list item :=
  [ Format false "GTiff"; File "in.tif"; SrcBand "2";
    CreationOption "TILED=YES"; Format true "HFA"; File "out.img";
    CreationOption "COMPRESS=LZW"; SrcBand "3"; OutputType "Byte" ].

(** The run of [main] on a command line that the library hands back, with
    the answers that follow. *)
Definition run_on (cmd : list string) (answers : list (reply value))
    : list (event Empty_set) * outcome value :=
  default ([], Unfinished)
    (exec (main decimal cmd) (Gives (VList cmd) :: answers)).

Definition empty_argument_run : list (event Empty_set) * outcome value :=
  Eval vm_compute in run_on ["gdal_proximity"; "in.tif"; ""; "out.tif"] [].

Definition band_name_run : list (event Empty_set) * outcome value :=
  Eval vm_compute in
    run_on ["gdal_proximity"; "in.tif"; "-srcband"; "one"; "out.tif"] [].

Definition bogus_run : list (event Empty_set) * outcome value :=
  Eval vm_compute in run_on ["gdal_proximity"; "in.tif"; "-bogus"] [].

Definition help_run : list (event Empty_set) * outcome value :=
  Eval vm_compute in run_on ["gdal_proximity"; "--help"] [].

(** [gdal_proximity] as the examples call it, with the driver [name]. *)
Definition sample_call (name : value) : py Empty_set value :=
  gdal_proximity (Some "in.tif") 1 (Some "out.tif") 1 name "Float32"
    (Some ["COMPRESS=LZW"]) (Some ["VALUES=3,4"]) false.

(** A source that cannot be opened. *)
Definition unopened_run : list (event Empty_set) * outcome value :=
  Eval vm_compute in
    default ([], Unfinished) (exec (sample_call VNone) [Gives VNone]).

(** A destination that exists and opens for update. *)
Definition existing_library : list (reply value) :=
  [ Gives (VObj 1);          (* Open: src_ds *)
    Gives (VObj 2);          (* GetRasterBand: srcband *)
    Gives (VObj 3);          (* IdentifyDriver *)
    Gives (VObj 4);          (* Open, GA_Update: dst_ds *)
    Gives (VObj 5);          (* GetRasterBand: dstband *)
    Gives VNone ].           (* ComputeProximity *)

Definition existing_run : list (event Empty_set) * outcome value :=
  Eval vm_compute in
    default ([], Unfinished) (exec (sample_call VNone) existing_library).

(** A driver that [GetDriverByName] does not know. *)
Definition unknown_driver_run : list (event Empty_set) * outcome value :=
  Eval vm_compute in
    default ([], Unfinished)
      (exec (sample_call (VStr "NoSuchDriver"))
         [ Gives (VObj 1); Gives (VObj 2);
           Throws (OtherError "RuntimeError");  (* IdentifyDriver *)
           Gives VNone ]).                      (* GetDriverByName *)

End GdalProximity.

(** * samples/vec_tr.py *)

Module VecTr.

(** An event that is neither a [Clone] nor a [SetGeometryDirectly]. *)
Definition plain {G} (e : event G) : bool :=
  negb (calls_method "Clone" e) && negb (calls_method "SetGeometryDirectly" e).

Section Geometry.

(** The coordinates are Python floats: [number] with its addition and
    the conversion of an integer literal. *)
Variable number : Type.
Variable plus : number -> number -> number.
Variable of_int : Z -> number.

Definition point : Type := number * number * number.

Definition TransformPoint (xyz : point) : point :=
  let x := xyz.1.1 in
  let y := xyz.1.2 in
  let z := xyz.2 in
  let x := plus x (of_int 1000) in
  (x, y, z).

(** Modelled from the spec: the class [ogr.Geometry] of the library, which
    is not among the scripts.  A geometry has vertices and owns its
    sub-geometries, so it is a tree; [oid] is the identity of the object,
    what [is] compares.  The methods below read and write it the way the
    walk uses them. *)
Inductive geometry : Type :=
| Geometry (oid : nat) (points : list point) (parts : list geometry).

Definition oid (g : geometry) : nat :=
  match g with Geometry i _ _ => i end.
Definition points (g : geometry) : list point :=
  match g with Geometry _ pts _ => pts end.
Definition parts (g : geometry) : list geometry :=
  match g with Geometry _ _ ps => ps end.

Definition GetGeometryCount (geom : geometry) : nat := length (parts geom).
Definition GetGeometryRef (geom : geometry) (i : nat) : option geometry :=
  parts geom !! i.
Definition GetPointCount (geom : geometry) : nat := length (points geom).
Definition GetX (geom : geometry) (i : nat) : option number :=
  (fun p : point => p.1.1) <$> points geom !! i.
Definition GetY (geom : geometry) (i : nat) : option number :=
  (fun p : point => p.1.2) <$> points geom !! i.
Definition GetZ (geom : geometry) (i : nat) : option number :=
  (fun p : point => p.2) <$> points geom !! i.
Definition SetPoint (geom : geometry) (i : nat) (x y z : number) : geometry :=
  Geometry (oid geom) (<[i := (x, y, z)]> (points geom)) (parts geom).

(** [GetGeometryRef(i)] is a reference into [geom]: what is done to the
    part through it is done to the part of [geom]. *)
Definition update_part (geom : geometry) (i : nat) (part : geometry)
    : geometry :=
  Geometry (oid geom) (points geom) (<[i := part]> (parts geom)).

Fixpoint depth (g : geometry) : nat :=
  match g with
  | Geometry _ _ ps => S (foldr (fun p d => Nat.max (depth p) d) 0 ps)
  end.

(** [for i in range(n): geom = body(i, geom)], with early exit. *)
Fixpoint for_range (indices : list nat)
    (body : nat -> geometry -> outcome geometry) (geom : geometry)
    : outcome geometry :=
  match indices with
  | [] => Return geom
  | i :: rest =>
      match body i geom with
      | Return geom' => for_range rest body geom'
      | Raise e => Raise e
      | Unfinished => Unfinished
      end
  end.

(** The method [SetGeometryDirectly] of a geometry, which the script
    calls on [geom] when the walk of a part returns another object: the
    new state of [geom], or an exception. *)
Variable SetGeometryDirectly : geometry -> geometry -> outcome geometry.

(** The loop on the points of a geometry without parts. *)
Definition transform_points (geom : geometry) : geometry :=
  foldl
    (fun geom i =>
       match GetX geom i, GetY geom i, GetZ geom i with
       | Some x, Some y, Some z =>
           let xyz := (x, y, z) in
           let xyz := TransformPoint xyz in
           SetPoint geom i xyz.1.1 xyz.1.2 xyz.2
       | _, _, _ => geom
       end)
    geom (seq 0 (GetPointCount geom)).

(** [WalkAndTransform]; the fuel bounds the depth of the recursion. *)
Fixpoint WalkAndTransform (fuel : nat) (geom : geometry) : outcome geometry :=
  match fuel with
  | O => Unfinished
  | S fuel' =>
      if (0 <? GetGeometryCount geom)%nat then
        for_range (seq 0 (GetGeometryCount geom))
          (fun i geom =>
             match GetGeometryRef geom i with
             | None => Raise AttributeError
             | Some old_geom =>
                 match WalkAndTransform fuel' old_geom with
                 | Return new_geom =>
                     let geom := update_part geom i new_geom in
                     if negb (oid new_geom =? oid old_geom)%nat
                     then SetGeometryDirectly geom new_geom
                     else Return geom
                 | Raise e => Raise e
                 | Unfinished => Unfinished
                 end
             end)
          geom
      else Return (transform_points geom)
  end.

(** What the specification says of the walk: [TransformPoint] on every point of
    every geometry without parts, once; nothing else changes. *)
Fixpoint transformed (g : geometry) : geometry :=
  match g with
  | Geometry i pts [] => Geometry i (map TransformPoint pts) []
  | Geometry i pts ps => Geometry i pts (map transformed ps)
  end.

(** The shape of a geometry: the number of points of each node. *)
Inductive skeleton : Type :=
| Skeleton (oid npoints : nat) (parts : list skeleton).

Fixpoint skeleton_of (g : geometry) : skeleton :=
  match g with
  | Geometry i pts ps => Skeleton i (length pts) (map skeleton_of ps)
  end.

(** All the vertices of a geometry, node by node. *)
Fixpoint vertices (g : geometry) : list point :=
  match g with
  | Geometry _ pts ps => pts ++ concat (map vertices ps)
  end.

(** The vertices of the geometries without parts. *)
Fixpoint leaf_vertices (g : geometry) : list point :=
  match g with
  | Geometry _ pts [] => pts
  | Geometry _ _ ps => concat (map leaf_vertices ps)
  end.

Definition yz (p : point) : number * number := (p.1.2, p.2).

(** *** [main] *)

Abbreviation value := (pyval geometry).

Definition ogr : value := VModule "ogr".

Definition Usage : py geometry value :=
  (emit (Stdout ("Usage: vec_tr.py infile outfile [layer]" +:+ newline)) ;;;
   emit (Stdout ("" +:+ newline)) ;;;
   ret (VInt 2))%py.

(** [for arg in argv[1:]: ...]; [None] is [return Usage()]. *)
Fixpoint read_args (args : list string)
    (infile outfile layer_name : option string)
    : option (option string * option string * option string) :=
  match args with
  | [] => Some (infile, outfile, layer_name)
  | arg :: rest =>
      match infile, outfile, layer_name with
      | None, _, _ => read_args rest (Some arg) outfile layer_name
      | Some _, None, _ => read_args rest infile (Some arg) layer_name
      | Some _, Some _, None => read_args rest infile outfile (Some arg)
      | Some _, Some _, Some _ => None
      end
  end.

Definition no_args : py geometry (list value) := ret [].
Definition no_kwargs : py geometry (list (string * value)) := ret [].

(** [range(n)] for the value [n]. *)
Definition range (n : value) : py geometry (list nat) :=
  match n with
  | VInt n => ret (seq 0 (Z.to_nat n))
  | _ => raise TypeError
  end.

(** The body of the loop on the fields. *)
Definition copy_field (in_defn shp_layer : value) (fld_index : nat)
    : py geometry unit :=
  (src_fd <- method in_defn "GetFieldDefn"
               (ret [VInt (Z.of_nat fld_index)]) no_kwargs ;;
   fd <- method ogr "FieldDefn"
           (name <- method src_fd "GetName" no_args no_kwargs ;;
            type <- method src_fd "GetType" no_args no_kwargs ;;
            ret [name; type])
           no_kwargs ;;
   method fd "SetWidth"
     (w <- method src_fd "GetWidth" no_args no_kwargs ;; ret [w]) no_kwargs ;;;
   method fd "SetPrecision"
     (p <- method src_fd "GetPrecision" no_args no_kwargs ;; ret [p])
     no_kwargs ;;;
   method shp_layer "CreateField" (ret [fd]) no_kwargs ;;;
   ret tt)%py.

Fixpoint copy_fields (in_defn shp_layer : value) (indices : list nat)
    : py geometry unit :=
  match indices with
  | [] => ret tt
  | i :: rest =>
      (copy_field in_defn shp_layer i ;;; copy_fields in_defn shp_layer rest)%py
  end.

(** [geom = WalkAndTransform(geom)] on the answer of [Clone]: only a
    geometry has the methods the walk calls. *)
Definition walk (geom : value) : py geometry geometry :=
  match geom with
  | VGeom g => Done (WalkAndTransform (S (depth g)) g)
  | _ => raise AttributeError
  end.

(** The body of the loop on the features, up to the next feature. *)
Definition copy_feature (in_layer shp_layer in_feat : value)
    : py geometry value :=
  (geom <- (ref <- method in_feat "GetGeometryRef" no_args no_kwargs ;;
            method ref "Clone" no_args no_kwargs) ;;
   geom <- walk geom ;;
   out_feat <- method ogr "Feature" no_args
                 (defn <- method shp_layer "GetLayerDefn" no_args no_kwargs ;;
                  ret [("feature_def", defn)]) ;;
   method out_feat "SetFrom" (ret [in_feat]) no_kwargs ;;;
   method out_feat "SetGeometryDirectly" (ret [VGeom geom]) no_kwargs ;;;
   method shp_layer "CreateFeature" (ret [out_feat]) no_kwargs ;;;
   method out_feat "Destroy" no_args no_kwargs ;;;
   method in_feat "Destroy" no_args no_kwargs ;;;
   method in_layer "GetNextFeature" no_args no_kwargs)%py.

(** [while in_feat is not None: ...], one unit of fuel per test. *)
Fixpoint copy_features (fuel : nat) (in_layer shp_layer in_feat : value)
    : py geometry unit :=
  match fuel with
  | O => Done Unfinished
  | S fuel' =>
      if is_None in_feat then ret tt
      else
        (in_feat <- copy_feature in_layer shp_layer in_feat ;;
         copy_features fuel' in_layer shp_layer in_feat)%py
  end.

(** What [main] does once the output driver is at hand. *)
Definition write_output (fuel : nat) (outfile : string)
    (in_ds in_layer in_defn shp_driver : value) : py geometry value :=
  (method shp_driver "DeleteDataSource" (ret [VStr outfile]) no_kwargs ;;;
   shp_ds <- method shp_driver "CreateDataSource" (ret [VStr outfile])
               no_kwargs ;;
   shp_layer <- method shp_ds "CreateLayer"
                  (name <- method in_defn "GetName" no_args no_kwargs ;;
                   ret [name])
                  (geom_type <- method in_defn "GetGeomType" no_args no_kwargs ;;
                   srs <- method in_layer "GetSpatialRef" no_args no_kwargs ;;
                   ret [("geom_type", geom_type); ("srs", srs)]) ;;
   in_field_count <- method in_defn "GetFieldCount" no_args no_kwargs ;;
   indices <- range in_field_count ;;
   copy_fields in_defn shp_layer indices ;;;
   in_feat <- method in_layer "GetNextFeature" no_args no_kwargs ;;
   copy_features fuel in_layer shp_layer in_feat ;;;
   method shp_ds "Destroy" no_args no_kwargs ;;;
   method in_ds "Destroy" no_args no_kwargs ;;;
   ret (VInt 0))%py.

Definition main (fuel : nat) (argv : list string) : py geometry value :=
  match read_args (drop 1 argv) None None None with
  | None => Usage
  | Some (_, None, _) => Usage
  | Some (infile, Some outfile, layer_name) =>
      (in_ds <- method ogr "Open" (ret [opt_str infile])
                  (ret [("update", VInt 0)]) ;;
       in_layer <- match layer_name with
                   | Some name =>
                       method in_ds "GetLayerByName" (ret [VStr name]) no_kwargs
                   | None => method in_ds "GetLayer" (ret [VInt 0]) no_kwargs
                   end ;;
       in_defn <- method in_layer "GetLayerDefn" no_args no_kwargs ;;
       shp_driver <- method ogr "GetDriverByName"
                       (ret [VStr "ESRI Shapefile"]) no_kwargs ;;
       write_output fuel outfile in_ds in_layer in_defn shp_driver)%py
  end.

(** The geometries that [Clone] answered, and those given to
    [SetGeometryDirectly], in the order of the trace. *)
Definition cloned (e : event geometry) : option geometry :=
  match e with
  | Asked (Method _ "Clone" _ _) (Gives (VGeom g)) => Some g
  | _ => None
  end.

Definition written (e : event geometry) : option geometry :=
  match e with
  | Asked (Method _ "SetGeometryDirectly" [VGeom g] _) _ => Some g
  | _ => None
  end.

(** What one turn of the loop on the features leaves in the trace. *)
Definition turn_post (tr : list (event geometry)) (r : outcome value) : Prop :=
  match r with
  | Return _ =>
      exists g, omap cloned tr = [g] /\ omap written tr = [transformed g]
  | _ =>
      (omap cloned tr = [] /\ omap written tr = [])
      \/ exists g, omap cloned tr = [g]
                   /\ (omap written tr = []
                       \/ omap written tr = [transformed g])
  end.

(** Every geometry given to [SetGeometryDirectly] is the walked clone, in
    order; at most the last clone is not yet handed over, and none when
    the run returns. *)
Definition handed_over {A} (tr : list (event geometry)) (r : outcome A)
    : Prop :=
  match r with
  | Return _ => omap written tr = map transformed (omap cloned tr)
  | _ =>
      omap written tr = map transformed (omap cloned tr)
      \/ exists pre g, omap cloned tr = pre ++ [g]
                       /\ omap written tr = map transformed pre
  end.

Definition get_shp_driver (drv : reply value) : event geometry :=
  Asked (Method ogr "GetDriverByName" [VStr "ESRI Shapefile"] []) drv.

Definition delete_output (drv : value) (outfile : string) (a : reply value)
    : event geometry :=
  Asked (Method drv "DeleteDataSource" [VStr outfile] []) a.

(** The run has the output driver and has asked it to delete [outfile],
    before any feature is read. *)
Definition deletes_output (argv : list string) (tr : list (event geometry))
    : Prop :=
  exists e0 e1 e2 drv outfile a post,
    argv !! 2%nat = Some outfile /\ is_None drv = false /\
    never_calls "GetNextFeature" [e0; e1; e2] = true /\
    tr = e0 :: e1 :: e2 :: get_shp_driver (Gives drv)
         :: delete_output drv outfile a :: post.

(** The run stops without an output driver, and reads no feature. *)
Definition stops_before_output (tr : list (event geometry)) : Prop :=
  never_calls "GetNextFeature" tr = true /\
  forall e0 e1 e2 drv post,
    tr = e0 :: e1 :: e2 :: get_shp_driver (Gives drv) :: post ->
    is_None drv = true.

End Geometry.

Arguments yz {number} p.

(** *** Examples of geometries and of runs *)

(** Integer coordinates, and a geometry class without the method
    [SetGeometryDirectly], for the examples. *)
Definition no_such_method (geom new_geom : geometry Z) : outcome (geometry Z) :=
  Raise AttributeError.

(** A polygon with two rings, and a copy of it made of other objects. *)
Definition polygon (oid0 : nat) : geometry Z :=
  Geometry oid0 []
    [ Geometry (oid0 + 1) [(0, 0, 5); (4, 0, 5); (4, 3, 5); (0, 0, 5)]%Z [];
      Geometry (oid0 + 2) [(1, 1, 5); (2, 1, 5); (1, 1, 5)]%Z [] ].

Definition sample_argv : list string := ["vec_tr.py"; "in.shp"; "out.shp"].

(** A library with one layer of one feature. *)
Definition one_feature_library : list (reply (pyval (geometry Z))) :=
  [ Gives (VObj 1);              (* Open: in_ds *)
    Gives (VObj 2);              (* GetLayer: in_layer *)
    Gives (VObj 3);              (* GetLayerDefn: in_defn *)
    Gives (VObj 4);              (* GetDriverByName: shp_driver *)
    Gives (VInt 0);              (* DeleteDataSource *)
    Gives (VObj 5);              (* CreateDataSource: shp_ds *)
    Gives (VStr "parcels");      (* GetName *)
    Gives (VInt 3);              (* GetGeomType *)
    Gives VNone;                 (* GetSpatialRef *)
    Gives (VObj 6);              (* CreateLayer: shp_layer *)
    Gives (VInt 0);              (* GetFieldCount *)
    Gives (VObj 7);              (* GetNextFeature: in_feat *)
    Gives (VGeom (polygon 10));  (* GetGeometryRef *)
    Gives (VGeom (polygon 20));  (* Clone *)
    Gives (VObj 8);              (* GetLayerDefn *)
    Gives (VObj 9);              (* Feature: out_feat *)
    Gives VNone;                 (* SetFrom *)
    Gives VNone;                 (* SetGeometryDirectly *)
    Gives (VInt 0);              (* CreateFeature *)
    Gives VNone;                 (* Destroy *)
    Gives VNone;                 (* Destroy *)
    Gives VNone;                 (* GetNextFeature *)
    Gives VNone;                 (* Destroy *)
    Gives VNone ].               (* Destroy *)

Definition one_feature_run
    : list (event (geometry Z)) * outcome (pyval (geometry Z)) :=
  Eval vm_compute in
    default ([], Unfinished)
      (exec (main Z.add id no_such_method 2 sample_argv) one_feature_library).

(** A library that deletes the old output and then cannot create the new
    one. *)
Definition failing_library : list (reply (pyval (geometry Z))) :=
  take 5 one_feature_library ++ [Gives VNone].

Definition failing_run
    : list (event (geometry Z)) * outcome (pyval (geometry Z)) :=
  Eval vm_compute in
    default ([], Unfinished)
      (exec (main Z.add id no_such_method 2 sample_argv) failing_library).

(** *** The calls of a run of [main] that returns *)

Section Calls.
Variable number : Type.
Variable plus : number -> number -> number.
Variable of_int : Z -> number.

(** A call without keyword arguments that gave [v]. *)
Definition called (self : pyval (geometry number)) (name : string)
    (args : list (pyval (geometry number))) (v : pyval (geometry number))
    : event (geometry number) :=
  Asked (Method self name args []) (Gives v).

(** What the library answers while [main] opens the input and creates
    the output layer. *)
Record setup : Type := Setup {
  s_in_ds : pyval (geometry number);
  s_in_layer : pyval (geometry number);
  s_in_defn : pyval (geometry number);
  s_shp_driver : pyval (geometry number);
  s_deleted : pyval (geometry number);
  s_shp_ds : pyval (geometry number);
  s_name : pyval (geometry number);
  s_geom_type : pyval (geometry number);
  s_srs : pyval (geometry number);
  s_shp_layer : pyval (geometry number);
  s_field_count : Z;
  s_first : pyval (geometry number);
  s_destroyed_shp : pyval (geometry number);
  s_destroyed_in : pyval (geometry number)
}.

(** The calls of [main] up to the loop on the fields. *)
Definition setup_calls (infile outfile : string) (layer_name : option string)
    (s : setup) : list (event (geometry number)) :=
  [ Asked (Method (ogr number) "Open" [VStr infile] [("update", VInt 0)])
      (Gives (s_in_ds s));
    match layer_name with
    | Some name =>
        called (s_in_ds s) "GetLayerByName" [VStr name] (s_in_layer s)
    | None => called (s_in_ds s) "GetLayer" [VInt 0] (s_in_layer s)
    end;
    called (s_in_layer s) "GetLayerDefn" [] (s_in_defn s);
    called (ogr number) "GetDriverByName" [VStr "ESRI Shapefile"] (s_shp_driver s);
    called (s_shp_driver s) "DeleteDataSource" [VStr outfile] (s_deleted s);
    called (s_shp_driver s) "CreateDataSource" [VStr outfile] (s_shp_ds s);
    called (s_in_defn s) "GetName" [] (s_name s);
    called (s_in_defn s) "GetGeomType" [] (s_geom_type s);
    called (s_in_layer s) "GetSpatialRef" [] (s_srs s);
    Asked (Method (s_shp_ds s) "CreateLayer" [s_name s]
             [("geom_type", s_geom_type s); ("srs", s_srs s)])
      (Gives (s_shp_layer s));
    called (s_in_defn s) "GetFieldCount" [] (VInt (s_field_count s)) ].

(** What the library answers while one field is copied. *)
Record field : Type := Field {
  f_src_fd : pyval (geometry number);
  f_name : pyval (geometry number);
  f_type : pyval (geometry number);
  f_fd : pyval (geometry number);
  f_width : pyval (geometry number);
  f_set_width : pyval (geometry number);
  f_precision : pyval (geometry number);
  f_set_precision : pyval (geometry number);
  f_created : pyval (geometry number)
}.

(** The calls of one turn of the loop on the fields. *)
Definition field_calls (in_defn shp_layer : pyval (geometry number))
    (fld_index : nat) (f : field) : list (event (geometry number)) :=
  [ called in_defn "GetFieldDefn" [VInt (Z.of_nat fld_index)] (f_src_fd f);
    called (f_src_fd f) "GetName" [] (f_name f);
    called (f_src_fd f) "GetType" [] (f_type f);
    called (ogr number) "FieldDefn" [f_name f; f_type f] (f_fd f);
    called (f_src_fd f) "GetWidth" [] (f_width f);
    called (f_fd f) "SetWidth" [f_width f] (f_set_width f);
    called (f_src_fd f) "GetPrecision" [] (f_precision f);
    called (f_fd f) "SetPrecision" [f_precision f] (f_set_precision f);
    called shp_layer "CreateField" [f_fd f] (f_created f) ].

(** What the library answers while one feature is copied. *)
Record feature : Type := Feature {
  a_ref : pyval (geometry number);
  a_clone : geometry number;
  a_defn : pyval (geometry number);
  a_out_feat : pyval (geometry number);
  a_set_from : pyval (geometry number);
  a_set_geometry : pyval (geometry number);
  a_created : pyval (geometry number);
  a_destroyed_out : pyval (geometry number);
  a_destroyed_in : pyval (geometry number);
  a_next : pyval (geometry number)
}.

(** The calls of one turn of the loop on the features, the reading of
    the next feature included. *)
Definition feature_calls (in_layer shp_layer in_feat : pyval (geometry number))
    (a : feature) : list (event (geometry number)) :=
  [ called in_feat "GetGeometryRef" [] (a_ref a);
    called (a_ref a) "Clone" [] (VGeom (a_clone a));
    called shp_layer "GetLayerDefn" [] (a_defn a);
    Asked (Method (ogr number) "Feature" [] [("feature_def", a_defn a)])
      (Gives (a_out_feat a));
    called (a_out_feat a) "SetFrom" [in_feat] (a_set_from a);
    called (a_out_feat a) "SetGeometryDirectly"
      [VGeom (transformed plus of_int (a_clone a))] (a_set_geometry a);
    called shp_layer "CreateFeature" [a_out_feat a] (a_created a);
    called (a_out_feat a) "Destroy" [] (a_destroyed_out a);
    called in_feat "Destroy" [] (a_destroyed_in a);
    called in_layer "GetNextFeature" [] (a_next a) ].

(** The calls of the loop on the features, from the feature [in_feat]. *)
Fixpoint features_calls (in_layer shp_layer in_feat : pyval (geometry number))
    (features : list feature) : list (event (geometry number)) :=
  match features with
  | [] => []
  | a :: rest =>
      feature_calls in_layer shp_layer in_feat a
      ++ features_calls in_layer shp_layer (a_next a) rest
  end.

(** The loop goes on while the feature read is not [None], and ends at
    the first [None]. *)
Fixpoint read_to_end (in_feat : pyval (geometry number))
    (features : list feature) : bool :=
  match features with
  | [] => is_None in_feat
  | a :: rest => negb (is_None in_feat) && read_to_end (a_next a) rest
  end.

(** The whole of a run that copies the layer. *)
Definition copy_calls (infile outfile : string) (layer_name : option string)
    (s : setup) (fields : list field) (features : list feature)
    : list (event (geometry number)) :=
  setup_calls infile outfile layer_name s
  ++ concat (imap (field_calls (s_in_defn s) (s_shp_layer s)) fields)
  ++ [called (s_in_layer s) "GetNextFeature" [] (s_first s)]
  ++ features_calls (s_in_layer s) (s_shp_layer s) (s_first s) features
  ++ [ called (s_shp_ds s) "Destroy" [] (s_destroyed_shp s);
       called (s_in_ds s) "Destroy" [] (s_destroyed_in s) ].

(** The two lines that [Usage] prints. *)
Definition usage_lines : list (event (geometry number)) :=
  [ Wrote (Stdout ("Usage: vec_tr.py infile outfile [layer]" +:+ newline));
    Wrote (Stdout ("" +:+ newline)) ].

(** An answer [None]. *)
Definition gave_nothing (e : event (geometry number)) : bool :=
  match e with
  | Asked _ (Gives VNone) => true
  | _ => false
  end.

End Calls.
(** *** More examples of runs *)

Definition short_argv_run
    : list (event (geometry Z)) * outcome (pyval (geometry Z)) :=
  Eval vm_compute in
    default ([], Unfinished)
      (exec (main Z.add id no_such_method 2 ["vec_tr.py"; "in.shp"]) []).

(** An input that [ogr.Open] cannot open. *)
Definition missing_input_run
    : list (event (geometry Z)) * outcome (pyval (geometry Z)) :=
  Eval vm_compute in
    default ([], Unfinished)
      (exec (main Z.add id no_such_method 2 sample_argv) [Gives VNone]).
(** *** Python floats *)

(** The coordinates that OGR hands out are Python floats, that is
    binary64 numbers: the primitive floats with their addition, rounded
    to the nearest float; an integer literal is converted as Python
    converts it before the addition. *)
Definition float_of_int (z : Z) : PrimFloat.float :=
  if (z <? 0)%Z
  then PrimFloat.opp (PrimFloat.of_uint63 (Uint63.of_Z (- z)))
  else PrimFloat.of_uint63 (Uint63.of_Z z).

(** The integer that a float is, when it is one. *)
Definition integer_of (f : PrimFloat.float) : option Z :=
  match FloatOps.Prim2SF f with
  | SpecFloat.S754_zero _ => Some 0%Z
  | SpecFloat.S754_finite s m e =>
      let sign := if s then (-1)%Z else 1%Z in
      if (0 <=? e)%Z then Some (sign * (Z.pos m * 2 ^ e))%Z
      else if (Z.pos m mod 2 ^ (- e) =? 0)%Z
           then Some (sign * (Z.pos m / 2 ^ (- e)))%Z
           else None
  | _ => None
  end.

(** A point far from the origin: x is 10^17. *)
Definition far_point : point PrimFloat.float :=
  (float_of_int (10 ^ 17), float_of_int 0, float_of_int 0).

End VecTr.

(** * The proximity engine behind [gdal.ComputeProximity] *)

Module ProximityEngine.

(** The engine is not among the sources: it is modelled from the
    specification, sections 3 (data model) and 4.1 (contract and
    algorithm). *)

Inductive units : Type := PIXEL | GEO.

Inductive EngineError : Type :=
| DimensionMismatch
| InvalidOption
| IOFailure
| Cancelled.

Section Engine.

(** The numbers of the rasters, with what the engine needs of them. *)
Context {num : Type} `{EqDecision num}.
Variable zero : num.
Variable add : num -> num -> num.
Variable leb : num -> num -> bool.

Definition cell : Type := nat * nat.

(** Modelled from the spec: the raster band of section 3, a W x H grid of
    cell values with an optional no-data sentinel (the band type of the
    library is not among the sources). *)
Record band : Type := Band {
  width : nat;
  height : nat;
  cells : gmap cell num;
  nodata : option num
}.

(** Modelled from the spec: the algorithm options of sections 3 and 6,
    once read from their [KEY=value] strings (the option reader of the
    library is not among the sources). *)
Record AlgOptions : Type := Options {
  VALUES : list num;
  DISTUNITS : units;
  MAXDIST : option num;
  NODATA : option num;
  USE_INPUT_NODATA : bool;
  FIXED_BUF_VAL : option num
}.

(** The neighbours already visited in each sweep, each with the cost of
    the step from it, in the requested unit: the table that section 9
    leaves open. *)
Variable forward_steps : units -> list (Z * Z * num).
Variable backward_steps : units -> list (Z * Z * num).

(** The cells in row-major order. *)
Definition row (w y : nat) : list cell := map (fun x => (x, y)) (seq 0 w).
Definition grid (w h : nat) : list cell := concat (map (row w) (seq 0 h)).

Definition in_grid (b : band) (c : cell) : Prop :=
  c.1 < width b /\ c.2 < height b.

(** A band holds a value at each cell of its grid and nowhere else. *)
Definition well_formed (b : band) : Prop :=
  forall c, is_Some (cells b !! c) <-> in_grid b c.

Definition is_nodata (input : band) (c : cell) : bool :=
  match cells input !! c, nodata input with
  | Some v, Some n => bool_decide (v = n)
  | _, _ => false
  end.

(** Modelled from the spec: the sources of section 3, the cells whose
    value is in the target set; with an empty target set, the cells that
    are neither zero nor no-data.  Where sections 3 and 8 pull apart, at
    a no-data cell whose value is in the target set under
    USE_INPUT_NODATA, section 4.1 decides: a cell equal to a source value
    gets distance 0 at once (the engine is not among the sources). *)
Definition is_source (opts : AlgOptions) (input : band) (c : cell) : bool :=
  match cells input !! c with
  | None => false
  | Some v =>
      match VALUES opts with
      | [] => negb (bool_decide (v = zero)) && negb (is_nodata input c)
      | targets => bool_decide (v ∈ targets)
      end
  end.

Definition neighbour (c : cell) (dx dy : Z) : option cell :=
  let x := (Z.of_nat c.1 + dx)%Z in
  let y := (Z.of_nat c.2 + dy)%Z in
  if ((0 <=? x) && (0 <=? y))%Z then Some (Z.to_nat x, Z.to_nat y) else None.

Definition closer (a : num) (b : option num) : option num :=
  match b with
  | Some b' => if leb b' a then Some b' else Some a
  | None => Some a
  end.

(** Modelled from the spec: the propagation of section 4.1, the least
    distance a cell gets through its neighbours already visited (the
    engine is not among the sources). *)
Definition from_neighbours (steps : list (Z * Z * num))
    (dist : gmap cell num) (c : cell) : option num :=
  foldr
    (fun step best =>
       match neighbour c step.1.1 step.1.2 with
       | Some n =>
           match dist !! n with
           | Some d => closer (add d step.2) best
           | None => best
           end
       | None => best
       end)
    (dist !! c) steps.

(** Modelled from the spec: one step of a sweep of section 4.1.  A source
    gets distance 0 at once; another cell gets the least distance through
    its visited neighbours, if any (the engine is not among the
    sources). *)
Definition visit (opts : AlgOptions) (input : band)
    (steps : list (Z * Z * num)) (dist : gmap cell num) (c : cell)
    : gmap cell num :=
  if is_source opts input c then <[c := zero]> dist
  else
    match from_neighbours steps dist c with
    | Some d => <[c := d]> dist
    | None => dist
    end.

(** Modelled from the spec: the two sweeps of section 4.1, forward then
    backward, on the full grid (the engine is not among the sources). *)
Definition sweeps (opts : AlgOptions) (input : band) : gmap cell num :=
  let order := grid (width input) (height input) in
  let forward :=
    foldl (visit opts input (forward_steps (DISTUNITS opts))) ∅ order in
  foldl (visit opts input (backward_steps (DISTUNITS opts))) forward
    (reverse order).

(** Modelled from the spec: the NODATA option of section 6, the sentinel
    written where no distance is reported; without it, the no-data value
    of the output band, or 0 (the engine is not among the sources). *)
Definition sentinel (opts : AlgOptions) (output : band) : num :=
  match NODATA opts, nodata output with
  | Some n, _ => n
  | None, Some n => n
  | None, None => zero
  end.

(** Modelled from the spec: the MAXDIST option of section 6, the upper
    bound on a reported distance (the engine is not among the sources). *)
Definition within (opts : AlgOptions) (d : num) : bool :=
  match MAXDIST opts with
  | Some m => leb d m
  | None => true
  end.

(** Modelled from the spec: the result of section 4.1 at one cell.  A
    source cell holds 0 (sections 4.1 and 8: it gets 0 at once, and
    FIXED_BUF_VAL is for the cells around the sources, section 6); another
    cell holds (c) the sentinel when it is no-data under USE_INPUT_NODATA
    or when no source lies within MAXDIST, and otherwise (b) FIXED_BUF_VAL
    when configured, or (a) the distance (the engine is not among the
    sources). *)
Definition reported (opts : AlgOptions) (input output : band)
    (dist : gmap cell num) (c : cell) : num :=
  if is_source opts input c then zero
  else if USE_INPUT_NODATA opts && is_nodata input c then sentinel opts output
  else
    match dist !! c with
    | Some d =>
        if within opts d then
          match FIXED_BUF_VAL opts with
          | Some v => v
          | None => d
          end
        else sentinel opts output
    | None => sentinel opts output
    end.

(** Modelled from the spec: the progress sink of section 4.1, asked once
    per row; it may request to cancel (the engine is not among the
    sources). *)
Definition cancels (progress : option (nat -> bool)) (y : nat) : bool :=
  match progress with
  | Some sink => sink y
  | None => false
  end.

Definition write_row (value : cell -> num) (w y : nat) (out : gmap cell num)
    : gmap cell num :=
  foldl (fun out c => <[c := value c]> out) out (row w y).

(** Modelled from the spec: the output of section 4.1, written in place,
    one write per cell, row by row, until the sink cancels (the engine is
    not among the sources). *)
Fixpoint write_rows (value : cell -> num) (progress : option (nat -> bool))
    (w : nat) (rows : list nat) (out : gmap cell num)
    : option EngineError * gmap cell num :=
  match rows with
  | [] => (None, out)
  | y :: rest =>
      if cancels progress y then (Some Cancelled, out)
      else write_rows value progress w rest (write_row value w y out)
  end.

(** Modelled from the spec: [computeProximity] of section 4.1, as the
    error, if any, and the output band after the call (the engine is
    not among the sources). *)
Definition computeProximity (input output : band) (opts : AlgOptions)
    (progress : option (nat -> bool)) : option EngineError * band :=
  if negb (bool_decide (width input = width output
                        /\ height input = height output))
  then (Some DimensionMismatch, output)
  else
    let dist := sweeps opts input in
    let result :=
      write_rows (reported opts input output dist) progress (width output)
        (seq 0 (height output)) (cells output) in
    (result.1, Band (width output) (height output) result.2 (nodata output)).

(** Modelled from the spec: a fresh output band of section 8, every cell
    at the same value (the band type of the library is not among the
    sources). *)
Definition fresh (w h : nat) (fill : num) (sentinel : option num) : band :=
  Band w h (list_to_map (map (fun c => (c, fill)) (grid w h))) sentinel.

End Engine.

(** *** Examples of rasters and of options *)

(** Integer rasters and a table of unit steps, for the examples. *)
Definition unit_forward (u : units) : list (Z * Z * Z) :=
  [(-1, 0, 1); (0, -1, 1); (-1, -1, 1); (1, -1, 1)]%Z.
Definition unit_backward (u : units) : list (Z * Z * Z) :=
  [(1, 0, 1); (0, 1, 1); (1, 1, 1); (-1, 1, 1)]%Z.

(** A 3 x 2 raster with the value 1 at the cell (0, 0) and 0 elsewhere. *)
Definition corner_input : band (num:=Z) :=
  Band 3 2 (<[(0, 0) := 1%Z]> (cells (fresh 3 2 0%Z None))) None.

Definition plain_options : AlgOptions (num:=Z) :=
  Options [1%Z] PIXEL (Some 3%Z) None false None.

(** The scenario of section 8: FIXED_BUF_VAL=5, MAXDIST=3. *)
Definition buffer_options : AlgOptions (num:=Z) :=
  Options [1%Z] PIXEL (Some 3%Z) None false (Some 5%Z).

(** A raster whose no-data value is the target value, options that use
    the no-data of the input and a buffer value, and an output band filled
    with 7 whose no-data value is 9. *)
Definition nodata_corner_input : band (num:=Z) :=
  Band 3 2 (cells corner_input) (Some 1%Z).

Definition nodata_buffer_options : AlgOptions (num:=Z) :=
  Options [1%Z] PIXEL (Some 1%Z) None true (Some 5%Z).

Definition run_engine_on (input : band (num:=Z)) (opts : AlgOptions (num:=Z))
    : option EngineError * band (num:=Z) :=
  computeProximity 0%Z Z.add Z.leb unit_forward unit_backward input
    (fresh 3 2 7%Z (Some 9%Z)) opts None.

Definition run_engine (opts : AlgOptions (num:=Z))
    : option EngineError * band (num:=Z) :=
  computeProximity 0%Z Z.add Z.leb unit_forward unit_backward corner_input
    (fresh 3 2 0%Z None) opts None.

End ProximityEngine.

(** * Facts on runs *)

(** * Facts on runs *)

Section RunFacts.
Context {G : Type}.
Implicit Types (tr : list (event G)).

Lemma always_runs R (p : prog G R) Q tr r :
  always p Q -> runs p tr r -> Q tr r.
Proof.
  intros H Hr. revert Q H.
  induction Hr as [r|c k a tr r _ IH|o k tr r _ IH]; intros Q H; simpl in H.
  - exact H.
  - exact (IH _ (H a)).
  - exact (IH _ H).
Qed.

Lemma runs_always R (p : prog G R) (Q : list (event G) -> R -> Prop) :
  (forall tr r, runs p tr r -> Q tr r) -> always p Q.
Proof.
  revert Q. induction p as [r|c k IH|o k IH]; intros Q H; simpl.
  - apply H. constructor.
  - intros a. apply IH. intros tr r Hr. apply H. by constructor.
  - apply IH. intros tr r Hr. apply H. by constructor.
Qed.

Lemma always_mono R (p : prog G R) (Q Q' : list (event G) -> R -> Prop) :
  always p Q -> (forall tr r, Q tr r -> Q' tr r) -> always p Q'.
Proof.
  revert Q Q'. induction p as [r|c k IH|o k IH]; intros Q Q' H HQ; simpl in *.
  - by apply HQ.
  - intros a. eapply IH; [apply H|]. intros tr r. apply HQ.
  - eapply IH; [apply H|]. intros tr r. apply HQ.
Qed.

(** The rule of sequencing: the trace of [bind m f] is the trace of [m]
    followed, when [m] returns, by the trace of [f]. *)
Lemma always_bind A B (m : py G A) (f : A -> py G B) Q :
  always m (fun tr1 res =>
    match res with
    | Return a => always (f a) (fun tr2 r => Q (tr1 ++ tr2) r)
    | Raise e => Q tr1 (Raise e)
    | Unfinished => Q tr1 Unfinished
    end) ->
  always (bind m f) Q.
Proof.
  revert Q. induction m as [[a|e|]|c k IH|o k IH]; intros Q H; simpl in *;
    try done.
  - intros a. apply IH. apply H.
  - apply IH. apply H.
Qed.

Lemma always_try_except A (m : py G A) (h : exn -> py G A) Q :
  always m (fun tr1 res =>
    match res with
    | Raise e => always (h e) (fun tr2 r => Q (tr1 ++ tr2) r)
    | _ => Q tr1 res
    end) ->
  always (try_except m h) Q.
Proof.
  revert Q. induction m as [[a|e|]|c k IH|o k IH]; intros Q H; simpl in *;
    try done.
  - intros a. apply IH. apply H.
  - apply IH. apply H.
Qed.

(** A run against a script of answers is a run. *)
Lemma exec_runs R (p : prog G R) answers tr r :
  exec p answers = Some (tr, r) -> runs p tr r.
Proof.
  revert answers tr. induction p as [r'|c k IH|o k IH]; intros answers tr H;
    simpl in H.
  - injection H as <- <-. constructor.
  - destruct answers as [|a rest]; [done|].
    destruct (exec (k a) rest) as [[tr' r']|] eqn:E; [|done].
    injection H as <- <-. constructor. by eapply IH.
  - destruct (exec k answers) as [[tr' r']|] eqn:E; [|done].
    injection H as <- <-. constructor. by eapply IH.
Qed.

Lemma never_calls_app name tr1 tr2 :
  never_calls name (tr1 ++ tr2) = never_calls name tr1 && never_calls name tr2.
Proof. apply forallb_app. Qed.

Lemma never_calls_elem name tr e :
  never_calls name tr = true -> e ∈ tr -> calls_method name e = false.
Proof.
  unfold never_calls. rewrite forallb_forall. intros H Hin.
  apply list_elem_of_In in Hin. specialize (H _ Hin).
  by destruct (calls_method name e).
Qed.

End RunFacts.

Section MethodFacts.
Context {G : Type}.

Lemma is_None_true (v : pyval G) : is_None v = true -> v = VNone.
Proof. by destruct v. Qed.

(** A call with its arguments at hand: one event, unless the receiver is
    [None]. *)
Lemma always_method (self : pyval G) name args kwargs
    (Q : list (event G) -> outcome (pyval G) -> Prop) :
  (is_None self = true -> Q [] (Raise AttributeError)) ->
  (is_None self = false ->
   forall a, Q [Asked (Method self name args kwargs) a] (answered a)) ->
  always (method self name (ret args) (ret kwargs)) Q.
Proof.
  intros H1 H2. unfold method. destruct (is_None self); [by apply H1|].
  simpl. intros [v|e]; simpl; by apply (H2 eq_refl (Gives _)) || apply (H2 eq_refl (Throws _)).
Qed.

Lemma always_attr (self : pyval G) name
    (Q : list (event G) -> outcome (pyval G) -> Prop) :
  (is_None self = true -> Q [] (Raise AttributeError)) ->
  (is_None self = false -> forall a, Q [Asked (Attr self name) a] (answered a)) ->
  always (attr self name) Q.
Proof.
  intros H1 H2. unfold attr. destruct (is_None self); [by apply H1|].
  simpl. intros [v|e]; simpl; by apply (H2 eq_refl (Gives _)) || apply (H2 eq_refl (Throws _)).
Qed.

(** A call whose arguments are computed first. *)
Lemma always_method_args (self : pyval G) name (args : py G (list (pyval G)))
    kwargs (Q : list (event G) -> outcome (pyval G) -> Prop) :
  (is_None self = true -> Q [] (Raise AttributeError)) ->
  (is_None self = false ->
   always args (fun tr1 res =>
     match res with
     | Return a =>
         forall ans, Q (tr1 ++ [Asked (Method self name a kwargs) ans])
                       (answered ans)
     | Raise e => Q tr1 (Raise e)
     | Unfinished => Q tr1 Unfinished
     end)) ->
  always (method self name args (ret kwargs)) Q.
Proof.
  intros H1 H2. unfold method. destruct (is_None self); [by apply H1|].
  apply always_bind. eapply always_mono; [by apply H2|].
  intros tr [a|e|] H; simpl; try done.
  intros [v|e]; simpl; [apply (H (Gives v))|apply (H (Throws e))].
Qed.

End MethodFacts.

Section KeepsFacts.
Context {G : Type}.
Variable ok : event G -> bool.

Lemma always_any R (p : prog G R) : always p (fun _ _ => True).
Proof. apply runs_always. done. Qed.

Lemma keeps_done R (r : R) : keeps ok (Done (G:=G) r).
Proof. done. Qed.

Lemma keeps_bind A B (m : py G A) (f : A -> py G B) :
  keeps ok m -> (forall a, keeps ok (f a)) -> keeps ok (bind m f).
Proof.
  intros Hm Hf. apply always_bind. eapply always_mono; [apply Hm|].
  intros tr1 [a|e|] H1; simpl; try done.
  eapply always_mono; [apply Hf|]. intros tr2 r H2. simpl in *.
  by rewrite forallb_app, H1, H2.
Qed.

Lemma keeps_ask c :
  (forall a, ok (Asked c a) = true) -> keeps ok (ask c).
Proof.
  intros H a. specialize (H a). destruct a; simpl; by rewrite H.
Qed.

Lemma keeps_emit o A (m : py G A) :
  ok (Wrote o) = true -> keeps ok m -> keeps ok (emit o ;;; m)%py.
Proof.
  intros H Hm. unfold keeps. simpl. eapply always_mono; [apply Hm|].
  intros tr r Htr. simpl. by rewrite H, Htr.
Qed.

Lemma keeps_method self name args kwargs :
  (forall a kw ans, ok (Asked (Method self name a kw) ans) = true) ->
  keeps ok args -> keeps ok kwargs ->
  keeps ok (method self name args kwargs).
Proof.
  intros H Ha Hk. unfold method. destruct (is_None self); [done|].
  apply keeps_bind; [done|]. intros a. apply keeps_bind; [done|].
  intros kw. by apply keeps_ask.
Qed.

Lemma keeps_always R (p : prog G R) (Q : list (event G) -> R -> Prop) :
  keeps ok p -> (forall tr r, forallb ok tr = true -> Q tr r) -> always p Q.
Proof. intros H HQ. eapply always_mono; [apply H|]. done. Qed.

End KeepsFacts.

(** A call whose arguments and keyword arguments are computed first. *)
Lemma always_method_kwargs {G} (self : pyval G) name
    (args : py G (list (pyval G))) (kwargs : py G (list (string * pyval G)))
    (Q : list (event G) -> outcome (pyval G) -> Prop) :
  (is_None self = true -> Q [] (Raise AttributeError)) ->
  (is_None self = false ->
   always args (fun tr1 res1 =>
     match res1 with
     | Return a =>
         always kwargs (fun tr2 res2 =>
           match res2 with
           | Return kw =>
               forall ans,
                 Q (tr1 ++ tr2 ++ [Asked (Method self name a kw) ans])
                   (answered ans)
           | Raise e => Q (tr1 ++ tr2) (Raise e)
           | Unfinished => Q (tr1 ++ tr2) Unfinished
           end)
     | Raise e => Q tr1 (Raise e)
     | Unfinished => Q tr1 Unfinished
     end)) ->
  always (method self name args kwargs) Q.
Proof.
  intros H1 H2. unfold method. destruct (is_None self); [by apply H1|].
  apply always_bind. eapply always_mono; [by apply H2|].
  intros tr1 [a|e|] Ha; simpl; try done.
  apply always_bind. eapply always_mono; [apply Ha|].
  intros tr2 [kw|e|] Hk; simpl; try done.
  intros [v|e]; simpl; [apply (Hk (Gives v))|apply (Hk (Throws e))].
Qed.

Section RunInversion.
Context {G : Type}.
Implicit Types (tr : list (event G)).

Lemma runs_Done_inv {R} (r0 : R) tr r : runs (Done r0) tr r -> tr = [] /\ r = r0.
Proof. by inversion 1. Qed.

Lemma runs_Ask_inv {R} c (k : reply (pyval G) -> prog G R) tr r :
  runs (Ask c k) tr r ->
  exists a tr', tr = Asked c a :: tr' /\ runs (k a) tr' r.
Proof. inversion 1; subst; eauto. Qed.

Lemma runs_Emit_inv {R} o (k : prog G R) tr r :
  runs (Emit o k) tr r -> exists tr', tr = Wrote o :: tr' /\ runs k tr' r.
Proof. inversion 1; subst; eauto. Qed.

(** A run of [m] followed by [f]: [m] returns and [f] runs on, or [m]
    stops the whole. *)
Lemma runs_bind_inv {A B} (m : py G A) (f : A -> py G B) tr r :
  runs (bind m f) tr r ->
  (exists tr1 a tr2,
     tr = tr1 ++ tr2 /\ runs m tr1 (Return a) /\ runs (f a) tr2 r)
  \/ (exists e, runs m tr (Raise e) /\ r = Raise e)
  \/ (runs m tr Unfinished /\ r = Unfinished).
Proof.
  revert tr. induction m as [[a|e|]|c k IH|o k IH]; intros tr H; simpl in H.
  - left. exists [], a, tr. split_and!; [done|constructor|done].
  - apply runs_Done_inv in H as [-> ->]. right. left. exists e.
    split; [constructor|done].
  - apply runs_Done_inv in H as [-> ->]. right. right.
    split; [constructor|done].
  - apply runs_Ask_inv in H as (a & tr' & -> & H).
    destruct (IH a _ H) as [(tr1 & x & tr2 & -> & H1 & H2)|[(e & H1 & ->)|[H1 ->]]].
    + left. exists (Asked c a :: tr1), x, tr2.
      split_and!; [done|by constructor|done].
    + right. left. exists e. split; [by constructor|done].
    + right. right. split; [by constructor|done].
  - apply runs_Emit_inv in H as (tr' & -> & H).
    destruct (IH _ H) as [(tr1 & x & tr2 & -> & H1 & H2)|[(e & H1 & ->)|[H1 ->]]].
    + left. exists (Wrote o :: tr1), x, tr2.
      split_and!; [done|by constructor|done].
    + right. left. exists e. split; [by constructor|done].
    + right. right. split; [by constructor|done].
Qed.

Lemma runs_bind {A B} (m : py G A) (f : A -> py G B) tr1 a tr2 r :
  runs m tr1 (Return a) -> runs (f a) tr2 r -> runs (bind m f) (tr1 ++ tr2) r.
Proof.
  revert tr1. induction m as [[x|e|]|c k IH|o k IH]; intros tr1 H1 H2.
  - by apply runs_Done_inv in H1 as [-> [= ->]].
  - by apply runs_Done_inv in H1 as [_ ?].
  - by apply runs_Done_inv in H1 as [_ ?].
  - apply runs_Ask_inv in H1 as (b & tr' & -> & H1). simpl. constructor. eauto.
  - apply runs_Emit_inv in H1 as (tr' & -> & H1). simpl. constructor. eauto.
Qed.

End RunInversion.

(** * gdal_proximity.py: proofs *)

Module GdalProximityProofs.
Import GdalProximity.

Section Parsing.
Variable int : string -> option Z.

Ltac chain arg :=
  repeat match goal with
         | |- context [String.eqb arg ?s] =>
             destruct (String.eqb arg s) eqn:?; simpl in *; try done
         end.

Lemma loop_body_no_value arg next o :
  takes_value arg = false -> loop_body int arg next o = loop_body int arg None o.
Proof. unfold takes_value, loop_body. intros H. chain arg. Qed.

Lemma loop_body_missing_value arg o :
  takes_value arg = true -> loop_body int arg None o = Fails IndexError.
Proof.
  unfold loop_body. destruct (String.eqb_spec arg "--help") as [->|_]; [done|].
  unfold takes_value. intros H. chain arg.
Qed.

Lemma loop_body_took_value arg next o o' :
  loop_body int arg next o = Next true o' -> takes_value arg = true /\ is_Some next.
Proof.
  unfold takes_value, loop_body. intros H.
  chain arg; destruct next; simpl in *; try done; eauto.
  all: try (destruct arg; try done; repeat case_match; done).
Qed.

Lemma loop_body_no_value_next arg next o o' :
  loop_body int arg next o = Next false o' -> takes_value arg = false.
Proof.
  unfold takes_value, loop_body. intros H.
  chain arg; destruct next; simpl in *; try done; unfold with_int in *;
    repeat case_match; done.
Qed.

(** The loop on indices reads the arguments from [argv[i]] on. *)
Lemma parse_loop_rest fuel argv i o :
  length argv - i < fuel ->
  parse_loop int fuel argv i o = parse_rest int (drop i argv) o.
Proof.
  revert i o. induction fuel as [|fuel IH]; intros i o Hf; [lia|]. simpl.
  destruct (Nat.ltb_spec i (length argv)) as [Hi|Hi].
  - destruct (lookup_lt_is_Some_2 argv i Hi) as [arg Harg]. rewrite Harg.
    rewrite (drop_S _ _ _ Harg). simpl.
    replace (head (drop (S i) argv)) with (argv !! (i + 1)).
    2:{ rewrite head_lookup, lookup_drop. f_equal. lia. }
    destruct (loop_body int arg (argv !! (i + 1)) o) as [[] o'| |] eqn:E; try done.
    + apply loop_body_took_value in E as [_ [v Hv]].
      rewrite Nat.add_1_r in Hv. rewrite (drop_S _ _ _ Hv).
      rewrite IH by lia. by replace (i + 1 + 1) with (S (S i)) by lia.
    + rewrite IH by lia. by rewrite Nat.add_1_r.
  - by rewrite drop_ge by lia.
Qed.

Lemma loop_body_file name next o :
  is_file_name name = true ->
  loop_body int name next o =
    match src_filename o, dst_filename o with
    | None, _ => Next false (set_src_filename name o)
    | Some _, None => Next false (set_dst_filename name o)
    | Some _, Some _ => Returns [Usage_output true] (Usage_code true)
    end.
Proof.
  destruct name as [|c s]; [done|]. simpl. intros Hc.
  apply negb_true_iff in Hc. unfold loop_body. simpl. rewrite !Hc. simpl.
  reflexivity.
Qed.

Lemma parse_rest_words it rest o :
  file_names_ok it = true ->
  parse_rest int (words it ++ rest) o =
    match item_effect int it o with
    | inl o' => parse_rest int rest o'
    | inr p => p
    end.
Proof.
  intros Hok. destruct it as [k v|short v|v|v|v|v|long|name]; simpl.
  - by destruct k.
  - by destruct short.
  - done.
  - done.
  - unfold loop_body; simpl. unfold with_int. by destruct (int v).
  - unfold loop_body; simpl. unfold with_int. by destruct (int v).
  - by destruct long.
  - rewrite loop_body_file by done.
    by destruct (src_filename o), (dst_filename o).
Qed.

Lemma parse_rest_items items rest o :
  forallb file_names_ok items = true ->
  parse_rest int (command_line items ++ rest) o =
    match items_effect int items o with
    | inl o' => parse_rest int rest o'
    | inr p => p
    end.
Proof.
  revert o. induction items as [|it items IH]; intros o Hok; [done|].
  simpl in Hok. apply andb_true_iff in Hok as [Hit Hok]. simpl.
  rewrite <- app_assoc, parse_rest_words by done.
  destruct (item_effect int it o) as [o'|p]; [by apply IH|done].
Qed.

(** A turn that goes on has read the words of one item. *)
Lemma loop_body_item arg next o b o' :
  loop_body int arg next o = Next b o' ->
  exists it,
    file_names_ok it = true
    /\ words it = arg :: (if b then option_list next else [])
    /\ (b = true -> is_Some next).
Proof.
  unfold loop_body. intros H.
  repeat match type of H with
         | context [String.eqb arg ?s] =>
             destruct (String.eqb_spec arg s) as [->|?]; simpl in H
         end;
    try (destruct next as [v|]; simpl in H; [|done]);
    unfold with_int in H; repeat case_match; simplify_eq.
  all: first
    [ by exists (Format false v); eauto
    | by exists (Format true v); eauto
    | by exists (CreationOption v); eauto
    | by exists (OutputType v); eauto
    | by exists (Algorithm MAXDIST v); eauto
    | by exists (Algorithm VALUES v); eauto
    | by exists (Algorithm DISTUNITS v); eauto
    | by exists (Algorithm NODATA v); eauto
    | by exists (Algorithm USE_INPUT_NODATA v); eauto
    | by exists (Algorithm FIXED_BUF_VAL v); eauto
    | by exists (SrcBand v); eauto
    | by exists (DstBand v); eauto
    | by exists (Quiet false)
    | by exists (Quiet true)
    | idtac ].
  all: match goal with
       | |- exists it, _ /\ words it = ?a :: _ /\ _ =>
           exists (File a); simpl; split_and!; [|done|done]
       end.
  all: match goal with
       | H : Ascii.eqb _ _ = false |- _ => by rewrite H
       end.
Qed.

(** Every command line that the loop reads to its end is a sequence of
    items. *)
Lemma parse_rest_parsed n args o o' :
  length args <= n ->
  parse_rest int args o = Parsed o' ->
  exists items,
    args = command_line items /\ forallb file_names_ok items = true.
Proof.
  revert args o. induction n as [|n IH]; intros [|arg rest] o Hn H;
    try (by exists []); simpl in Hn; [lia|].
  simpl in H.
  destruct (loop_body int arg (head rest) o) as [b o1| |] eqn:E; [|done..].
  destruct (loop_body_item E) as (it & Hok & Hwords & Hnext).
  destruct b.
  - destruct (Hnext eq_refl) as [v Hv]. destruct rest as [|v' rest]; [done|].
    simpl in Hv. injection Hv as ->. simpl in Hwords.
    destruct (IH rest o1) as (items & -> & Hitems); [simpl in Hn; lia|done|].
    exists (it :: items). simpl. by rewrite Hwords, Hok.
  - destruct (IH rest o1) as (items & -> & Hitems); [lia|done|].
    exists (it :: items). simpl. by rewrite Hwords, Hok.
Qed.

Lemma items_effect_alg items o o' :
  items_effect int items o = inl o' ->
  alg_options o' = alg_options o ++ alg_strings items.
Proof.
  revert o. induction items as [|it items IH]; intros o H; simpl in *.
  - injection H as <-. by rewrite app_nil_r.
  - destruct (item_effect int it o) as [o1|] eqn:E; [|done].
    rewrite (IH _ H). destruct it; simpl in E; repeat case_match;
      simplify_eq; simpl; try done.
    by rewrite <- app_assoc.
Qed.

Lemma items_effect_quiet items o o' :
  items_effect int items o = inl o' ->
  quiet o' = quiet o || quiet_given items.
Proof.
  revert o. induction items as [|it items IH]; intros o H; simpl in *.
  - injection H as <-. by rewrite orb_false_r.
  - destruct (item_effect int it o) as [o1|] eqn:E; [|done].
    rewrite (IH _ H). destruct it; simpl in E; repeat case_match;
      simplify_eq; simpl; try done.
    by rewrite orb_true_r.
Qed.

Lemma items_effect_files items o :
  (src_filename o = None -> dst_filename o = None) ->
  forallb (bands_ok int) items = true ->
  length (named o ++ files items) <= 2 ->
  exists o', items_effect int items o = inl o'
    /\ (src_filename o' = None -> dst_filename o' = None)
    /\ named o' = named o ++ files items.
Proof.
  revert o. induction items as [|it items IH]; intros o Ho Hb Hlen; simpl in *.
  - exists o. by rewrite app_nil_r.
  - apply andb_true_iff in Hb as [Hit Hb].
    unfold named in *.
    destruct it as [k v|short v|v|v|v|v|long|name]; simpl in *;
      try (by apply (IH (add_alg_option _ o)) || by apply (IH (set_driver_name _ o))
           || by apply (IH (add_creation_option _ o))
           || by apply (IH (set_creation_type _ o))
           || by apply (IH (set_quiet o))).
    + apply bool_decide_eq_true in Hit as [n ->].
      by apply (IH (set_src_band_n n o)).
    + apply bool_decide_eq_true in Hit as [n ->].
      by apply (IH (set_dst_band_n n o)).
    + destruct (src_filename o) as [s|] eqn:Es.
      * destruct (dst_filename o) as [d|] eqn:Ed; simpl in Hlen; [lia|].
        destruct (IH (set_dst_filename name o)) as (o' & H1 & H2 & H3).
        { simpl. by rewrite Es. } { done. }
        { simpl. rewrite Es. simpl in *. lia. }
        exists o'. split_and!; try done. rewrite H3. simpl. by rewrite Es.
      * destruct (IH (set_src_filename name o)) as (o' & H1 & H2 & H3).
        { done. } { done. } { simpl. rewrite (Ho eq_refl). simpl in *. lia. }
        exists o'. split_and!; try done. rewrite H3. simpl.
        by rewrite (Ho eq_refl).
Qed.

End Parsing.
(** A command line reads as items in one way only. *)
Lemma words_inj it1 it2 rest1 rest2 :
  file_names_ok it1 = true -> file_names_ok it2 = true ->
  words it1 ++ rest1 = words it2 ++ rest2 ->
  it1 = it2 /\ rest1 = rest2.
Proof.
  destruct it1 as [[]| []| | | | |[]|n1], it2 as [[]|[]| | | | |[]|n2];
    simpl; intros H1 H2 H; simplify_eq; done.
Qed.

Lemma command_line_inj items1 items2 :
  forallb file_names_ok items1 = true ->
  forallb file_names_ok items2 = true ->
  command_line items1 = command_line items2 ->
  items1 = items2.
Proof.
  revert items2.
  induction items1 as [|it1 items1 IH]; intros [|it2 items2] H1 H2 H;
    simpl in *; [done|by destruct it2 as [| | | | | |[]|]
                |by destruct it1 as [| | | | | |[]|]|].
  apply andb_true_iff in H1 as [Hit1 H1]. apply andb_true_iff in H2 as [Hit2 H2].
  destruct (words_inj Hit1 Hit2 H) as [-> Hrest]. f_equal. by apply IH.
Qed.

(** Steps of a proof about a program: sequencing, and a call with its
    answer. *)
Ltac seq := first [apply always_bind | apply always_try_except].
Tactic Notation "call" "as" simple_intropattern(a) :=
  first [apply always_method | apply always_attr];
  [ intros ?; first [discriminate | congruence | idtac]
  | intros ? a; cbn [answered] ].
Tactic Notation "call_with_args" :=
  apply always_method_args;
  [intros ?; first [discriminate | congruence | idtac]|intros ?].

Lemma open_existing_always dst_filename dst_band_n driver_name :
  always (open_existing dst_filename dst_band_n driver_name)
    (existing_post dst_filename dst_band_n).
Proof.
  unfold open_existing, nothing.
  seq. seq. call as [d|e].
  - destruct (is_None d) eqn:Hd.
    + simpl. split_and!; [done..|]. left; eauto.
    + seq. seq. call as [dst_ds|e].
      * seq. call as [dstband|e].
        -- simpl. split_and!; [done..|]. left; eauto.
        -- simpl. split_and!; [done..|]. right. by exists d, dst_ds, dstband.
        -- simpl. split_and!; [done..|]. left; eauto.
      * simpl. split_and!; [done..|]. left; eauto.
  - simpl. split_and!; [done..|]. left; eauto.
Qed.

Ltac stopped := hnf; simpl; split; [reflexivity|exact I].

Lemma create_dataset_always src_ds dst_filename driver_name creation_type
    creation_options :
  is_None src_ds = false ->
  always (create_dataset src_ds dst_filename driver_name creation_type
            (or_empty creation_options))
    (dataset_post src_ds dst_filename creation_type creation_options).
Proof.
  intros Hsrc. unfold create_dataset, nothing.
  seq. call as [drv|e]; [|stopped].
  seq. call_with_args; [stopped|].
  seq. call as [xsize|e]; [|stopped]. seq. call as [ysize|e]; [|stopped].
  seq. call as [dtype|e]; [|stopped].
  simpl. intros [dst_ds|e]; [|stopped]. cbn [answered].
  seq. call_with_args; [stopped|].
  seq. call as [gt|e]; [|stopped]. simpl. intros [a1|e]; [|stopped].
  cbn [answered].
  seq. call_with_args.
  seq. call as [wkt|e]; [|stopped]. simpl. intros [a2|e]; [|stopped].
  cbn [answered].
  seq. call as [dstband|e]; [|stopped]. simpl. split; [reflexivity|].
  by exists (Creation driver_name drv xsize ysize dtype dst_ds gt a1 wkt a2
               dstband).
Qed.

Lemma run_created_eq src_filename src_band_n dst_filename dst_band_n
    creation_type creation_options alg_options quiet src_ds srcband attempt c a
    tr r :
  is_None src_ds = false ->
  never_calls "ComputeProximity" attempt = true ->
  never_calls "Create" attempt = true ->
  tr = open_source src_filename (Gives src_ds)
       :: source_band src_band_n src_ds srcband
       :: attempt
       ++ creation_calls dst_filename creation_type creation_options src_ds c
       ++ [compute alg_options quiet srcband (c_dstband c) a] ->
  r = after_compute a ->
  proximity_run src_filename src_band_n dst_filename dst_band_n creation_type
    creation_options alg_options quiet tr r.
Proof. intros ? ? ? -> ->. by apply run_created. Qed.

Ltac stop_run :=
  simpl; apply run_stopped;
  [ first [discriminate | by intros [= ->]]
  | simpl; rewrite ?never_calls_app; simpl;
    repeat match goal with
           | H : never_calls _ _ = true |- _ => rewrite H; clear H
           end; done ].

(** Every run of [gdal_proximity] goes one of the four ways. *)
Lemma gdal_proximity_always src_filename src_band_n dst_filename dst_band_n
    driver_name creation_type creation_options alg_options quiet :
  always (gdal_proximity src_filename src_band_n dst_filename dst_band_n
            driver_name creation_type creation_options alg_options quiet)
    (proximity_run src_filename src_band_n dst_filename dst_band_n
       creation_type creation_options alg_options quiet).
Proof.
  unfold gdal_proximity, nothing.
  seq. call as [src_ds|e]; [|stop_run].
  destruct (is_None src_ds) eqn:Hsrc.
  { apply is_None_true in Hsrc as ->. simpl. apply run_unopened. }
  seq. call as [srcband|e]; [|stop_run].
  seq. eapply always_mono; [apply open_existing_always|].
  intros tr1 res1 (Hc1 & Hcr1 & Hres).
  destruct Hres as [[d ->]|(d & dst_ds & dstband & Hd & Hdst & -> & ->)].
  - seq. unfold create_output. seq.
    assert (Hcreate : forall lookup name,
      never_calls "ComputeProximity" lookup = true ->
      never_calls "Create" lookup = true ->
      always
        (create_dataset src_ds dst_filename name creation_type
           (or_empty creation_options))
        (fun tr2 r =>
           match r with
           | Return a =>
               always
                 (method gdal "ComputeProximity"
                    (ret [srcband; a.2; VList (or_empty alg_options)])
                    (ret [("callback",
                           if quiet then VNone else TermProgress_nocb)]) ;;;
                  ret VNone)%py
                 (fun tr3 r3 =>
                    proximity_run src_filename src_band_n dst_filename
                      dst_band_n creation_type creation_options alg_options
                      quiet
                      ([Asked (Method gdal "Open" [opt_str src_filename] [])
                          (Gives src_ds)]
                       ++ [Asked (Method src_ds "GetRasterBand"
                                    [VInt src_band_n] []) (Gives srcband)]
                       ++ tr1 ++ (lookup ++ tr2) ++ tr3) r3)
           | Raise e =>
               proximity_run src_filename src_band_n dst_filename dst_band_n
                 creation_type creation_options alg_options quiet
                 ([Asked (Method gdal "Open" [opt_str src_filename] [])
                     (Gives src_ds)]
                  ++ [Asked (Method src_ds "GetRasterBand"
                               [VInt src_band_n] []) (Gives srcband)]
                  ++ tr1 ++ lookup ++ tr2) (Raise e)
           | Unfinished =>
               proximity_run src_filename src_band_n dst_filename dst_band_n
                 creation_type creation_options alg_options quiet
                 ([Asked (Method gdal "Open" [opt_str src_filename] [])
                     (Gives src_ds)]
                  ++ [Asked (Method src_ds "GetRasterBand"
                               [VInt src_band_n] []) (Gives srcband)]
                  ++ tr1 ++ lookup ++ tr2) Unfinished
           end)).
    { intros lookup name Hl1 Hl2.
      eapply always_mono; [by apply create_dataset_always|].
      intros tr2 [[dst_ds dstband]|e|] [Hc2 Hres]; [|stop_run|done].
      destruct Hres as (c & -> & <-).
      seq. call as [a|e].
      - eapply (@run_created_eq _ _ _ _ _ _ _ _ src_ds srcband (tr1 ++ lookup)
                  c (Gives a)); try done.
        + by rewrite never_calls_app, Hc1, Hl1.
        + by rewrite never_calls_app, Hcr1, Hl2.
        + simpl. by rewrite <- !app_assoc.
      - eapply (@run_created_eq _ _ _ _ _ _ _ _ src_ds srcband (tr1 ++ lookup)
                  c (Throws e)); try done.
        + by rewrite never_calls_app, Hc1, Hl1.
        + by rewrite never_calls_app, Hcr1, Hl2.
        + simpl. by rewrite <- !app_assoc. }
    unfold output_driver. destruct (is_None d) eqn:Hd.
    + call as [name|e]; [|stop_run].
      by apply (Hcreate [Asked (Method util "GetOutputDriverFor"
                                  [opt_str dst_filename] []) (Gives name)]).
    + simpl. by apply (Hcreate []).
  - seq. simpl. intros [a|e]; simpl.
    + by apply (@run_existing _ _ _ _ _ _ _ _ src_ds srcband d dst_ds dstband
                  (Gives a)).
    + by apply (@run_existing _ _ _ _ _ _ _ _ src_ds srcband d dst_ds dstband
                  (Throws e)).
Qed.

Section MainFacts.
Variable int : string -> option Z.

Lemma parse_rest_finishes n args o :
  length args <= n -> parse_rest int args o <> OutOfFuel.
Proof.
  revert args o. induction n as [|n IH]; intros [|arg rest] o Hn; simpl in *;
    try done; try lia.
  destruct (loop_body int arg (head rest) o) as [[] o'| |]; try done.
  - destruct rest as [|v rest']; [done|]. apply IH. simpl in *. lia.
  - apply IH. lia.
Qed.

Lemma always_emit_all out (v : value) (Q : list (event Empty_set) -> _ -> Prop) :
  Q (map Wrote out) (Return v) -> always (emit_all out ;;; ret v)%py Q.
Proof.
  revert Q. induction out as [|o out IH]; intros Q H; simpl; [done|].
  by apply IH.
Qed.

(** Every run of [main] is as [main_run] says. *)
Lemma main_always argv : always (main int argv) (main_run int argv).
Proof.
  unfold main, nothing. seq. call as [a|e].
  2:{ simpl. by exists (Throws e), []. }
  destruct a as [|n|s|cmd|h|m|m x|[]];
    try (simpl; by eexists (Gives _), []).
  rewrite parse_loop_rest by (simpl; lia).
  destruct (parse_rest int (drop 1 cmd) initial) as [o|out code|e|] eqn:E.
  - destruct (src_filename o) as [src|] eqn:Hsrc.
    + destruct (dst_filename o) as [dst|] eqn:Hdst.
      * eapply always_mono; [apply gdal_proximity_always|].
        intros tr' r' Hrun. exists (Gives (VList cmd)), tr'.
        split; [done|]. unfold after_parse, after_loop. by rewrite E, Hsrc, Hdst.
      * simpl. exists (Gives (VList cmd)), 
          [Wrote (Stderr ("Missing <dstfile>" +:+ newline));
           Wrote (Usage_output true)].
        split; [done|]. unfold after_parse, after_loop. by rewrite E, Hsrc, Hdst.
    + simpl. exists (Gives (VList cmd)), 
        [Wrote (Stderr ("Missing <srcfile>" +:+ newline));
         Wrote (Usage_output true)].
      split; [done|]. unfold after_parse, after_loop. by rewrite E, Hsrc.
  - apply always_emit_all. exists (Gives (VList cmd)), (map Wrote out).
    split; [done|]. unfold after_parse, after_loop. by rewrite E.
  - simpl. exists (Gives (VList cmd)), []. split; [done|].
    unfold after_parse, after_loop. by rewrite E.
  - by apply parse_rest_finishes with (n := length (drop 1 cmd)) in E.
Qed.

Lemma main_runs argv tr r : runs (main int argv) tr r -> main_run int argv tr r.
Proof. apply always_runs, main_always. Qed.

End MainFacts.

Lemma gdal_proximity_runs src_filename src_band_n dst_filename dst_band_n
    driver_name creation_type creation_options alg_options quiet tr r :
  runs (gdal_proximity src_filename src_band_n dst_filename dst_band_n
          driver_name creation_type creation_options alg_options quiet) tr r ->
  proximity_run src_filename src_band_n dst_filename dst_band_n creation_type
    creation_options alg_options quiet tr r.
Proof. apply always_runs, gdal_proximity_always. Qed.

(** In a run of [gdal_proximity], a call of [ComputeProximity] is the last
    event, with the bands, the algorithm options and the callback. *)
Lemma proximity_run_compute src_filename src_band_n dst_filename dst_band_n
    creation_type creation_options alg_options quiet tr r e :
  proximity_run src_filename src_band_n dst_filename dst_band_n creation_type
    creation_options alg_options quiet tr r ->
  e ∈ tr -> is_compute e = true ->
  exists srcband dstband a,
    e = compute alg_options quiet srcband dstband a /\ r = after_compute a.
Proof.
  intros [|a tr' err Ha Hn|src_ds srcband d dst_ds dstband a Hs Hd Hdst
          |src_ds srcband attempt c a Hs Hn1 Hn2] Hin Hc.
  - repeat (apply elem_of_cons in Hin as [->|Hin]; [done|]).
    by apply elem_of_nil in Hin.
  - apply elem_of_cons in Hin as [->|Hin]; [done|].
    apply (never_calls_elem Hn) in Hin. unfold is_compute in Hc. congruence.
  - repeat (apply elem_of_cons in Hin as [->|Hin]; [by eauto|]).
    by apply elem_of_nil in Hin.
  - do 2 (apply elem_of_cons in Hin as [->|Hin]; [done|]).
    apply elem_of_app in Hin as [Hin|Hin].
    { apply (never_calls_elem Hn1) in Hin. unfold is_compute in Hc. congruence. }
    apply elem_of_app in Hin as [Hin|Hin].
    { unfold creation_calls in Hin.
      repeat (apply elem_of_cons in Hin as [->|Hin]; [done|]).
      by apply elem_of_nil in Hin. }
    apply elem_of_cons in Hin as [->|Hin]; [by eauto|].
    by apply elem_of_nil in Hin.
Qed.

Section Claims.
Variable int : string -> option Z.

Lemma or_empty_Some l : or_empty (Some l) = l.
Proof. by destruct l. Qed.

Lemma items_effect_stop items o p :
  items_effect int items o = inr p ->
  (exists out code, p = Exits out code) \/ (exists e, p = Crashes e).
Proof.
  revert o. induction items as [|it items IH]; intros o H; simpl in H; [done|].
  destruct (item_effect int it o) as [o'|p'] eqn:E; [by eapply IH|].
  injection H as <-.
  destruct it; simpl in E; repeat case_match; simplify_eq; eauto.
Qed.

(** What [main] does on a command line that begins with [items]. *)
Lemma main_on_args argv tr r cmd items rest :
  runs (main int argv) tr r ->
  processed tr = Some cmd ->
  drop 1 cmd = command_line items ++ rest ->
  forallb file_names_ok items = true ->
  exists tr',
    tr = Asked (Method gdal "GeneralCmdLineProcessor" [VList argv] [])
           (Gives (VList cmd)) :: tr'
    /\ after_loop
         match items_effect int items initial with
         | inl o => parse_rest int rest o
         | inr p => p
         end tr' r.
Proof.
  intros Hrun Hcmd Hdrop Hok.
  apply main_runs in Hrun as (a & tr' & -> & Hrun).
  simpl in Hcmd. destruct a as [[| | |cmd'| | | |]|]; try done.
  injection Hcmd as ->. exists tr'. split; [done|].
  unfold after_parse in Hrun. rewrite Hdrop in Hrun.
  by rewrite parse_rest_items in Hrun.
Qed.

Lemma main_on_items argv tr r cmd0 items rest :
  runs (main int argv) tr r ->
  processed tr = Some (cmd0 :: command_line items ++ rest) ->
  forallb file_names_ok items = true ->
  exists tr',
    tr = Asked (Method gdal "GeneralCmdLineProcessor" [VList argv] [])
           (Gives (VList (cmd0 :: command_line items ++ rest))) :: tr'
    /\ after_loop
         match items_effect int items initial with
         | inl o => parse_rest int rest o
         | inr p => p
         end tr' r.
Proof. intros Hrun Hcmd Hok. by eapply main_on_args. Qed.

(** A run of [main] that calls [ComputeProximity] has read its command
    line to the end, as a sequence of items. *)
Lemma main_compute_items argv tr r e :
  runs (main int argv) tr r ->
  e ∈ tr -> is_compute e = true ->
  exists cmd items,
    processed tr = Some cmd
    /\ drop 1 cmd = command_line items
    /\ forallb file_names_ok items = true.
Proof.
  intros Hrun Hin Hc. apply main_runs in Hrun as (a & tr' & -> & Hrun).
  apply elem_of_cons in Hin as [->|Hin]; [done|].
  destruct a as [[| | |cmd| | | |]|];
    try (destruct Hrun as [-> _]; by apply elem_of_nil in Hin).
  exists cmd. unfold after_parse in Hrun.
  destruct (parse_rest int (drop 1 cmd) initial) as [o|out code|err|] eqn:E;
    simpl in Hrun.
  - destruct (parse_rest_parsed (Nat.le_refl _) E) as (items & Hitems & Hok).
    by exists items.
  - destruct Hrun as [-> _]. apply list_elem_of_fmap in Hin as (x & -> & _).
    done.
  - destruct Hrun as [-> _]. by apply elem_of_nil in Hin.
  - done.
Qed.

(** The call of [ComputeProximity] in a run of [main]: it is the last
    thing the run does, with the options and the callback of the items. *)
Lemma main_compute_event argv tr r cmd items e :
  runs (main int argv) tr r ->
  processed tr = Some cmd ->
  drop 1 cmd = command_line items ->
  forallb file_names_ok items = true ->
  e ∈ tr -> is_compute e = true ->
  exists srcband dstband a,
    e = compute (Some (alg_strings items)) (quiet_given items) srcband dstband a
    /\ r = after_compute a.
Proof.
  intros Hrun Hcmd Hdrop Hok Hin Hc.
  rewrite <- (app_nil_r (command_line items)) in Hdrop.
  destruct (main_on_args Hrun Hcmd Hdrop Hok) as (tr' & -> & Hafter).
  apply elem_of_cons in Hin as [->|Hin]; [done|].
  destruct (items_effect int items initial) as [o|p] eqn:E.
  - simpl in Hafter.
    destruct (src_filename o) as [src|] eqn:Hsrc.
    + destruct (dst_filename o) as [dst|] eqn:Hdst.
      * destruct (proximity_run_compute Hafter Hin Hc)
          as (srcband & dstband & a & -> & ->).
        exists srcband, dstband, a. split; [|done].
        by rewrite (items_effect_alg E), (items_effect_quiet E).
      * destruct Hafter as [-> _].
        repeat (apply elem_of_cons in Hin as [->|Hin]; [done|]).
        by apply elem_of_nil in Hin.
    + destruct Hafter as [-> _].
      repeat (apply elem_of_cons in Hin as [->|Hin]; [done|]).
      by apply elem_of_nil in Hin.
  - destruct (items_effect_stop E) as [(out & code & ->)|(err & ->)];
      simpl in Hafter; destruct Hafter as [-> _].
    + apply list_elem_of_fmap in Hin as (o & -> & _). done.
    + by apply elem_of_nil in Hin.
Qed.

(** C2: in every run of [main] that calls [ComputeProximity], the command
    line is a sequence of items, and each algorithm flag among them, with
    its value [v], gives one string [NAME=v] of the list passed to
    [ComputeProximity], in the order of the flags and with [v] as it was
    written. *)
Theorem algorithm_flags_translated argv tr r e :
  runs (main int argv) tr r ->
  e ∈ tr -> is_compute e = true ->
  exists cmd items srcband dstband kwargs a,
    processed tr = Some cmd
    /\ drop 1 cmd = command_line items
    /\ forallb file_names_ok items = true
    /\ e = Asked (Method gdal "ComputeProximity"
                    [srcband; dstband; VList (alg_strings items)] kwargs) a.
Proof.
  intros Hrun Hin Hc.
  destruct (main_compute_items Hrun Hin Hc) as (cmd & items & Hcmd & Hdrop & Hok).
  destruct (main_compute_event Hrun Hcmd Hdrop Hok Hin Hc)
    as (srcband & dstband & a & -> & _).
  exists cmd, items, srcband, dstband. eexists _, a. unfold compute.
  by rewrite or_empty_Some.
Qed.

(** C7: in every run of [main] that calls [ComputeProximity], the call
    has [callback=None] when -q or -quiet is among the items of the
    command line, and [callback=gdal.TermProgress_nocb] otherwise. *)
Theorem quiet_selects_callback argv tr r e :
  runs (main int argv) tr r ->
  e ∈ tr -> is_compute e = true ->
  exists cmd items args a,
    processed tr = Some cmd
    /\ drop 1 cmd = command_line items
    /\ forallb file_names_ok items = true
    /\ e = Asked (Method gdal "ComputeProximity" args
                    [("callback",
                      if quiet_given items then VNone else TermProgress_nocb)])
             a.
Proof.
  intros Hrun Hin Hc.
  destruct (main_compute_items Hrun Hin Hc) as (cmd & items & Hcmd & Hdrop & Hok).
  destruct (main_compute_event Hrun Hcmd Hdrop Hok Hin Hc)
    as (srcband & dstband & a & -> & _).
  by eexists cmd, items, _, a.
Qed.

End Claims.

Lemma sample_run_runs :
  runs (main decimal sample_command) sample_run.1 sample_run.2.
Proof. by apply (@exec_runs _ _ _ (creating_library sample_command)). Qed.

Lemma sample_compute_in : sample_compute ∈ sample_run.1.
Proof. by apply (list_elem_of_lookup_2 _ 15). Qed.

Lemma algorithm_flags_translated_witness :
  exists cmd items srcband dstband kwargs a,
    processed sample_run.1 = Some cmd
    /\ drop 1 cmd = command_line items
    /\ forallb file_names_ok items = true
    /\ sample_compute
       = Asked (Method gdal "ComputeProximity"
                  [srcband; dstband; VList (alg_strings items)] kwargs) a.
Proof.
  apply (@algorithm_flags_translated decimal sample_command sample_run.1
           sample_run.2 sample_compute).
  - apply sample_run_runs.
  - apply sample_compute_in.
  - reflexivity.
Defined.

Lemma quiet_selects_callback_witness :
  exists cmd items args a,
    processed sample_run.1 = Some cmd
    /\ drop 1 cmd = command_line items
    /\ forallb file_names_ok items = true
    /\ sample_compute
       = Asked (Method gdal "ComputeProximity" args
                  [("callback",
                    if quiet_given items then VNone else TermProgress_nocb)])
           a.
Proof.
  apply (@quiet_selects_callback decimal sample_command sample_run.1
           sample_run.2 sample_compute).
  - apply sample_run_runs.
  - apply sample_compute_in.
  - reflexivity.
Defined.

(** On the sample command line: the strings of -values and -maxdist, in
    that order, and no progress callback. *)
Example sample_compute_call :
  exists srcband dstband a,
    sample_compute
    = Asked (Method gdal "ComputeProximity"
               [srcband; dstband; VList ["VALUES=3,4"; "MAXDIST=7"]]
               [("callback", VNone)]) a.
Proof. by eexists _, _, _. Qed.

(** C3: in a run where the destination is not opened as an existing
    dataset and [ComputeProximity] is called, the run has opened the
    source, has called [Create] once, with the source's [RasterXSize] and
    [RasterYSize], one band and the requested type, and has set the
    source's geotransform and projection on the new dataset before the
    call of [ComputeProximity] on its band 1. *)
Theorem destination_created_like_source src_filename src_band_n dst_filename
    dst_band_n driver_name creation_type creation_options alg_options quiet
    tr r e :
  runs (gdal_proximity src_filename src_band_n dst_filename dst_band_n
          driver_name creation_type creation_options alg_options quiet) tr r ->
  ~ opened_existing dst_filename dst_band_n tr ->
  e ∈ tr -> is_compute e = true ->
  exists src_ds srcband attempt c a,
    never_calls "Create" attempt = true /\
    e = compute alg_options quiet srcband (c_dstband c) a /\
    tr = open_source src_filename (Gives src_ds)
         :: source_band src_band_n src_ds srcband
         :: attempt
         ++ creation_calls dst_filename creation_type creation_options src_ds c
         ++ [e].
Proof.
  intros Hrun Hnot Hin Hc. apply gdal_proximity_runs in Hrun.
  destruct Hrun as [|a tr' err Ha Hn|src_ds srcband d dst_ds dstband a Hs Hd Hdst
                    |src_ds srcband attempt c a Hs Hn1 Hn2].
  - repeat (apply elem_of_cons in Hin as [->|Hin]; [done|]).
    by apply elem_of_nil in Hin.
  - apply elem_of_cons in Hin as [->|Hin]; [done|].
    apply (never_calls_elem Hn) in Hin. unfold is_compute in Hc. congruence.
  - destruct Hnot.
    exists [open_source src_filename (Gives src_ds);
            source_band src_band_n src_ds srcband;
            Asked (Method gdal "IdentifyDriver" [opt_str dst_filename] [])
              (Gives d)], dst_ds, dstband,
           [compute alg_options quiet srcband dstband a].
    by split.
  - exists src_ds, srcband, attempt, c, a. split; [done|].
    do 2 (apply elem_of_cons in Hin as [->|Hin]; [done|]).
    apply elem_of_app in Hin as [Hin|Hin].
    { apply (never_calls_elem Hn1) in Hin. unfold is_compute in Hc. congruence. }
    apply elem_of_app in Hin as [Hin|Hin].
    { unfold creation_calls in Hin.
      repeat (apply elem_of_cons in Hin as [->|Hin]; [done|]).
      by apply elem_of_nil in Hin. }
    apply elem_of_cons in Hin as [->|Hin]; [done|].
    by apply elem_of_nil in Hin.
Qed.

Lemma sample_not_opened :
  ~ opened_existing (Some "out.tif") 1 sample_proximity_run.1.
Proof.
  intros (pre & dst_ds & dstband & post & _ & Heq).
  assert (Hin : Asked (Method gdal "Open" [opt_str (Some "out.tif"); GA_Update] [])
                  (Gives dst_ds) ∈ sample_proximity_run.1).
  { rewrite Heq. apply elem_of_app. right. left. }
  clear Heq. vm_compute in Hin.
  repeat (apply elem_of_cons in Hin as [Hin|Hin]; [discriminate Hin|]).
  by apply elem_of_nil in Hin.
Qed.

Lemma destination_created_like_source_witness :
  exists src_ds srcband attempt c a,
    never_calls "Create" attempt = true /\
    sample_proximity_compute
      = compute (Some ["VALUES=3,4"]) false srcband (c_dstband c) a /\
    sample_proximity_run.1
      = open_source (Some "in.tif") (Gives src_ds)
        :: source_band 1 src_ds srcband
        :: attempt
        ++ creation_calls (Some "out.tif") "Float32" (Some ["COMPRESS=LZW"])
             src_ds c
        ++ [sample_proximity_compute].
Proof.
  apply (@destination_created_like_source (Some "in.tif") 1 (Some "out.tif") 1
           VNone "Float32" (Some ["COMPRESS=LZW"]) (Some ["VALUES=3,4"]) false
           sample_proximity_run.1 sample_proximity_run.2).
  - by apply (@exec_runs _ _ _ (drop 1 (creating_library []))).
  - apply sample_not_opened.
  - by apply (list_elem_of_lookup_2 _ 14).
  - reflexivity.
Defined.

Section ExitCodes.
Variable int : string -> option Z.

Lemma loop_body_unrecognized arg next o :
  unrecognized arg = true ->
  loop_body int arg next o =
    Returns [Stderr ("Unrecognized option : " +:+ arg +:+ newline);
             Usage_output true] (Usage_code true).
Proof.
  destruct arg as [|c s]; [done|]. cbv beta iota delta [unrecognized].
  remember (String c s) as arg eqn:E.
  rewrite !andb_true_iff, !negb_true_iff. intros [[[[Hc Hv] Hh] Hq] Hqq].
  unfold takes_value in Hv. unfold loop_body. rewrite Hh, Hq, Hqq. simpl.
  repeat match goal with
         | |- context [String.eqb arg ?x] =>
             destruct (String.eqb arg x) eqn:?; simpl in Hv; try done
         end.
  by rewrite E, Hc.
Qed.

Lemma loop_body_help next o :
  loop_body int "--help" next o
  = Returns [Usage_output false] (Usage_code false).
Proof. done. Qed.

(** The options after well-formed items hold their file names. *)
Lemma well_formed_effect items :
  well_formed int items ->
  exists o, items_effect int items initial = inl o /\ named o = files items.
Proof.
  intros (_ & Hb & Hlen).
  destruct (@items_effect_files int items initial) as (o & Ho & _ & Hnamed);
    try done.
  by exists o.
Qed.

(** C10, as amended: when the argument loop reaches the final argument of
    the command line as an option (well-formed items before it) and that
    argument is an option taking a value, [main] raises IndexError. *)
Theorem missing_value_raises argv tr r cmd0 items flag :
  runs (main int argv) tr r ->
  processed tr = Some (cmd0 :: command_line items ++ [flag]) ->
  well_formed int items ->
  takes_value flag = true ->
  r = Raise IndexError.
Proof.
  intros Hrun Hcmd Hwf Hflag.
  destruct (main_on_items Hrun Hcmd (proj1 Hwf)) as (tr' & _ & Hafter).
  destruct (well_formed_effect Hwf) as (o & Ho & _). rewrite Ho in Hafter.
  simpl in Hafter. rewrite loop_body_missing_value in Hafter by done.
  by destruct Hafter.
Qed.

(** C1, as amended: after well-formed items, [main] returns 2 at an
    unrecognized option, at a third file name, and at the end of the
    command line with fewer than two file names; it returns 0 at --help;
    with two file names and nothing else it returns 1 when [gdal.Open]
    gives no source dataset, and [None], the exit status 0 of the
    script, when [ComputeProximity] has returned. *)
Theorem main_exit_codes argv tr r cmd0 items rest v :
  runs (main int argv) tr r ->
  processed tr = Some (cmd0 :: command_line items ++ rest) ->
  well_formed int items ->
  expected items rest = Some v ->
  match v with
  | Code n => r = Return (VInt n)
  | Proceeds src dst =>
      (tr !! 1%nat = Some (Asked (Method gdal "Open" [VStr src] [])
                             (Gives VNone)) ->
       r = Return (VInt 1))
      /\ (forall e x, e ∈ tr -> is_compute e = true ->
                      answer e = Some (Gives x) ->
                      r = Return VNone /\ exit_status r = Some 0%Z)
  end.
Proof.
  intros Hrun Hcmd Hwf Hv.
  destruct (main_on_items Hrun Hcmd (proj1 Hwf)) as (tr' & -> & Hafter).
  destruct (well_formed_effect Hwf) as (o & Ho & Hnamed). rewrite Ho in Hafter.
  destruct Hwf as (_ & _ & Hlen). unfold expected in Hv.
  destruct rest as [|arg more].
  - simpl in Hafter. unfold named in Hnamed.
    destruct (src_filename o) as [src|] eqn:Hsrc.
    + destruct (dst_filename o) as [dst|] eqn:Hdst; rewrite <- Hnamed in Hv;
        injection Hv as <-; [|by destruct Hafter].
      split.
      * simpl. intros Hopen.
        destruct Hafter as [|a t err Ha _|? ? ? ? ? ? Hs|? ? ? ? ? Hs];
          simpl in Hopen; try done.
        -- injection Hopen as ->. done.
        -- injection Hopen as ->. done.
        -- injection Hopen as ->. done.
      * intros e x Hin Hc Hans.
        apply elem_of_cons in Hin as [->|Hin]; [done|].
        destruct (proximity_run_compute Hafter Hin Hc)
          as (srcband & dstband & a & -> & ->).
        simpl in Hans. injection Hans as ->. done.
    + rewrite <- Hnamed in Hv. injection Hv as <-. by destruct Hafter.
  - simpl in Hafter.
    destruct (String.eqb_spec arg "--help") as [->|_].
    { injection Hv as <-. by destruct Hafter. }
    destruct (unrecognized arg) eqn:Hun.
    { injection Hv as <-. rewrite loop_body_unrecognized in Hafter by done.
      by destruct Hafter. }
    destruct (is_file_name arg) eqn:Hfile; [|done].
    destruct (Nat.eqb_spec (length (files items)) 2) as [H2|]; [|done].
    injection Hv as <-. rewrite loop_body_file in Hafter by done.
    unfold named in Hnamed.
    destruct (src_filename o), (dst_filename o); rewrite <- Hnamed in H2;
      try done.
    by destruct Hafter.
Qed.

End ExitCodes.

Lemma missing_value_raises_witness :
  result_on ["gdal_proximity"; "in.tif"; "out.tif"; "-maxdist"]
  = Some (Raise IndexError).
Proof.
  pose (cmd := ["gdal_proximity"; "in.tif"; "out.tif"; "-maxdist"]).
  pose (run := default ([], Unfinished)
                 (exec (main decimal cmd) [Gives (VList cmd)])).
  assert (H : run.2 = Raise IndexError).
  { apply (@missing_value_raises decimal cmd run.1 run.2 "gdal_proximity"
             [File "in.tif"; File "out.tif"] "-maxdist").
    - by apply (@exec_runs _ _ _ [Gives (VList cmd)]).
    - reflexivity.
    - unfold well_formed. simpl. split_and!; [done..|lia].
    - reflexivity. }
  unfold result_on. fold cmd. by rewrite <- H.
Defined.

(** C10 fails as stated: the final argument is an option taking a value
    and has no value after it, yet [main] returns the usage code 2 (an
    unrecognized option comes first, or the flag is read as the value of
    the flag before it) or 0 (--help comes first). *)
Lemma missing_value_counterexample :
  (last bogus_then_flag = Some "-of" /\ takes_value "-of" = true
   /\ result_on bogus_then_flag = Some (Return (VInt 2)))
  /\ (last flag_as_value = Some "-of"
      /\ result_on flag_as_value = Some (Return (VInt 2)))
  /\ (last help_then_flag = Some "-of"
      /\ result_on help_then_flag = Some (Return (VInt 0))).
Proof. by vm_compute. Qed.

Lemma main_exit_codes_witness :
  sample_run.2 = Return VNone /\ exit_status sample_run.2 = Some 0%Z.
Proof.
  refine (proj2 (@main_exit_codes decimal sample_command sample_run.1
                   sample_run.2 "gdal_proximity" sample_items []
                   (Proceeds "in.tif" "out.tif") _ _ _ _)
            sample_compute VNone _ _ _).
  - apply sample_run_runs.
  - reflexivity.
  - unfold well_formed. simpl. split_and!; [done..|lia].
  - reflexivity.
  - apply sample_compute_in.
  - reflexivity.
  - reflexivity.
Defined.

(** C1 fails as stated: with an unrecognized option and no file name on
    the command line [main] returns 0, not 2, when --help comes first;
    and a successful run returns [None], not 0. *)
Lemma main_exit_codes_counterexample :
  (unrecognized "-bogus" = true /\ "-bogus" ∈ help_then_bogus
   /\ result_on help_then_bogus = Some (Return (VInt 0)))
  /\ (is_compute sample_compute = true
      /\ answer sample_compute = Some (Gives VNone)
      /\ sample_run.2 = Return VNone).
Proof.
  split_and!; try by vm_compute.
  apply (list_elem_of_lookup_2 _ 2). reflexivity.
Qed.

Section Reading.
Variable int : string -> option Z.

Lemma items_effect_app items1 items2 o :
  items_effect int (items1 ++ items2) o =
    match items_effect int items1 o with
    | inl o' => items_effect int items2 o'
    | inr p => inr p
    end.
Proof.
  revert o. induction items1 as [|it items1 IH]; intros o; [done|]. simpl.
  destruct (item_effect int it o); [apply IH|done].
Qed.

Lemma files_app items1 items2 :
  files (items1 ++ items2) = files items1 ++ files items2.
Proof.
  induction items1 as [|[] items1 IH]; simpl; by rewrite ?IH.
Qed.

Lemma alg_strings_app items1 items2 :
  alg_strings (items1 ++ items2) = alg_strings items1 ++ alg_strings items2.
Proof.
  induction items1 as [|[] items1 IH]; simpl; by rewrite ?IH.
Qed.

Lemma quiet_given_app items1 items2 :
  quiet_given (items1 ++ items2) = quiet_given items1 || quiet_given items2.
Proof. apply existsb_app. Qed.

Lemma well_formed_app items1 items2 :
  well_formed int (items1 ++ items2) -> well_formed int items1.
Proof.
  intros (Hf & Hb & Hlen). rewrite forallb_app in Hf, Hb.
  apply andb_true_iff in Hf as [Hf _]. apply andb_true_iff in Hb as [Hb _].
  rewrite files_app, length_app in Hlen. split_and!; [done..|lia].
Qed.

(** The effect of one more item on the options of the items before it. *)
Lemma item_effect_options_of items it :
  well_formed int (items ++ [it]) ->
  item_effect int it (options_of int items)
  = inl (options_of int (items ++ [it])).
Proof.
  intros (_ & Hb & Hlen). rewrite forallb_app in Hb.
  apply andb_true_iff in Hb as [_ Hb]. simpl in Hb.
  rewrite files_app, length_app in Hlen.
  unfold options_of.
  rewrite !omap_app, files_app, alg_strings_app, quiet_given_app.
  destruct it as [k v|short v|v|v|v|v|long|name]; simpl in *;
    rewrite ?app_nil_r, ?orb_false_r, ?orb_true_r; try done.
  - unfold set_driver_name; simpl. by rewrite last_snoc.
  - unfold set_creation_type; simpl. by rewrite last_snoc.
  - rewrite andb_true_r in Hb. apply bool_decide_eq_true in Hb as [n Hn].
    rewrite Hn. unfold set_src_band_n, band_of; simpl.
    by rewrite last_snoc; simpl; rewrite Hn.
  - rewrite andb_true_r in Hb. apply bool_decide_eq_true in Hb as [n Hn].
    rewrite Hn. unfold set_dst_band_n, band_of; simpl.
    by rewrite last_snoc; simpl; rewrite Hn.
  - destruct (files items) as [|src [|dst more]]; simpl in *; try done. lia.
Qed.

(** Well-formed items leave the options that [options_of] describes. *)
Lemma items_effect_options_of items :
  well_formed int items ->
  items_effect int items initial = inl (options_of int items).
Proof.
  induction items as [|it items IH] using rev_ind; intros Hwf; [done|].
  rewrite items_effect_app, (IH (well_formed_app Hwf)). simpl.
  by rewrite item_effect_options_of.
Qed.

(** A turn that goes on has had the effect of one item. *)
Lemma loop_body_item_effect arg next o b o' :
  loop_body int arg next o = Next b o' ->
  exists it,
    file_names_ok it = true
    /\ words it = arg :: (if b then option_list next else [])
    /\ item_effect int it o = inl o'.
Proof.
  unfold loop_body. intros H.
  repeat match type of H with
         | context [String.eqb arg ?s] =>
             destruct (String.eqb_spec arg s) as [->|?]; simpl in H
         end;
    try (destruct next as [v|]; simpl in H; [|done]);
    unfold with_int in H.
  all: try (destruct (int v) as [z|] eqn:Hz; [|done]).
  all: try (injection H as <- <-).
  all: first
    [ by exists (Format false v)
    | by exists (Format true v)
    | by exists (CreationOption v)
    | by exists (OutputType v)
    | by exists (Algorithm MAXDIST v)
    | by exists (Algorithm VALUES v)
    | by exists (Algorithm DISTUNITS v)
    | by exists (Algorithm NODATA v)
    | by exists (Algorithm USE_INPUT_NODATA v)
    | by exists (Algorithm FIXED_BUF_VAL v)
    | by (exists (SrcBand v); simpl; rewrite Hz)
    | by (exists (DstBand v); simpl; rewrite Hz)
    | by exists (Quiet false)
    | by exists (Quiet true)
    | idtac ].
  all: destruct arg as [|c s]; [done|].
  all: destruct (Ascii.eqb c "-") eqn:Hc; [done|].
  all: exists (File (String c s)); simpl; rewrite Hc.
  all: by destruct (src_filename o), (dst_filename o); simplify_eq.
Qed.

(** The kinds of arguments that the loop tells apart. *)
Lemma arg_kinds arg :
  arg = "--help" \/ takes_value arg = true \/ arg = "-q" \/ arg = "-quiet"
  \/ arg = "" \/ unrecognized arg = true \/ is_file_name arg = true.
Proof.
  destruct arg as [|c s]; [tauto|]. remember (String c s) as arg eqn:E.
  destruct (String.eqb_spec arg "--help"); [tauto|].
  destruct (takes_value arg) eqn:Hv; [tauto|].
  destruct (String.eqb_spec arg "-q"); [tauto|].
  destruct (String.eqb_spec arg "-quiet"); [tauto|].
  do 5 right. rewrite E. cbv beta iota delta [unrecognized is_file_name].
  rewrite <- E, Hv.
  rewrite (proj2 (String.eqb_neq arg "--help")) by done.
  rewrite (proj2 (String.eqb_neq arg "-q")) by done.
  rewrite (proj2 (String.eqb_neq arg "-quiet")) by done.
  destruct (Ascii.eqb c "-"); simpl; tauto.
Qed.

(** A turn that returns from [main]: --help, an unrecognized option, or a
    third file name. *)
Lemma loop_body_returns arg next o out code :
  loop_body int arg next o = Returns out code ->
  (arg = "--help" /\ out = [Usage_output false] /\ code = Usage_code false)
  \/ (unrecognized arg = true
      /\ out = [Stderr ("Unrecognized option : " +:+ arg +:+ newline);
                Usage_output true]
      /\ code = Usage_code true)
  \/ (is_file_name arg = true /\ is_Some (src_filename o)
      /\ is_Some (dst_filename o)
      /\ out = [Usage_output true] /\ code = Usage_code true).
Proof.
  destruct (String.eqb_spec arg "--help") as [->|Hhelp].
  { intros [= <- <-]. by left. }
  destruct (takes_value arg) eqn:Hv.
  { destruct next as [v|].
    - apply String.eqb_neq in Hhelp.
      revert Hv. unfold takes_value, loop_body. rewrite Hhelp.
      repeat match goal with
             | |- context [String.eqb arg ?s] =>
                 destruct (String.eqb arg s) eqn:?; simpl; try done
             end; intros _ H; unfold with_int in H; by destruct (int v).
    - by rewrite loop_body_missing_value. }
  destruct (unrecognized arg) eqn:Hun.
  { rewrite loop_body_unrecognized by done. intros [= <- <-]. right. by left. }
  destruct (is_file_name arg) eqn:Hfile.
  { rewrite loop_body_file by done.
    destruct (src_filename o), (dst_filename o); try done.
    intros [= <- <-]. right. right. eauto 10. }
  destruct (arg_kinds arg) as [?|[?|[->|[->|[->|[?|?]]]]]]; try done;
    congruence.
Qed.

(** A turn that raises: an option without its value, a band that is no
    integer, or an empty argument. *)
Lemma loop_body_fails arg next o e :
  loop_body int arg next o = Fails e ->
  (takes_value arg = true /\ next = None /\ e = IndexError)
  \/ (is_band_flag arg = true
      /\ (exists v, next = Some v /\ int v = None) /\ e = ValueError)
  \/ (arg = "" /\ e = IndexError).
Proof.
  destruct (takes_value arg) eqn:Hv.
  { destruct next as [v|].
    - revert Hv. unfold takes_value, loop_body, is_band_flag.
      repeat match goal with
             | |- context [String.eqb arg ?s] =>
                 destruct (String.eqb arg s) eqn:?; simpl; try done
             end; intros _ H; unfold with_int in H;
        destruct (int v) eqn:Hn; try done;
        injection H as <-; right; left; eauto.
    - rewrite loop_body_missing_value by done. intros [= <-]. by left. }
  destruct (arg_kinds arg) as [->|[?|[->|[->|[->|[Hun|Hfile]]]]]];
    try done; try congruence.
  - intros [= <-]. by right; right.
  - by rewrite loop_body_unrecognized.
  - rewrite loop_body_file by done.
    by destruct (src_filename o), (dst_filename o).
Qed.

Lemma takes_value_flag arg :
  takes_value arg = true ->
  is_file_name arg = false /\ unrecognized arg = false
  /\ String.eqb arg "--help" = false /\ String.eqb arg "" = false
  /\ arg <> "-q" /\ arg <> "-quiet".
Proof.
  unfold takes_value. rewrite !orb_true_iff, !String.eqb_eq.
  intros H. destruct_or!; subst; done.
Qed.

Lemma unrecognized_option arg :
  unrecognized arg = true ->
  is_file_name arg = false /\ takes_value arg = false
  /\ String.eqb arg "--help" = false /\ String.eqb arg "" = false
  /\ arg <> "-q" /\ arg <> "-quiet".
Proof.
  destruct arg as [|c s]; [done|]. cbv beta iota delta [unrecognized].
  remember (String c s) as arg eqn:E.
  rewrite !andb_true_iff, !negb_true_iff. intros [[[[Hc Hv] Hh] Hq] Hqq].
  apply String.eqb_neq in Hq, Hqq. split_and!; try done.
  - rewrite E. simpl. by rewrite Hc.
  - by rewrite E.
Qed.

Lemma file_name_argument arg :
  is_file_name arg = true ->
  takes_value arg = false /\ unrecognized arg = false
  /\ String.eqb arg "--help" = false /\ String.eqb arg "" = false
  /\ arg <> "-q" /\ arg <> "-quiet".
Proof.
  intros H. destruct (takes_value arg) eqn:Hv.
  { apply takes_value_flag in Hv as (? & _). congruence. }
  destruct (unrecognized arg) eqn:Hun.
  { apply unrecognized_option in Hun as (? & _). congruence. }
  split_and!; try done; try by intros ->.
  - by apply String.eqb_neq; intros ->.
  - by apply String.eqb_neq; intros ->.
Qed.

(** One more item after well-formed items, when the loop goes on. *)
Lemma item_effect_well_formed items it o :
  well_formed int items -> file_names_ok it = true ->
  item_effect int it (options_of int items) = inl o ->
  well_formed int (items ++ [it]).
Proof.
  intros (Hf & Hb & Hlen) Hok H. unfold well_formed.
  rewrite !forallb_app, files_app, length_app, Hf, Hb. simpl. rewrite Hok.
  split_and!; [done| |].
  - destruct it; simpl in *; try done;
      destruct (int v) eqn:Hv; try done; rewrite andb_true_r;
      by apply bool_decide_eq_true.
  - destruct it; simpl in *; try lia.
    destruct (files items) as [|? [|? ?]]; simpl in *; try done; lia.
Qed.

(** From any options that well-formed items have left, the loop reads
    further items and ends as [ends] says. *)
Lemma parse_rest_reads n args items0 :
  length args <= n ->
  well_formed int items0 ->
  exists items rest,
    args = command_line items ++ rest
    /\ well_formed int (items0 ++ items)
    /\ stops_at int (items0 ++ items) rest
    /\ parse_rest int args (options_of int items0)
       = ends int (items0 ++ items) rest.
Proof.
  revert args items0.
  induction n as [|n IH]; intros [|arg more] items0 Hn Hwf;
    try (exists [], []; by rewrite !app_nil_r); simpl in Hn; [lia|].
  destruct (loop_body int arg (head more) (options_of int items0))
    as [b o1|out code|e] eqn:E.
  - destruct (loop_body_item_effect E) as (it & Hok & Hwords & Heff).
    pose proof (item_effect_well_formed Hwf Hok Heff) as Hwf1.
    rewrite item_effect_options_of in Heff by done. injection Heff as <-.
    assert (exists args', arg :: more = words it ++ args'
                          /\ length args' <= n
                          /\ parse_rest int (arg :: more) (options_of int items0)
                             = parse_rest int args'
                                 (options_of int (items0 ++ [it])))
      as (args' & Hargs & Hlen & Hparse).
    { simpl. rewrite E, Hwords. destruct b.
      - destruct (loop_body_took_value E) as [_ [v Hv]].
        destruct more as [|v' more]; [done|]. simpl in Hv. injection Hv as ->.
        exists more. simpl in *. split_and!; [done|lia|done].
      - exists more. split_and!; [done|lia|done]. }
    destruct (IH args' (items0 ++ [it])) as (items & rest & -> & Hwf2 & Hst & Hp);
      [done..|].
    exists (it :: items), rest. rewrite <- app_assoc in Hwf2, Hst, Hp.
    split_and!; [|done|done|by rewrite Hparse].
    rewrite Hargs. simpl. by rewrite app_assoc.
  - exists [], (arg :: more). rewrite app_nil_r.
    split; [done|]. split; [done|]. split.
    + destruct (loop_body_returns E)
        as [(-> & _)|[(Hun & _)|(Hfile & [src Hsrc] & [dst Hdst] & _)]].
      * simpl. split_and!; done.
      * apply unrecognized_option in Hun as (Hf & Hv & _ & _ & ? & ?).
        simpl. split_and!; [done|done|congruence|congruence].
      * apply file_name_argument in Hfile as (Hv & _ & _ & _ & ? & ?).
        simpl. split_and!; [done|done| |congruence]. intros _.
        destruct Hwf as (_ & _ & Hlen). simpl in Hdst.
        apply lookup_lt_Some in Hdst. lia.
    + simpl. rewrite E. destruct (loop_body_returns E)
        as [(-> & -> & ->)|[(Hun & -> & ->)|(Hfile & _ & _ & -> & ->)]].
      * done.
      * apply unrecognized_option in Hun as (Hf & Hv & Hh & He & _).
        by rewrite Hh, Hv, He, Hf.
      * pose proof (file_name_argument Hfile) as (Hv & _ & Hh & He & _).
        by rewrite Hh, Hv, He, Hfile.
  - exists [], (arg :: more). rewrite app_nil_r.
    split; [done|]. split; [done|]. split.
    + destruct (loop_body_fails E)
        as [(Hv & Hnext & _)|[(Hband & (v & Hnext & Hint) & _)|(-> & _)]].
      * pose proof (takes_value_flag Hv) as (Hf & _ & _ & _ & ? & ?).
        simpl. split_and!; [done|done|congruence|]. intros _. left.
        by destruct more.
      * assert (Hv : takes_value arg = true).
        { unfold is_band_flag in Hband. unfold takes_value.
          apply orb_true_iff in Hband as [->| ->];
            by rewrite ?orb_true_r. }
        pose proof (takes_value_flag Hv) as (Hf & _ & _ & _ & ? & ?).
        simpl. split_and!; [done|done|congruence|]. intros _. right. eauto.
      * simpl. split_and!; done.
    + simpl. rewrite E. destruct (loop_body_fails E)
        as [(Hv & Hnext & ->)|[(Hband & (v & Hnext & Hint) & ->)|(-> & ->)]].
      * pose proof (takes_value_flag Hv) as (_ & _ & Hh & _).
        rewrite Hh, Hv. by destruct more.
      * assert (Hv : takes_value arg = true).
        { unfold is_band_flag in Hband. unfold takes_value.
          apply orb_true_iff in Hband as [->| ->];
            by rewrite ?orb_true_r. }
        pose proof (takes_value_flag Hv) as (_ & _ & Hh & _).
        rewrite Hh, Hv. by destruct more.
      * done.
Qed.

Lemma parse_loop_items cmd0 items :
  well_formed int items ->
  parse_loop int (S (length (cmd0 :: command_line items)))
    (cmd0 :: command_line items) 1 initial
  = match items_effect int items initial with
    | inl o => Parsed o
    | inr p => p
    end.
Proof.
  intros Hwf. rewrite parse_loop_rest by (simpl; lia). simpl. rewrite drop_0.
  rewrite <- (app_nil_r (command_line items)) at 1.
  by rewrite parse_rest_items by apply Hwf.
Qed.

(** X1: after well-formed options and file names, the argument loop of
    [main] ends with the local variables that [options_of] describes: the
    last -of or -f, -ot, -srcband and -dstband win, the values of -co and
    the algorithm options are kept in order, and the two file names are
    the source and the destination. *)
Theorem parse_loop_options cmd0 items :
  well_formed int items ->
  parse_loop int (S (length (cmd0 :: command_line items)))
    (cmd0 :: command_line items) 1 initial
  = Parsed (options_of int items).
Proof.
  intros Hwf. rewrite parse_loop_items by done.
  by rewrite items_effect_options_of.
Qed.

(** X2: on every command line the argument loop of [main] reads options
    and file names up to some point and ends there in one of the ways of
    [ends]: at the end of the command line, at --help (code 0), at an
    option without its value or at an empty argument (IndexError), at a
    band that is no integer (ValueError), at a third file name or at an
    unrecognized option (code 2). *)
Theorem parse_loop_ends argv :
  exists items rest,
    drop 1 argv = command_line items ++ rest
    /\ well_formed int items
    /\ stops_at int items rest
    /\ parse_loop int (S (length argv)) argv 1 initial = ends int items rest.
Proof.
  destruct (@parse_rest_reads (length (drop 1 argv)) (drop 1 argv) [])
    as (items & rest & Hargs & Hwf & Hst & Hp); [done| |].
  { split_and!; [done..|simpl; lia]. }
  exists items, rest. split_and!; [done..|].
  rewrite parse_loop_rest by lia. exact Hp.
Qed.

(** X3: an empty argument where the loop expects an option or a file name
    makes [main] raise IndexError ([arg[0]] on the empty string). *)
Theorem empty_argument_raises argv tr r cmd0 items more :
  runs (main int argv) tr r ->
  processed tr = Some (cmd0 :: command_line items ++ "" :: more) ->
  well_formed int items ->
  r = Raise IndexError.
Proof.
  intros Hrun Hcmd Hwf.
  destruct (main_on_items Hrun Hcmd (proj1 Hwf)) as (tr' & _ & Hafter).
  rewrite items_effect_options_of in Hafter by done.
  by destruct Hafter.
Qed.

(** X4: a value of -srcband or -dstband that [int] does not read as an
    integer makes [main] raise ValueError. *)
Theorem band_not_integer_raises argv tr r cmd0 items flag v more :
  runs (main int argv) tr r ->
  processed tr = Some (cmd0 :: command_line items ++ flag :: v :: more) ->
  well_formed int items ->
  is_band_flag flag = true -> int v = None ->
  r = Raise ValueError.
Proof.
  intros Hrun Hcmd Hwf Hflag Hv.
  destruct (main_on_items Hrun Hcmd (proj1 Hwf)) as (tr' & _ & Hafter).
  rewrite items_effect_options_of in Hafter by done.
  unfold is_band_flag in Hflag.
  apply orb_true_iff in Hflag as [Hflag|Hflag];
    apply String.eqb_eq in Hflag as ->; simpl in Hafter;
    unfold loop_body in Hafter; simpl in Hafter; unfold with_int in Hafter;
    rewrite Hv in Hafter; by destruct Hafter.
Qed.

(** A run of [gdal_proximity] returns 1 or [None], or raises. *)
Lemma proximity_run_result src_filename src_band_n dst_filename dst_band_n
    creation_type creation_options alg_options quiet tr r :
  proximity_run src_filename src_band_n dst_filename dst_band_n creation_type
    creation_options alg_options quiet tr r ->
  r = Return (VInt 1) \/ r = Return VNone \/ exists e, r = Raise e.
Proof.
  intros [|a tr' e _ _|? ? ? ? ? [] _ _ _|? ? ? ? [] _ _ _]; simpl; eauto.
Qed.

(** X5: when [main] returns 2 it has asked the library nothing but
    [GeneralCmdLineProcessor]: it has only written to stderr, the usage
    message last. *)
Theorem usage_error_touches_nothing argv tr r :
  runs (main int argv) tr r ->
  r = Return (VInt 2) ->
  exists a out,
    tr = processor argv a :: map Wrote out
    /\ forallb is_stderr out = true
    /\ last out = Some (Usage_output true).
Proof.
  intros Hrun ->. apply main_runs in Hrun as (a & tr' & -> & Hrun).
  exists a. destruct a as [[| | |cmd| | | |]|]; try by destruct Hrun.
  unfold after_parse in Hrun.
  destruct (@parse_rest_reads (length (drop 1 cmd)) (drop 1 cmd) [])
    as (items & rest & _ & _ & _ & Hp); [done| |].
  { split_and!; [done..|simpl; lia]. }
  change (options_of int []) with initial in Hp. rewrite Hp in Hrun.
  clear Hp. unfold ends in Hrun. destruct rest as [|arg more].
  - simpl in Hrun.
    destruct (files items !! 0%nat); [destruct (files items !! 1%nat)|].
    + apply proximity_run_result in Hrun as [?|[?|[? ?]]]; done.
    + destruct Hrun as [-> _]. by eexists [_; _].
    + destruct Hrun as [-> _]. by eexists [_; _].
  - repeat case_match; simpl in Hrun; destruct Hrun as [-> ?]; try done.
    + by eexists [_].
    + by eexists [_; _].
Qed.

(** X6: when [main] returns 0, either [GeneralCmdLineProcessor] gave
    [None] and nothing else happened, or the loop met --help and the
    usage message went to stdout; no file was opened. *)
Theorem returns_zero_without_work argv tr r :
  runs (main int argv) tr r ->
  r = Return (VInt 0) ->
  tr = [processor argv (Gives VNone)]
  \/ exists cmd,
       "--help" ∈ cmd
       /\ tr = [processor argv (Gives (VList cmd)); Wrote (Usage_output false)].
Proof.
  intros Hrun ->. apply main_runs in Hrun as (a & tr' & -> & Hrun).
  destruct a as [[| | |cmd| | | |]|]; try by destruct Hrun.
  { destruct Hrun as [-> _]. by left. }
  right. exists cmd. unfold after_parse in Hrun.
  destruct (@parse_rest_reads (length (drop 1 cmd)) (drop 1 cmd) [])
    as (items & rest & Hcmd & _ & _ & Hp); [done| |].
  { split_and!; [done..|simpl; lia]. }
  change (options_of int []) with initial in Hp. rewrite Hp in Hrun.
  clear Hp. unfold ends in Hrun. destruct rest as [|arg more].
  - simpl in Hrun.
    destruct (files items !! 0%nat); [destruct (files items !! 1%nat)|].
    + apply proximity_run_result in Hrun as [?|[?|[? ?]]]; done.
    + by destruct Hrun.
    + by destruct Hrun.
  - destruct (String.eqb_spec arg "--help") as [->|?].
    + destruct Hrun as [-> _]. split; [|done].
      apply (@elem_of_sublist _ (drop 1 cmd)); [|apply sublist_drop].
      rewrite Hcmd. apply elem_of_app. right. left.
    + repeat case_match; simpl in Hrun; by destruct Hrun.
Qed.

(** X17: [main] always ends (the argument loop reads each argument at
    most once), and what it returns is [None], 0, 1 or 2; anything else
    is an exception. *)
Theorem main_result_codes argv tr r :
  runs (main int argv) tr r ->
  (exists e, r = Raise e)
  \/ r = Return VNone \/ r = Return (VInt 0) \/ r = Return (VInt 1)
  \/ r = Return (VInt 2).
Proof.
  intros Hrun. apply main_runs in Hrun as (a & tr' & -> & Hrun).
  destruct a as [[| | |cmd| | | |]|]; try (destruct Hrun as [_ ->]; eauto 6).
  unfold after_parse in Hrun.
  destruct (@parse_rest_reads (length (drop 1 cmd)) (drop 1 cmd) [])
    as (items & rest & _ & _ & _ & Hp); [done| |].
  { split_and!; [done..|simpl; lia]. }
  change (options_of int []) with initial in Hp. rewrite Hp in Hrun.
  clear Hp. unfold ends in Hrun. destruct rest as [|arg more].
  - simpl in Hrun.
    destruct (files items !! 0%nat); [destruct (files items !! 1%nat)|].
    + apply proximity_run_result in Hrun as [->|[->|[e ->]]]; eauto 6.
    + destruct Hrun as [_ ->]. eauto 6.
    + destruct Hrun as [_ ->]. eauto 6.
  - repeat case_match; simpl in Hrun; destruct Hrun as [_ ->]; eauto 6.
Qed.

(** X7: with two file names among well-formed options, [main] goes on as
    [gdal_proximity] called with the local variables of [options_of]:
    the rest of the run is a run of that call, and its result is the
    result of [main]. *)
Theorem main_calls_gdal_proximity argv tr r cmd0 items src dst :
  runs (main int argv) tr r ->
  processed tr = Some (cmd0 :: command_line items) ->
  well_formed int items ->
  files items = [src; dst] ->
  exists tr',
    tr = processor argv (Gives (VList (cmd0 :: command_line items))) :: tr'
    /\ runs
         (gdal_proximity (Some src) (src_band_n (options_of int items))
            (Some dst) (dst_band_n (options_of int items))
            (opt_str (driver_name (options_of int items)))
            (creation_type (options_of int items))
            (Some (creation_options (options_of int items)))
            (Some (alg_options (options_of int items)))
            (quiet (options_of int items)))
         tr' r.
Proof.
  intros Hrun Hcmd Hwf Hfiles. unfold main in Hrun.
  cbn [method is_None gdal bind ret nothing ask] in Hrun.
  apply runs_Ask_inv in Hrun as (a & tr' & -> & Hrun).
  simpl in Hcmd. destruct a as [[| | |cmd| | | |]|]; try done.
  injection Hcmd as ->. exists tr'. split; [done|].
  cbn [bind ret] in Hrun. rewrite parse_loop_items in Hrun by done.
  rewrite items_effect_options_of in Hrun by done.
  assert (Hsrc : src_filename (options_of int items) = Some src)
    by (simpl; by rewrite Hfiles).
  assert (Hdst : dst_filename (options_of int items) = Some dst)
    by (simpl; by rewrite Hfiles).
  by rewrite Hsrc, Hdst in Hrun.
Qed.

End Reading.
Lemma override_items_well_formed : well_formed decimal override_items.
Proof. unfold well_formed. simpl. split_and!; [done..|lia]. Qed.

Lemma parse_loop_options_witness :
  parse_loop decimal
    (S (length ("gdal_proximity" :: command_line override_items)))
    ("gdal_proximity" :: command_line override_items) 1 initial
  = Parsed (options_of decimal override_items).
Proof.
  apply (@parse_loop_options decimal "gdal_proximity" override_items).
  apply override_items_well_formed.
Defined.

(** The options of the example: the second driver and the second band
    number, both creation options. *)
Example override_options :
  options_of decimal override_items
  = {| driver_name := Some "HFA";
       creation_options := ["TILED=YES"; "COMPRESS=LZW"];
       alg_options := [];
       src_filename := Some "in.tif"; src_band_n := 3;
       dst_filename := Some "out.img"; dst_band_n := 1;
       creation_type := "Byte"; quiet := false |}.
Proof. reflexivity. Qed.

Lemma empty_argument_raises_witness : empty_argument_run.2 = Raise IndexError.
Proof.
  apply (@empty_argument_raises decimal
           ["gdal_proximity"; "in.tif"; ""; "out.tif"]
           empty_argument_run.1 empty_argument_run.2 "gdal_proximity"
           [File "in.tif"] ["out.tif"]).
  - by apply (@exec_runs _ _ _
                [Gives (VList ["gdal_proximity"; "in.tif"; ""; "out.tif"])]).
  - reflexivity.
  - unfold well_formed. simpl. split_and!; [done..|lia].
Defined.

Lemma band_not_integer_raises_witness : band_name_run.2 = Raise ValueError.
Proof.
  apply (@band_not_integer_raises decimal
           ["gdal_proximity"; "in.tif"; "-srcband"; "one"; "out.tif"]
           band_name_run.1 band_name_run.2 "gdal_proximity"
           [File "in.tif"] "-srcband" "one" ["out.tif"]).
  - by apply (@exec_runs _ _ _
                [Gives (VList ["gdal_proximity"; "in.tif"; "-srcband"; "one";
                               "out.tif"])]).
  - reflexivity.
  - unfold well_formed. simpl. split_and!; [done..|lia].
  - reflexivity.
  - reflexivity.
Defined.

Lemma usage_error_touches_nothing_witness :
  exists a out,
    bogus_run.1
    = processor ["gdal_proximity"; "in.tif"; "-bogus"] a :: map Wrote out
    /\ forallb is_stderr out = true
    /\ last out = Some (Usage_output true).
Proof.
  apply (@usage_error_touches_nothing decimal
           ["gdal_proximity"; "in.tif"; "-bogus"] bogus_run.1 bogus_run.2).
  - by apply (@exec_runs _ _ _
                [Gives (VList ["gdal_proximity"; "in.tif"; "-bogus"])]).
  - reflexivity.
Defined.

Lemma returns_zero_without_work_witness :
  help_run.1 = [processor ["gdal_proximity"; "--help"] (Gives VNone)]
  \/ exists cmd,
       "--help" ∈ cmd
       /\ help_run.1 = [ processor ["gdal_proximity"; "--help"]
                           (Gives (VList cmd));
                         Wrote (Usage_output false) ].
Proof.
  apply (@returns_zero_without_work decimal ["gdal_proximity"; "--help"]
           help_run.1 help_run.2).
  - by apply (@exec_runs _ _ _ [Gives (VList ["gdal_proximity"; "--help"])]).
  - reflexivity.
Defined.

Lemma sample_items_well_formed : well_formed decimal sample_items.
Proof. unfold well_formed. simpl. split_and!; [done..|lia]. Qed.

Lemma main_calls_gdal_proximity_witness :
  exists tr',
    sample_run.1
    = processor sample_command
        (Gives (VList ("gdal_proximity" :: command_line sample_items)))
      :: tr'
    /\ runs
         (gdal_proximity (Some "in.tif")
            (src_band_n (options_of decimal sample_items))
            (Some "out.tif") (dst_band_n (options_of decimal sample_items))
            (opt_str (driver_name (options_of decimal sample_items)))
            (creation_type (options_of decimal sample_items))
            (Some (creation_options (options_of decimal sample_items)))
            (Some (alg_options (options_of decimal sample_items)))
            (quiet (options_of decimal sample_items)))
         tr' sample_run.2.
Proof.
  apply (@main_calls_gdal_proximity decimal sample_command sample_run.1
           sample_run.2 "gdal_proximity" sample_items "in.tif" "out.tif").
  - apply sample_run_runs.
  - reflexivity.
  - apply sample_items_well_formed.
  - reflexivity.
Defined.

Lemma main_result_codes_witness :
  (exists e, sample_run.2 = Raise e)
  \/ sample_run.2 = Return VNone \/ sample_run.2 = Return (VInt 0)
  \/ sample_run.2 = Return (VInt 1) \/ sample_run.2 = Return (VInt 2).
Proof.
  apply (@main_result_codes decimal sample_command sample_run.1 sample_run.2).
  apply sample_run_runs.
Defined.

(** Every run of a program without loops, one by one: the next step of
    the run [H], with the answer of the library when it is a call. *)
Ltac run_step H :=
  unfold method, attr, ask, emit, ret, raise in H;
  cbn [bind try_except is_None fst snd] in H;
  lazymatch type of H with
  | runs (Done _) _ _ => apply runs_Done_inv in H as [-> ->]
  | runs (Ask _ _) _ _ =>
      let a := fresh "a" in
      let v := fresh "v" in
      let e := fresh "e" in
      apply runs_Ask_inv in H as (a & ? & -> & H); destruct a as [v|e]
  | runs (Emit _ _) _ _ => apply runs_Emit_inv in H as (? & -> & H)
  | context [is_None ?v] =>
      let E := fresh "Hnone" in
      destruct (is_None v) eqn:E; [apply is_None_true in E; subst|]
  end.

(** All the runs of [gdal_proximity], one goal for each. *)
Ltac proximity_runs H :=
  unfold gdal_proximity, open_existing, create_output, output_driver,
    create_dataset, nothing, GdalProximity.gdal, util in H;
  repeat run_step H.

(** The run of [gdal_proximity] that a trace describes, step by step. *)
Ltac proximity_run_built :=
  unfold gdal_proximity, open_existing, create_output, output_driver,
    create_dataset, nothing, GdalProximity.gdal, util;
  repeat (unfold method, attr, ask, emit, ret, raise;
          cbn [bind try_except is_None fst snd];
          repeat match goal with
                 | H : is_None ?v = false |- context [is_None ?v] => rewrite H
                 end;
          first [apply runs_done | apply runs_ask | apply runs_emit]).

Section Paths.
Variables (src_filename : option string) (src_band_n : Z)
  (dst_filename : option string) (dst_band_n : Z) (driver_name : value)
  (creation_type : string) (creation_options alg_options : option (list string))
  (quiet : bool).

Local Abbreviation the_call :=
  (gdal_proximity src_filename src_band_n dst_filename dst_band_n driver_name
     creation_type creation_options alg_options quiet).

(** X8: [gdal_proximity] returns 1 exactly when [gdal.Open] gives no
    dataset for the source; it has then printed the message
    [Unable to open <src>] on stdout and has called nothing else. *)
Theorem returns_1_iff_source_unopened tr r :
  runs the_call tr r ->
  (r = Return (VInt 1) <-> head tr = Some (open_source src_filename (Gives VNone)))
  /\ (r = Return (VInt 1) ->
      tr = [ open_source src_filename (Gives VNone);
             Wrote (Stdout ("Unable to open " +:+ percent_s src_filename
                            +:+ newline)) ]).
Proof.
  intros H. proximity_runs H.
  all: split; [split|]; intros Hx; try done.
  all: simpl in Hx; unfold open_source in Hx; by simplify_eq.
Qed.

Lemma never_calls_filter (tr : list (event Empty_set)) :
  never_calls "ComputeProximity" tr = true ->
  filter (fun e => is_compute e = true) tr = [].
Proof.
  induction tr as [|e tr IH]; [done|]. simpl. intros H.
  apply andb_true_iff in H as [He H]. apply negb_true_iff in He.
  rewrite filter_cons, decide_False by (unfold is_compute; congruence).
  by apply IH.
Qed.

(** X9: [ComputeProximity] is called at most once, as the last thing a
    run does; [gdal_proximity] returns [None] exactly when that call has
    returned, and raises what the call raises. *)
Theorem compute_is_last tr r :
  runs the_call tr r ->
  (forall e, e ∈ tr -> is_compute e = true ->
     filter (fun e => is_compute e = true) tr = [e] /\ last tr = Some e
     /\ match answer e with
        | Some (Gives _) => r = Return VNone
        | Some (Throws err) => r = Raise err
        | None => False
        end)
  /\ (r = Return VNone ->
      exists e x, last tr = Some e /\ is_compute e = true
                  /\ answer e = Some (Gives x)).
Proof.
  intros H. apply gdal_proximity_runs in H.
  destruct H as [|a tr' err Ha Hn|src_ds srcband d dst_ds dstband a Hs Hd Hdst
                 |src_ds srcband attempt c a Hs Hn1 Hn2].
  - split; [|done]. intros e Hin Hc.
    repeat (apply elem_of_cons in Hin as [->|Hin]; [done|]).
    by apply elem_of_nil in Hin.
  - split; [|done]. intros e Hin Hc.
    apply elem_of_cons in Hin as [->|Hin]; [done|].
    apply (never_calls_elem Hn) in Hin. unfold is_compute in Hc. congruence.
  - split.
    + intros e Hin Hc.
      repeat (apply elem_of_cons in Hin as [->|Hin]; [by try destruct a|]).
      by apply elem_of_nil in Hin.
    + destruct a as [x|]; [|done]. intros _. by eexists _, x.
  - assert (Hlast : forall l,
              last (open_source src_filename (Gives src_ds)
                    :: source_band src_band_n src_ds srcband
                    :: attempt
                    ++ creation_calls dst_filename creation_type
                         creation_options src_ds c
                    ++ l ++ [compute alg_options quiet srcband (c_dstband c) a])
              = Some (compute alg_options quiet srcband (c_dstband c) a)).
    { intros l. rewrite !app_comm_cons, !app_assoc. apply last_snoc. }
    split.
    + intros e Hin Hc.
      assert (e = compute alg_options quiet srcband (c_dstband c) a) as ->.
      { do 2 (apply elem_of_cons in Hin as [->|Hin]; [done|]).
        apply elem_of_app in Hin as [Hin|Hin].
        { apply (never_calls_elem Hn1) in Hin. unfold is_compute in Hc.
          congruence. }
        apply elem_of_app in Hin as [Hin|Hin].
        { unfold creation_calls in Hin.
          repeat (apply elem_of_cons in Hin as [->|Hin]; [done|]).
          by apply elem_of_nil in Hin. }
        apply elem_of_cons in Hin as [->|Hin]; [done|].
        by apply elem_of_nil in Hin. }
      split_and!.
      * rewrite !filter_cons, !filter_app.
        rewrite (never_calls_filter Hn1). by destruct a.
      * apply (Hlast []).
      * by destruct a.
    + destruct a as [x|]; [|done]. intros _. eexists _, x.
      split_and!; [apply (Hlast [])|done|done].
Qed.

Lemma opened_existing_lookup tr :
  opened_existing dst_filename dst_band_n tr ->
  exists i dst_ds dstband,
    tr !! i = Some (open_update dst_filename (Gives dst_ds))
    /\ tr !! S i = Some (destination_band dst_ds dst_band_n (Gives dstband)).
Proof.
  intros (pre & dst_ds & dstband & post & _ & ->).
  exists (length pre), dst_ds, dstband. split.
  - by rewrite list_lookup_middle.
  - rewrite lookup_app_r by lia.
    by replace (S (length pre) - length pre) with 1 by lia.
Qed.

(** X10: when the destination is opened as an existing dataset, it is
    used as it is: the run is the six calls below and nothing else, so
    nothing is created, no size, type, geotransform or projection is
    read or set, and the proximity goes to the band [dst_band_n] of the
    dataset. *)
Theorem existing_destination_used_as_is tr r :
  runs the_call tr r ->
  opened_existing dst_filename dst_band_n tr ->
  exists src_ds srcband identified dst_ds dstband a,
    tr = [ open_source src_filename (Gives src_ds);
           source_band src_band_n src_ds srcband;
           identify_driver dst_filename (Gives identified);
           open_update dst_filename (Gives dst_ds);
           destination_band dst_ds dst_band_n (Gives dstband);
           compute alg_options quiet srcband dstband a ]
    /\ r = after_compute a.
Proof.
  intros H Hex. apply opened_existing_lookup in Hex as (i & d1 & b1 & H1 & H2).
  unfold open_update, destination_band in H1, H2.
  proximity_runs H.
  all: repeat (destruct i as [|i]; simpl in H1, H2;
               [first [by simplify_eq
                      |simplify_eq; by eexists _, _, _, _, _, (Gives _)
                      |simplify_eq; by eexists _, _, _, _, _, (Throws _)]|]).
  all: done.
Qed.

(** X11: the argument [driver_name] (the option -of of the command line)
    has no part in a run in which [IdentifyDriver] answers, be it [None]:
    the assignment in the [try] block replaces it, so the same run is a
    run of the call with any other driver name. *)
Theorem driver_name_unused_when_identified other tr r identified :
  runs the_call tr r ->
  tr !! 2%nat = Some (identify_driver dst_filename (Gives identified)) ->
  runs (gdal_proximity src_filename src_band_n dst_filename dst_band_n other
          creation_type creation_options alg_options quiet) tr r.
Proof.
  intros H H2. unfold identify_driver in H2. proximity_runs H.
  all: simpl in H2; try (by simplify_eq).
  all: proximity_run_built.
Qed.

(** X12: the driver that [gdal_proximity] asks [GetDriverByName] for is
    the argument [driver_name] only when [IdentifyDriver] has raised; it
    is the driver that [IdentifyDriver] gave when there is one (the
    destination could then not be opened for update); otherwise it is
    what [GetOutputDriverFor] has just answered for the destination. *)
Theorem driver_asked_for tr r i name a :
  runs the_call tr r ->
  tr !! i = Some (get_driver name a) ->
  (exists e, tr !! 2%nat = Some (identify_driver dst_filename (Throws e))
             /\ is_None driver_name = false /\ name = driver_name)
  \/ (exists d, tr !! 2%nat = Some (identify_driver dst_filename (Gives d))
                /\ is_None d = false /\ name = d)
  \/ (exists j, i = S j
                /\ tr !! j = Some (output_driver_for dst_filename (Gives name))).
Proof.
  intros H Hi. unfold get_driver in Hi. proximity_runs H.
  all: repeat first
         [ discriminate Hi
         | destruct i as [|i]; cbn [lookup list_lookup] in Hi;
           [first [discriminate Hi
                  |injection Hi as <- <-;
                   first [right; right; eexists; split; reflexivity
                         |left; eexists; split_and!;
                            [reflexivity|reflexivity|reflexivity]
                         |right; left; eexists; split_and!;
                            [reflexivity|assumption|reflexivity]]]|] ].
Qed.

(** X13: what [gdal_proximity] raises is what the last call of the run
    has raised, or AttributeError right after [GetDriverByName] or
    [Create] has given [None]; and what is raised inside the [try] block
    on the destination never comes out: whatever [IdentifyDriver], [Open]
    for update and the [GetRasterBand] that follows it answer or raise,
    the run goes on with another call, so none of them is the last call
    of a run. *)
Theorem raised_by_last_call tr r :
  runs the_call tr r ->
  (forall e, r = Raise e ->
     exists ev,
       last tr = Some ev
       /\ (thrown ev = Some e
           \/ (e = AttributeError
               /\ gave_None "GetDriverByName" ev || gave_None "Create" ev
                  = true)))
  /\ (forall i a,
        tr !! i = Some (identify_driver dst_filename a)
        \/ tr !! i = Some (open_update dst_filename a) ->
        is_Some (tr !! S i))
  /\ (forall i dst_ds a,
        tr !! i = Some (open_update dst_filename (Gives dst_ds)) ->
        tr !! S i = Some (destination_band dst_ds dst_band_n a) ->
        is_Some (tr !! S (S i))).
Proof.
  intros H. unfold identify_driver, open_update, destination_band.
  proximity_runs H.
  all: split;
    [ intros err Hr;
      first [ discriminate Hr
            | injection Hr as <-; eexists; split; [reflexivity|];
              first [left; reflexivity | right; split; reflexivity] ]
    | split;
      [ intros i ans [Hi|Hi];
        repeat first
          [ discriminate Hi
          | destruct i as [|i]; cbn [lookup list_lookup] in Hi;
            [first [discriminate Hi | by eexists]|] ]
      | intros i ds ans Hi Hj;
        repeat first
          [ discriminate Hi
          | destruct i as [|i]; cbn [lookup list_lookup] in Hi, Hj;
            [first [discriminate Hi | discriminate Hj | by eexists]|] ] ] ].
Qed.

End Paths.

Lemma unopened_run_runs :
  runs (sample_call VNone) unopened_run.1 unopened_run.2.
Proof. by apply (@exec_runs _ _ _ [Gives VNone]). Qed.

Lemma sample_call_runs :
  runs (sample_call VNone) sample_proximity_run.1 sample_proximity_run.2.
Proof. by apply (@exec_runs _ _ _ (drop 1 (creating_library []))). Qed.

Lemma existing_run_runs :
  runs (sample_call VNone) existing_run.1 existing_run.2.
Proof. by apply (@exec_runs _ _ _ existing_library). Qed.

Lemma unknown_driver_run_runs :
  runs (sample_call (VStr "NoSuchDriver")) unknown_driver_run.1
    unknown_driver_run.2.
Proof.
  by apply (@exec_runs _ _ _
              [ Gives (VObj 1); Gives (VObj 2);
                Throws (OtherError "RuntimeError"); Gives VNone ]).
Qed.

Lemma returns_1_iff_source_unopened_witness :
  unopened_run.1
  = [ open_source (Some "in.tif") (Gives VNone);
      Wrote (Stdout ("Unable to open " +:+ "in.tif" +:+ newline)) ].
Proof.
  apply (proj2 (@returns_1_iff_source_unopened (Some "in.tif") 1
                  (Some "out.tif") 1 VNone "Float32" (Some ["COMPRESS=LZW"])
                  (Some ["VALUES=3,4"]) false unopened_run.1 unopened_run.2
                  unopened_run_runs)).
  reflexivity.
Defined.

Lemma compute_is_last_witness :
  filter (fun e => is_compute e = true) sample_proximity_run.1
  = [sample_proximity_compute]
  /\ last sample_proximity_run.1 = Some sample_proximity_compute
  /\ sample_proximity_run.2 = Return VNone.
Proof.
  apply (proj1 (@compute_is_last (Some "in.tif") 1 (Some "out.tif") 1 VNone
                  "Float32" (Some ["COMPRESS=LZW"]) (Some ["VALUES=3,4"])
                  false sample_proximity_run.1 sample_proximity_run.2
                  sample_call_runs) sample_proximity_compute).
  - by apply (list_elem_of_lookup_2 _ 14).
  - reflexivity.
Defined.

Lemma existing_run_opened : opened_existing (Some "out.tif") 1 existing_run.1.
Proof.
  exists (take 3 existing_run.1), (VObj 4), (VObj 5), (drop 5 existing_run.1).
  by split.
Qed.

Lemma existing_destination_used_as_is_witness :
  exists src_ds srcband identified dst_ds dstband a,
    existing_run.1
    = [ open_source (Some "in.tif") (Gives src_ds);
        source_band 1 src_ds srcband;
        identify_driver (Some "out.tif") (Gives identified);
        open_update (Some "out.tif") (Gives dst_ds);
        destination_band dst_ds 1 (Gives dstband);
        compute (Some ["VALUES=3,4"]) false srcband dstband a ]
    /\ existing_run.2 = after_compute a.
Proof.
  apply (@existing_destination_used_as_is (Some "in.tif") 1 (Some "out.tif") 1
           VNone "Float32" (Some ["COMPRESS=LZW"]) (Some ["VALUES=3,4"]) false
           existing_run.1 existing_run.2).
  - apply existing_run_runs.
  - apply existing_run_opened.
Defined.

Lemma driver_name_unused_when_identified_witness :
  runs (sample_call (VStr "HFA")) sample_proximity_run.1
    sample_proximity_run.2.
Proof.
  apply (@driver_name_unused_when_identified (Some "in.tif") 1
           (Some "out.tif") 1 VNone "Float32" (Some ["COMPRESS=LZW"])
           (Some ["VALUES=3,4"]) false (VStr "HFA") sample_proximity_run.1
           sample_proximity_run.2 VNone).
  - apply sample_call_runs.
  - reflexivity.
Defined.

Lemma driver_asked_for_witness :
  (exists e,
     sample_proximity_run.1 !! 2%nat
     = Some (identify_driver (Some "out.tif") (Throws e))
     /\ is_None (VNone : value) = false /\ (VStr "GTiff" : value) = VNone)
  \/ (exists d,
        sample_proximity_run.1 !! 2%nat
        = Some (identify_driver (Some "out.tif") (Gives d))
        /\ is_None d = false /\ VStr "GTiff" = d)
  \/ (exists j,
        4%nat = S j
        /\ sample_proximity_run.1 !! j
           = Some (output_driver_for (Some "out.tif") (Gives (VStr "GTiff")))).
Proof.
  apply (@driver_asked_for (Some "in.tif") 1 (Some "out.tif") 1 VNone
           "Float32" (Some ["COMPRESS=LZW"]) (Some ["VALUES=3,4"]) false
           sample_proximity_run.1 sample_proximity_run.2 4 (VStr "GTiff")
           (Gives (VObj 3))).
  - apply sample_call_runs.
  - reflexivity.
Defined.

Lemma raised_by_last_call_witness :
  (exists ev,
     last unknown_driver_run.1 = Some ev
     /\ (thrown ev = Some AttributeError
         \/ (AttributeError = AttributeError
             /\ gave_None "GetDriverByName" ev || gave_None "Create" ev
                = true)))
  /\ is_Some (unknown_driver_run.1 !! 3%nat)
  /\ is_Some (existing_run.1 !! 5%nat).
Proof.
  split; [|split].
  - apply (proj1 (@raised_by_last_call (Some "in.tif") 1 (Some "out.tif") 1
                    (VStr "NoSuchDriver") "Float32" (Some ["COMPRESS=LZW"])
                    (Some ["VALUES=3,4"]) false unknown_driver_run.1
                    unknown_driver_run.2 unknown_driver_run_runs)
             AttributeError).
    reflexivity.
  - apply (proj1 (proj2 (@raised_by_last_call (Some "in.tif") 1
                           (Some "out.tif") 1 (VStr "NoSuchDriver") "Float32"
                           (Some ["COMPRESS=LZW"]) (Some ["VALUES=3,4"]) false
                           unknown_driver_run.1 unknown_driver_run.2
                           unknown_driver_run_runs))
             2%nat (Throws (OtherError "RuntimeError"))).
    left. reflexivity.
  - apply (proj2 (proj2 (@raised_by_last_call (Some "in.tif") 1
                           (Some "out.tif") 1 VNone "Float32"
                           (Some ["COMPRESS=LZW"]) (Some ["VALUES=3,4"]) false
                           existing_run.1 existing_run.2 existing_run_runs))
             3%nat (VObj 4) (Gives (VObj 5))); reflexivity.
Defined.

(** In the example the exception of [IdentifyDriver] is swallowed, the
    driver of the caller is asked for, and its absence stops the run. *)
Example unknown_driver_trace :
  unknown_driver_run
  = ([ open_source (Some "in.tif") (Gives (VObj 1));
       source_band 1 (VObj 1) (VObj 2);
       identify_driver (Some "out.tif") (Throws (OtherError "RuntimeError"));
       get_driver (VStr "NoSuchDriver") (Gives VNone) ],
     Raise AttributeError).
Proof. reflexivity. Qed.

End GdalProximityProofs.

(** * samples/vec_tr.py: proofs *)

Module VecTrProofs.
Import VecTr.

Section GeometryFacts.
Variable number : Type.
Variable plus : number -> number -> number.
Variable of_int : Z -> number.
Variable SetGeometryDirectly :
  geometry number -> geometry number -> outcome (geometry number).

Local Abbreviation geom := (geometry number).
Local Abbreviation T := (TransformPoint plus of_int).
Local Abbreviation walked := (transformed plus of_int).

(** Induction on a geometry, with the property at hand for its parts. *)
Lemma geometry_parts_ind (P : geom -> Prop) :
  (forall i pts ps, Forall P ps -> P (Geometry i pts ps)) -> forall g, P g.
Proof.
  intros H. fix IH 1. intros [i pts ps]. apply H.
  induction ps as [|p ps IHps]; constructor; [apply IH|apply IHps].
Qed.

Lemma transform_points_loop i (seen rest : list (point number)) ps :
  foldl
    (fun g k =>
       match GetX g k, GetY g k, GetZ g k with
       | Some x, Some y, Some z =>
           SetPoint g k (T (x, y, z)).1.1 (T (x, y, z)).1.2 (T (x, y, z)).2
       | _, _, _ => g
       end)
    (Geometry i (seen ++ rest) ps) (seq (length seen) (length rest))
  = Geometry i (seen ++ map T rest) ps.
Proof.
  set (f := fun (g : geom) (k : nat) => _).
  revert seen. induction rest as [|xyz rest IH]; intros seen.
  { reflexivity. }
  cbn [length seq foldl map].
  assert (Hf : f (Geometry i (seen ++ xyz :: rest) ps) (length seen)
               = Geometry i ((seen ++ [T xyz]) ++ rest) ps).
  { unfold f, GetX, GetY, GetZ, SetPoint. cbn [oid points parts].
    rewrite list_lookup_middle by done. cbn [fmap option_fmap option_map].
    rewrite insert_app_r_alt by reflexivity. rewrite Nat.sub_diag.
    cbn [insert list_insert]. rewrite <- app_assoc.
    destruct xyz as [[x y] z]. cbn [fst snd].
    by destruct (T (x, y, z)) as [[] ?]. }
  rewrite Hf.
  replace (S (length seen)) with (length (seen ++ [T xyz]))
    by (rewrite length_app; simpl; lia).
  rewrite IH. by rewrite <- app_assoc.
Qed.

(** The loop on the points applies [TransformPoint] to each of them. *)
Lemma transform_points_map g :
  transform_points plus of_int g
  = Geometry (oid g) (map T (points g)) (parts g).
Proof.
  destruct g as [i pts ps]. unfold transform_points, GetPointCount. simpl.
  apply (transform_points_loop i [] pts ps).
Qed.

Lemma oid_transformed g : oid (walked g) = oid g.
Proof. by destruct g as [i pts [|p ps]]. Qed.

Lemma transformed_parts i (pts : list (point number)) (p : geom) ps :
  walked (Geometry i pts (p :: ps)) = Geometry i pts (map walked (p :: ps)).
Proof. done. Qed.

Lemma depth_parts i (pts : list (point number)) (ps : list geom) p n :
  depth (Geometry i pts ps) <= S n -> p ∈ ps -> depth p <= n.
Proof.
  simpl. intros H Hin. apply le_S_n in H.
  induction ps as [|q ps IH]; [by apply elem_of_nil in Hin|].
  simpl in H. apply elem_of_cons in Hin as [->|Hin]; [lia|].
  apply IH; [lia|done].
Qed.

(** With enough fuel, the walk returns the geometry of the claims. *)
Lemma WalkAndTransform_transformed fuel g :
  depth g <= fuel ->
  WalkAndTransform plus of_int SetGeometryDirectly fuel g = Return (walked g).
Proof.
  revert g. induction fuel as [|fuel IH]; intros [i pts ps] Hd.
  { simpl in Hd. lia. }
  cbn [WalkAndTransform]. unfold GetGeometryCount. cbn [parts].
  destruct ps as [|p0 ps0].
  { change (0 <? length (@nil geom)) with false. cbv iota.
    by rewrite transform_points_map. }
  change (0 <? length (p0 :: ps0)) with true. cbv iota.
  rewrite transformed_parts. set (ps := p0 :: ps0) in *.
  assert (Hloop : forall seen rest,
    (forall p, p ∈ rest -> depth p <= fuel) ->
    for_range (seq (length seen) (length rest))
      (fun k g =>
         match GetGeometryRef g k with
         | None => Raise AttributeError
         | Some old_geom =>
             match WalkAndTransform plus of_int SetGeometryDirectly fuel old_geom with
             | Return new_geom =>
                 if negb (oid new_geom =? oid old_geom)
                 then SetGeometryDirectly (update_part g k new_geom) new_geom
                 else Return (update_part g k new_geom)
             | Raise e => Raise e
             | Unfinished => Unfinished
             end
         end)
      (Geometry i pts (seen ++ rest))
    = Return (Geometry i pts (seen ++ map walked rest))).
  { intros seen rest. revert seen.
    induction rest as [|p rest IHrest]; intros seen Hrest.
    { reflexivity. }
    cbn [length seq for_range map].
    unfold GetGeometryRef at 1. cbn [parts].
    rewrite list_lookup_middle by done.
    rewrite IH by (apply Hrest; left).
    rewrite oid_transformed, Nat.eqb_refl. cbn [negb].
    unfold update_part. cbn [oid points parts].
    rewrite insert_app_r_alt by reflexivity. rewrite Nat.sub_diag.
    cbn [insert list_insert].
    replace (seen ++ walked p :: rest) with ((seen ++ [walked p]) ++ rest)
      by (by rewrite <- app_assoc).
    replace (S (length seen)) with (length (seen ++ [walked p]))
      by (rewrite length_app; simpl; lia).
    rewrite IHrest by (intros q Hq; apply Hrest; by right).
    by rewrite <- app_assoc. }
  apply (Hloop [] ps). intros p Hp. by eapply depth_parts.
Qed.

Lemma skeleton_transformed g : skeleton_of (walked g) = skeleton_of g.
Proof.
  induction g as [i pts ps IH] using geometry_parts_ind.
  destruct ps as [|p ps]; simpl.
  { by rewrite length_map. }
  inversion_clear IH as [|? ? Hp Hps]. rewrite Hp. do 2 f_equal.
  induction Hps as [|q qs Hq _ IHqs]; simpl; [done|]. by rewrite Hq, IHqs.
Qed.

Lemma yz_TransformPoint xyz : yz (T xyz) = yz xyz.
Proof. done. Qed.

Lemma vertices_yz_transformed g :
  map yz (vertices (walked g)) = map yz (vertices g).
Proof.
  induction g as [i pts ps IH] using geometry_parts_ind.
  destruct ps as [|p ps].
  { simpl. rewrite !app_nil_r. rewrite map_map. apply map_ext.
    intros xyz. apply yz_TransformPoint. }
  rewrite transformed_parts. cbn [vertices]. rewrite !map_app. f_equal.
  induction IH as [|q qs Hq _ IHqs]; [done|].
  cbn [map concat]. by rewrite !map_app, Hq, IHqs.
Qed.

Lemma leaf_vertices_transformed g :
  leaf_vertices (walked g) = map T (leaf_vertices g).
Proof.
  induction g as [i pts ps IH] using geometry_parts_ind.
  destruct ps as [|p ps]; [done|].
  rewrite transformed_parts.
  change (leaf_vertices (Geometry i pts (map walked (p :: ps))))
    with (concat (map (@leaf_vertices number) (map walked (p :: ps)))).
  change (leaf_vertices (Geometry i pts (p :: ps)))
    with (concat (map (@leaf_vertices number) (p :: ps))).
  induction IH as [|q qs Hq _ IHqs]; [done|].
  cbn [map concat]. by rewrite map_app, Hq, IHqs.
Qed.

(** C8, as amended: [TransformPoint] returns (x + 1000, y, z) in the
    arithmetic of the coordinates, with y and z as they were; on integers
    x moves by exactly 1000; the walk returns the geometry with the same
    objects, the same numbers of parts and of points, and the same y and
    z at every vertex. *)
Theorem transform_keeps_y_z_and_shape :
  (forall x y z, T (x, y, z) = (plus x (of_int 1000), y, z))
  /\ (forall x y z : Z,
        TransformPoint Z.add id (x, y, z) = ((x + 1000)%Z, y, z)
        /\ ((TransformPoint Z.add id (x, y, z)).1.1 - x = 1000)%Z)
  /\ forall g,
       exists g',
         WalkAndTransform plus of_int SetGeometryDirectly (S (depth g)) g
         = Return g'
         /\ skeleton_of g' = skeleton_of g
         /\ map yz (vertices g') = map yz (vertices g).
Proof.
  split; [done|]. split.
  { intros x y z. split; [done|]. unfold TransformPoint. simpl. lia. }
  intros g. exists (walked g). split_and!.
  - apply WalkAndTransform_transformed. lia.
  - apply skeleton_transformed.
  - apply vertices_yz_transformed.
Qed.

End GeometryFacts.

Section MainFacts.
Variable number : Type.
Variable plus : number -> number -> number.
Variable of_int : Z -> number.
Variable SetGeometryDirectly :
  geometry number -> geometry number -> outcome (geometry number).

Local Abbreviation geom := (geometry number).
Local Abbreviation walked := (transformed plus of_int).
Local Abbreviation ev := (event geom).
Local Abbreviation clones := (omap (@cloned number)).
Local Abbreviation writes := (omap (@written number)).
Local Abbreviation turn_ok := (turn_post plus of_int).
Local Abbreviation handed := (handed_over plus of_int).

Lemma plain_cloned (e : ev) : plain e = true -> cloned e = None.
Proof.
  destruct e as [[self name args kw|self name] a|o]; try done.
  unfold plain, calls_method. simpl. intros H.
  apply andb_true_iff in H as [H _]. apply negb_true_iff in H.
  destruct (String.eqb_spec name "Clone") as [->|Hne]; [done|].
  unfold cloned. repeat case_match; try done; by subst.
Qed.

Lemma plain_written (e : ev) : plain e = true -> written e = None.
Proof.
  destruct e as [[self name args kw|self name] a|o]; try done.
  unfold plain, calls_method. simpl. intros H.
  apply andb_true_iff in H as [_ H]. apply negb_true_iff in H.
  destruct (String.eqb_spec name "SetGeometryDirectly") as [->|Hne]; [done|].
  unfold written. repeat case_match; try done; by subst.
Qed.

Lemma plain_trace (tr : list ev) :
  forallb plain tr = true -> clones tr = [] /\ writes tr = [].
Proof.
  induction tr as [|e tr IH]; [done|]. simpl. intros H.
  apply andb_true_iff in H as [He Htr]. destruct (IH Htr) as [Hc Hw].
  by rewrite (plain_cloned He), (plain_written He).
Qed.

Ltac keeps_tac :=
  repeat first
    [ apply keeps_done
    | apply keeps_method; [intros; reflexivity| |]
    | apply keeps_ask; intros; reflexivity
    | apply keeps_bind; [|intros ?] ].

Tactic Notation "vcall" "as" simple_intropattern(a) :=
  apply always_method;
  [ intros ?; first [discriminate | congruence | idtac]
  | intros ? a; cbn [answered] ].

Ltac turn_leaf :=
  unfold turn_post; simpl;
  first
    [ by left
    | right; eexists; split; [reflexivity|]; first [by left | by right]
    | eexists; split; reflexivity ].

Lemma copy_feature_always in_layer shp_layer in_feat :
  always
    (copy_feature plus of_int SetGeometryDirectly in_layer shp_layer in_feat)
    turn_ok.
Proof.
  unfold copy_feature, no_args, no_kwargs.
  apply always_bind. apply always_bind.
  vcall as [ref|e]; try turn_leaf.
  vcall as [geom|e]; try turn_leaf.
  apply always_bind.
  destruct geom as [| | | | | | |g]; try turn_leaf.
  unfold walk. rewrite WalkAndTransform_transformed by lia. simpl always.
  apply always_bind. apply always_method_kwargs; [intros _; turn_leaf|].
  intros _. simpl always. apply always_bind.
  vcall as [defn|e]; try turn_leaf.
  simpl always. intros [out_feat|e]; cbn [answered]; [|turn_leaf].
  apply always_bind. vcall as [x|e]; try turn_leaf.
  apply always_bind. vcall as [y|e]; try turn_leaf.
  apply always_bind. vcall as [z|e]; try turn_leaf.
  apply always_bind. vcall as [u|e]; try turn_leaf.
  apply always_bind. vcall as [w|e]; try turn_leaf.
  vcall as [next|e]; turn_leaf.
Qed.

Lemma handed_over_plain A (tr : list ev) (r : outcome A) :
  forallb plain tr = true -> handed tr r.
Proof.
  intros H. destruct (plain_trace H) as [Hc Hw]. unfold handed_over.
  rewrite Hc, Hw. destruct r; simpl; eauto.
Qed.

Lemma handed_over_after_plain A (tr1 tr2 : list ev) (r : outcome A) :
  forallb plain tr1 = true -> handed tr2 r -> handed (tr1 ++ tr2) r.
Proof.
  intros H. destruct (plain_trace H) as [Hc Hw]. unfold handed_over.
  by rewrite !omap_app, Hc, Hw.
Qed.

Lemma handed_over_before_plain A B (tr1 tr2 : list ev) (a : A)
    (r : outcome B) :
  handed tr1 (Return a) -> forallb plain tr2 = true ->
  handed (tr1 ++ tr2) r.
Proof.
  intros H1 H. destruct (plain_trace H) as [Hc Hw]. unfold handed_over in *.
  rewrite !omap_app, Hc, Hw, !app_nil_r. destruct r; eauto.
Qed.

Lemma handed_over_turn A (tr1 tr2 : list ev) a (r : outcome A) :
  turn_ok tr1 (Return a) -> handed tr2 r -> handed (tr1 ++ tr2) r.
Proof.
  intros (g & Hc & Hw) H2. unfold handed_over in *. rewrite !omap_app, Hc, Hw.
  destruct r as [v|e|]; simpl; [by rewrite H2|..];
    (destruct H2 as [H2|(pre & g' & Hpre & H2)];
     [left; by rewrite H2
     |right; exists (g :: pre), g'; by rewrite Hpre, H2]).
Qed.

Lemma handed_over_turn_stops A (tr : list ev) (r : outcome (pyval geom))
    (r' : outcome A) :
  turn_ok tr r -> (forall v, r <> Return v) -> (forall v, r' <> Return v) ->
  handed tr r'.
Proof.
  intros H Hr Hr'. unfold handed_over, turn_post in *.
  destruct r' as [v| |]; [by destruct (Hr' v)|..];
    (destruct r as [v| |]; [by destruct (Hr v)|..]);
    (destruct H as [[-> ->]|(g & -> & [->| ->])];
     [by left|right; by exists [], g|by left]).
Qed.

(** The rule of sequencing for [handed_over], after plain events. *)
Lemma handed_bind_plain A B (m : py geom A) (f : A -> py geom B) :
  keeps plain m -> (forall a, always (f a) handed) ->
  always (bind m f) handed.
Proof.
  intros Hm Hf. apply always_bind. eapply always_mono; [apply Hm|].
  intros tr1 [a|e|] H1.
  - eapply always_mono; [apply Hf|]. intros tr2 r H2.
    by apply handed_over_after_plain.
  - by apply handed_over_plain.
  - by apply handed_over_plain.
Qed.

Lemma handed_bind_tail A B (m : py geom A) (f : A -> py geom B) :
  always m handed -> (forall a, keeps plain (f a)) ->
  always (bind m f) handed.
Proof.
  intros Hm Hf. apply always_bind. eapply always_mono; [apply Hm|].
  intros tr1 [a|e|] H1; [|done..].
  eapply always_mono; [apply Hf|]. intros tr2 r H2.
  by eapply handed_over_before_plain.
Qed.

Lemma copy_features_always fuel in_layer shp_layer in_feat :
  always
    (copy_features plus of_int SetGeometryDirectly fuel in_layer shp_layer
       in_feat)
    handed.
Proof.
  revert in_feat. induction fuel as [|fuel IH]; intros in_feat; simpl.
  { by left. }
  destruct (is_None in_feat); [done|].
  apply always_bind. eapply always_mono; [apply copy_feature_always|].
  intros tr1 [next|e|] H1.
  - eapply always_mono; [apply IH|]. intros tr2 r H2.
    by eapply handed_over_turn.
  - by apply (@handed_over_turn_stops unit tr1 (Raise e) (Raise e)).
  - by apply (@handed_over_turn_stops unit tr1 Unfinished Unfinished).
Qed.

Lemma keeps_copy_fields in_defn shp_layer indices :
  keeps plain (copy_fields (number:=number) in_defn shp_layer indices).
Proof.
  induction indices as [|i indices IH]; simpl; [done|].
  apply keeps_bind; [|by intros _].
  unfold copy_field, no_args, no_kwargs. keeps_tac.
Qed.

Lemma write_output_always fuel outfile in_ds in_layer in_defn shp_driver :
  always
    (write_output plus of_int SetGeometryDirectly fuel outfile in_ds in_layer
       in_defn shp_driver)
    handed.
Proof.
  unfold write_output, no_args, no_kwargs.
  apply handed_bind_plain; [keeps_tac|intros _].
  apply handed_bind_plain; [keeps_tac|intros shp_ds].
  apply handed_bind_plain; [keeps_tac|intros shp_layer].
  apply handed_bind_plain; [keeps_tac|intros in_field_count].
  apply handed_bind_plain; [by destruct in_field_count|intros indices].
  apply handed_bind_plain; [apply keeps_copy_fields|intros _].
  apply handed_bind_plain; [keeps_tac|intros in_feat].
  apply handed_bind_tail; [apply copy_features_always|intros _].
  keeps_tac.
Qed.

Lemma main_handed_over fuel argv :
  always (main plus of_int SetGeometryDirectly fuel argv) handed.
Proof.
  unfold main, no_args, no_kwargs.
  destruct (read_args (drop 1 argv) None None None)
    as [[[infile [outfile|]] layer_name]|]; try done.
  apply handed_bind_plain; [keeps_tac|intros in_ds].
  apply handed_bind_plain; [destruct layer_name; keeps_tac|intros in_layer].
  apply handed_bind_plain; [keeps_tac|intros in_defn].
  apply handed_bind_plain; [keeps_tac|intros shp_driver].
  apply write_output_always.
Qed.

Lemma read_args_outfile args infile outfile layer_name :
  read_args args None None None = Some (infile, Some outfile, layer_name) ->
  args !! 1%nat = Some outfile.
Proof.
  destruct args as [|a [|b [|c [|d rest]]]]; simpl; intros H; by simplify_eq.
Qed.

Ltac stops :=
  left; split; [reflexivity|];
  intros ? ? ? ? ? [=]; subst; done.

Lemma main_output_always fuel argv :
  always (main plus of_int SetGeometryDirectly fuel argv)
    (fun tr _ => stops_before_output tr \/ deletes_output argv tr).
Proof.
  unfold main, no_args, no_kwargs.
  destruct (read_args (drop 1 argv) None None None)
    as [[[infile [outfile|]] layer_name]|] eqn:E; try (simpl; stops).
  apply read_args_outfile in E. rewrite lookup_drop in E. simpl in E.
  apply always_bind. vcall as [in_ds|e]; [|stops].
  apply always_bind.
  destruct layer_name as [name|].
  all: vcall as [in_layer|e]; try stops.
  all: apply always_bind; vcall as [in_defn|e]; try stops.
  all: apply always_bind; vcall as [drv|e]; try stops.
  all: unfold write_output, no_args, no_kwargs.
  all: apply always_bind; vcall as [a|e].
  all: try (left; split; [reflexivity|]; intros ? ? ? ? ? [=]; by subst).
  all: try (eapply always_mono; [apply always_any|]; intros tr2 r _; right;
            eexists _, _, _, drv, outfile, (Gives a), _;
            split_and!; [exact E|done| |reflexivity]; reflexivity).
  all: right; eexists _, _, _, drv, outfile, (Throws e), _;
    split_and!; [exact E|done| |reflexivity]; reflexivity.
Qed.

(** C9: once [main] has the output driver, the next thing it does is to
    ask it to delete the datasource at the output path [argv[2]], with
    no test before and whatever the run does or raises afterwards; and
    every feature that a run reads is read after that call. *)
Theorem output_deleted_before_features fuel argv tr r :
  runs (main plus of_int SetGeometryDirectly fuel argv) tr r ->
  (forall e0 e1 e2 drv post,
     tr = e0 :: e1 :: e2 :: get_shp_driver (Gives drv) :: post ->
     is_None drv = false ->
     exists outfile a post',
       argv !! 2%nat = Some outfile
       /\ post = delete_output drv outfile a :: post'
       /\ never_calls "GetNextFeature" [e0; e1; e2] = true)
  /\ (forall e,
        e ∈ tr -> calls_method "GetNextFeature" e = true ->
        exists pre drv outfile a post',
          argv !! 2%nat = Some outfile
          /\ tr = pre ++ delete_output drv outfile a :: post'
          /\ e ∈ post').
Proof.
  intros Hrun.
  destruct (always_runs (main_output_always fuel argv) Hrun)
    as [[Hnever Hstop]|(e0 & e1 & e2 & drv & outfile & a & post & Harg & Hdrv
                        & Hnever & ->)].
  - split.
    + intros e0 e1 e2 drv post -> Hdrv.
      rewrite (Hstop _ _ _ _ _ eq_refl) in Hdrv. done.
    + intros e Hin He. apply (never_calls_elem Hnever) in Hin. congruence.
  - split.
    + intros ? ? ? ? ? [= <- <- <- <- <-] _. by exists outfile, a, post.
    + intros e Hin He.
      exists [e0; e1; e2; get_shp_driver (Gives drv)], drv, outfile, a, post.
      split_and!; [done..|].
      simpl in Hnever. rewrite !andb_true_iff, !negb_true_iff in Hnever.
      destruct Hnever as (H0 & H1 & H2 & _).
      repeat (apply elem_of_cons in Hin as [->|Hin]; [congruence|]).
      apply elem_of_cons in Hin as [->|Hin]; [done|].
      apply elem_of_cons in Hin as [->|Hin]; [done|]. done.
Qed.

End MainFacts.

Example walk_polygon :
  WalkAndTransform Z.add id no_such_method 2 (polygon 20)
  = Return
      (Geometry 20 []
         [ Geometry 21
             [(1000, 0, 5); (1004, 0, 5); (1004, 3, 5); (1000, 0, 5)]%Z [];
           Geometry 22 [(1001, 1, 5); (1002, 1, 5); (1001, 1, 5)]%Z [] ]).
Proof. reflexivity. Qed.

Example walk_without_fuel :
  WalkAndTransform Z.add id no_such_method 1 (polygon 20) = Unfinished.
Proof. reflexivity. Qed.

Lemma failing_run_runs :
  runs (main Z.add id no_such_method 2 sample_argv) failing_run.1 failing_run.2.
Proof. by apply (@exec_runs _ _ _ failing_library). Qed.

Lemma output_deleted_before_features_witness :
  exists outfile a post',
    sample_argv !! 2%nat = Some outfile
    /\ drop 4 failing_run.1 = delete_output (VObj 4) outfile a :: post'
    /\ never_calls "GetNextFeature" (take 3 failing_run.1) = true.
Proof.
  eapply (proj1 (@output_deleted_before_features Z Z.add id no_such_method 2
                   sample_argv failing_run.1 failing_run.2 failing_run_runs)).
  - reflexivity.
  - reflexivity.
Defined.

Lemma one_feature_run_runs :
  runs (main Z.add id no_such_method 2 sample_argv)
    one_feature_run.1 one_feature_run.2.
Proof. by apply (@exec_runs _ _ _ one_feature_library). Qed.

Example one_feature_written :
  omap (@written Z) one_feature_run.1 = [transformed Z.add id (polygon 20)].
Proof. reflexivity. Qed.

(** C8 fails as stated on the coordinates of the program, which are
    binary64 floats: [x + 1000] is the rounded sum, and the point whose x
    is 10^17 is moved by 992, not by 1000. *)
Lemma transform_keeps_y_z_and_shape_counterexample :
  integer_of far_point.1.1 = Some (10 ^ 17)%Z
  /\ integer_of (TransformPoint PrimFloat.add float_of_int far_point).1.1
     = Some (10 ^ 17 + 992)%Z
  /\ (TransformPoint PrimFloat.add float_of_int far_point).1.2 = far_point.1.2
  /\ (TransformPoint PrimFloat.add float_of_int far_point).2 = far_point.2.
Proof. by vm_compute. Qed.

Ltac reduce_run H :=
  unfold method, attr, ask, emit, ret, raise, no_args, no_kwargs in H;
  cbn [bind try_except is_None fst snd] in H.

(** The next step of the run [H] of a part of [main]. *)
Ltac copy_step H :=
  reduce_run H;
  lazymatch type of H with
  | runs (Done _) _ _ => apply runs_Done_inv in H as [-> ->]
  | runs (Ask _ _) _ _ =>
      let a := fresh "a" in
      let v := fresh "v" in
      let e := fresh "e" in
      apply runs_Ask_inv in H as (a & ? & -> & H); destruct a as [v|e]
  | runs (Emit _ _) _ _ => apply runs_Emit_inv in H as (? & -> & H)
  | context [is_None ?v] =>
      let E := fresh "Hnone" in
      destruct (is_None v) eqn:E; [apply is_None_true in E; subst|]
  | context [range ?v] => destruct v; cbn [range] in H
  end.

Section Copy.
Variable number : Type.
Variable plus : number -> number -> number.
Variable of_int : Z -> number.
Variable SetGeometryDirectly :
  geometry number -> geometry number -> outcome (geometry number).

Local Abbreviation geom := (geometry number).
Local Abbreviation walked := (transformed plus of_int).
Local Abbreviation clones := (omap (@cloned number)).
Local Abbreviation writes := (omap (@written number)).

(** A turn of the loop on the fields that ends well is the nine calls of
    [field_calls]. *)
Lemma copy_field_returns (in_defn shp_layer : pyval geom) fld_index tr u :
  runs (copy_field in_defn shp_layer fld_index) tr (Return u) ->
  exists f, tr = field_calls in_defn shp_layer fld_index f.
Proof.
  intros H. unfold copy_field, ogr in H.
  remember (Return u) as r eqn:Hr. revert Hr.
  repeat copy_step H.
  all: intros Hr; try discriminate Hr.
  by eexists (Field _ _ _ _ _ _ _ _ _).
Qed.

Lemma copy_fields_returns (in_defn shp_layer : pyval geom) indices tr u :
  runs (copy_fields in_defn shp_layer indices) tr (Return u) ->
  exists fields,
    length fields = length indices
    /\ tr = concat (zip_with (field_calls in_defn shp_layer) indices fields).
Proof.
  revert tr. induction indices as [|i indices IH]; intros tr H.
  - apply runs_Done_inv in H as [-> _]. by exists [].
  - cbn [copy_fields] in H.
    apply runs_bind_inv in H
      as [(tr1 & a & tr2 & -> & H1 & H2)|[(e & _ & ?)|[_ ?]]]; [|done..].
    apply copy_field_returns in H1 as [f ->].
    apply IH in H2 as (fields & Hlen & ->).
    exists (f :: fields). simpl. by rewrite Hlen.
Qed.

Lemma zip_with_indices {A B} (f : nat -> A -> B) j (l : list A) :
  zip_with f (seq j (length l)) l = imap (fun i => f (j + i)) l.
Proof.
  revert j f. induction l as [|x l IH]; intros j f; [done|]. simpl.
  rewrite Nat.add_0_r. f_equal. rewrite IH. apply imap_ext.
  intros i y _. simpl. f_equal. lia.
Qed.

Lemma walk_returns (v : pyval geom) tr r :
  runs (walk plus of_int SetGeometryDirectly v) tr r ->
  tr = []
  /\ match v with
     | VGeom g => r = Return (walked g)
     | _ => r = Raise AttributeError
     end.
Proof.
  destruct v; cbn [walk]; unfold raise; intros H;
    apply runs_Done_inv in H as [-> ->]; try done.
  split; [done|]. apply WalkAndTransform_transformed. lia.
Qed.

(** A turn of the loop on the features that ends well is the ten calls of
    [feature_calls], the last of which reads the next feature. *)
Lemma copy_feature_returns (in_layer shp_layer in_feat next : pyval geom) tr :
  runs (copy_feature plus of_int SetGeometryDirectly in_layer shp_layer in_feat)
    tr (Return next) ->
  exists a, a_next a = next
            /\ tr = feature_calls plus of_int in_layer shp_layer in_feat a.
Proof.
  intros H. unfold copy_feature in H.
  apply runs_bind_inv in H
    as [(tr1 & clone & tr2 & -> & H1 & H2)|[(e & _ & ?)|[_ ?]]]; [|done..].
  apply runs_bind_inv in H2
    as [(tr3 & g & tr4 & -> & H3 & H4)|[(e & _ & ?)|[_ ?]]]; [|done..].
  apply walk_returns in H3 as [-> Hg].
  destruct clone as [| | | | | | |g0]; try done. injection Hg as ->.
  unfold ogr in H4.
  remember (Return next) as r eqn:Hr. remember (Return (VGeom g0)) as r1 eqn:Hr1.
  revert Hr Hr1.
  repeat copy_step H1.
  all: intros Hr Hr1; try discriminate Hr1. injection Hr1 as ->.
  revert Hr. repeat copy_step H4.
  all: intros Hr; try discriminate Hr. injection Hr as ->.
  by eexists (Feature _ _ _ _ _ _ _ _ _ _).
Qed.

(** The loop on the features, when it ends well, has copied feature
    after feature until [GetNextFeature] gave [None]. *)
Lemma copy_features_returns fuel (in_layer shp_layer in_feat : pyval geom) tr u :
  runs (copy_features plus of_int SetGeometryDirectly fuel in_layer shp_layer
          in_feat) tr (Return u) ->
  exists features,
    read_to_end in_feat features = true
    /\ tr = features_calls plus of_int in_layer shp_layer in_feat features.
Proof.
  revert in_feat tr. induction fuel as [|fuel IH]; intros in_feat tr H.
  { by apply runs_Done_inv in H as [_ ?]. }
  cbn [copy_features] in H. destruct (is_None in_feat) eqn:Hnone.
  - apply runs_Done_inv in H as [-> _]. by exists [].
  - apply runs_bind_inv in H
      as [(tr1 & next & tr2 & -> & H1 & H2)|[(e & _ & ?)|[_ ?]]]; [|done..].
    apply copy_feature_returns in H1 as (a & <- & ->).
    apply IH in H2 as (features & Hend & ->).
    exists (a :: features). simpl. by rewrite Hnone, Hend.
Qed.

(** The part of [main] that writes the output, when it ends well. *)
Lemma write_output_returns fuel outfile (in_ds in_layer in_defn shp_driver v : pyval geom) tr :
  runs (write_output plus of_int SetGeometryDirectly fuel outfile in_ds
          in_layer in_defn shp_driver) tr (Return v) ->
  v = VInt 0
  /\ exists s fields features,
       s_in_ds s = in_ds /\ s_in_layer s = in_layer /\ s_in_defn s = in_defn
       /\ s_shp_driver s = shp_driver
       /\ length fields = Z.to_nat (s_field_count s)
       /\ read_to_end (s_first s) features = true
       /\ tr = drop 4 (copy_calls plus of_int "" outfile None s fields features).
Proof.
  intros H. unfold write_output in H.
  remember (Return v) as r eqn:Hr. revert Hr.
  repeat copy_step H.
  all: try (intros Hr; discriminate Hr).
  all: intros Hr; reduce_run H;
    apply runs_bind_inv in H
      as [(tr1 & u & tr2 & -> & H1 & H2)|[(e & _ & ?)|[_ ?]]]; [|congruence..];
    apply copy_fields_returns in H1 as (fields & Hlen & ->);
    rewrite length_seq in Hlen; rewrite <- Hlen, zip_with_indices;
    revert Hr; copy_step H2; reduce_run H2; intros Hr;
    [|apply runs_Done_inv in H2 as [_ ?]; congruence];
    apply runs_bind_inv in H2
      as [(tr3 & u3 & tr4 & -> & H3 & H4)|[(e & _ & ?)|[_ ?]]]; [|congruence..];
    apply copy_features_returns in H3 as (features & Hend & ->);
    revert Hr; repeat copy_step H4.
  all: intros Hr; try discriminate Hr. injection Hr as <-.
  split; [done|].
  eexists (Setup _ _ _ _ _ _ _ _ _ _ _ _ _ _), fields, features.
  simpl. split_and!; try reflexivity; done.
Qed.

Lemma Usage_runs tr r :
  runs (Usage number) tr r -> tr = usage_lines number /\ r = Return (VInt 2).
Proof. intros H. unfold Usage in H. by repeat copy_step H. Qed.

(** The clones and the geometries written, in the calls of a copy. *)
Lemma omap_concat_imap_nil {A B} (p : event geom -> option B)
    (f : nat -> A -> list (event geom)) (l : list A) :
  (forall i x, omap p (f i x) = []) -> omap p (concat (imap f l)) = [].
Proof.
  revert f. induction l as [|x l IH]; intros f Hf; [done|].
  rewrite imap_cons. cbn [concat]. rewrite omap_app, Hf. cbn [app].
  apply IH. intros i y. apply Hf.
Qed.

Lemma clones_features_calls (in_layer shp_layer in_feat : pyval geom) features :
  clones (features_calls plus of_int in_layer shp_layer in_feat features)
  = map (@a_clone number) features.
Proof.
  revert in_feat. induction features as [|a features IH]; intros in_feat;
    [done|].
  cbn [features_calls map]. rewrite omap_app, IH. done.
Qed.

Lemma writes_features_calls (in_layer shp_layer in_feat : pyval geom) features :
  writes (features_calls plus of_int in_layer shp_layer in_feat features)
  = map (fun a => walked (a_clone a)) features.
Proof.
  revert in_feat. induction features as [|a features IH]; intros in_feat;
    [done|].
  cbn [features_calls map]. rewrite omap_app, IH. done.
Qed.

Lemma clones_copy_calls infile outfile layer_name s fields features :
  clones (copy_calls plus of_int infile outfile layer_name s fields features)
  = map (@a_clone number) features.
Proof.
  unfold copy_calls. rewrite !omap_app, clones_features_calls.
  rewrite omap_concat_imap_nil by done.
  destruct layer_name; simpl; by rewrite app_nil_r.
Qed.

Lemma writes_copy_calls infile outfile layer_name s fields features :
  writes (copy_calls plus of_int infile outfile layer_name s fields features)
  = map (fun a => walked (a_clone a)) features.
Proof.
  unfold copy_calls. rewrite !omap_app, writes_features_calls.
  rewrite omap_concat_imap_nil by done.
  destruct layer_name; simpl; by rewrite app_nil_r.
Qed.

(** C4: the walk applies [TransformPoint] once to every vertex of every
    geometry without parts, at every depth, and to nothing else; in
    [main] each geometry handed to [SetGeometryDirectly] is the walk of
    the clone of its feature, feature by feature; and a run of [main]
    that returns 0 has, for every feature that [GetNextFeature] gave
    before it gave [None], cloned the geometry of the feature, walked the
    clone and handed it to the feature that it creates in the output:
    the run is the calls of [copy_calls], with one clone and one walked
    clone for each feature read. *)
Theorem walk_transforms_every_leaf_vertex :
  (forall g,
     WalkAndTransform plus of_int SetGeometryDirectly (S (depth g)) g
     = Return (walked g)
     /\ leaf_vertices (walked g)
        = map (TransformPoint plus of_int) (leaf_vertices g))
  /\ (forall fuel argv tr r,
        runs (main plus of_int SetGeometryDirectly fuel argv) tr r ->
        writes tr `prefix_of` map walked (clones tr)
        /\ (forall v, r = Return v -> writes tr = map walked (clones tr)))
  /\ (forall fuel argv tr,
        runs (main plus of_int SetGeometryDirectly fuel argv) tr
          (Return (VInt 0)) ->
        exists infile outfile s fields features,
          read_to_end (s_first s) features = true
          /\ tr = copy_calls plus of_int infile outfile (argv !! 3%nat) s
                    fields features
          /\ clones tr = map (@a_clone number) features
          /\ writes tr = map (fun a => walked (a_clone a)) features).
Proof.
  split_and!.
  - intros g. split.
    + apply WalkAndTransform_transformed. lia.
    + apply leaf_vertices_transformed.
  - intros fuel argv tr r Hrun.
    pose proof (always_runs
                  (@main_handed_over number plus of_int SetGeometryDirectly
                     fuel argv)
                  Hrun) as H.
    unfold handed_over in H. split.
    + destruct r as [v| |]; [exists []; by rewrite app_nil_r|..];
        (destruct H as [->|(pre & g & -> & ->)];
         [exists []; by rewrite app_nil_r
         |exists [walked g]; by rewrite map_app]).
    + by intros v ->.
  - intros fuel argv tr H.
    destruct argv as [|a0 [|a1 [|a2 [|a3 [|a4 rest]]]]].
    1-3, 6: unfold main in H; cbn [drop read_args] in H;
      by apply Usage_runs in H as [_ ?].
    all: unfold main in H; cbn [drop read_args opt_str] in H;
      unfold ogr in H;
      remember (Return (VInt 0)) as r eqn:Hr; revert Hr;
      repeat copy_step H.
    all: try (intros Hr; discriminate Hr).
    all: intros ->;
      apply write_output_returns in H
        as (_ & s & fields & features & <- & <- & <- & <- & Hlen & Hend & ->);
      exists a1, a2, s, fields, features;
      split; [done|].
    all: match goal with
         | |- ?t = ?c /\ _ => assert (E : t = c) by done; rewrite E; clear E
         end.
    all: split; [done|];
      split; [apply clones_copy_calls|apply writes_copy_calls].
Qed.

(** X14: with fewer than two or more than three arguments, [main] prints
    the two lines of [Usage] on stdout, returns 2 and asks the library
    nothing. *)
Theorem usage_on_wrong_arity fuel argv tr r :
  runs (main plus of_int SetGeometryDirectly fuel argv) tr r ->
  length argv <= 2 \/ 5 <= length argv ->
  tr = usage_lines number /\ r = Return (VInt 2).
Proof.
  intros H Hlen.
  destruct argv as [|a0 [|a1 [|a2 [|a3 [|a4 rest]]]]]; simpl in Hlen;
    try lia; unfold main in H; cbn [drop read_args] in H;
    by apply Usage_runs.
Qed.

(** X15: a run of [main] that returns has either printed the usage and
    returned 2, the number of arguments being wrong, or returned 0 after
    exactly the calls of [copy_calls]: the input opened with [update=0],
    the layer taken by name when there is a third argument and by the
    index 0 otherwise, the output deleted and created with the name,
    geometry type and spatial reference of the input layer, its fields
    copied one by one in the order of their indices, then the features
    one by one until [GetNextFeature] gives [None], and the two
    datasources destroyed, the output first. *)
Theorem main_returns fuel argv tr v :
  runs (main plus of_int SetGeometryDirectly fuel argv) tr (Return v) ->
  (v = VInt 2 /\ tr = usage_lines number
   /\ (length argv <= 2 \/ 5 <= length argv))
  \/ (v = VInt 0 /\ (length argv = 3 \/ length argv = 4)
      /\ exists infile outfile s fields features,
           argv !! 1%nat = Some infile /\ argv !! 2%nat = Some outfile
           /\ length fields = Z.to_nat (s_field_count s)
           /\ read_to_end (s_first s) features = true
           /\ tr = copy_calls plus of_int infile outfile (argv !! 3%nat) s
                     fields features).
Proof.
  intros H.
  destruct argv as [|a0 [|a1 [|a2 [|a3 [|a4 rest]]]]].
  1-3, 6: left; unfold main in H; cbn [drop read_args] in H;
    apply Usage_runs in H as [-> [= <-]];
    split_and!; [done..|simpl; lia].
  all: right; unfold main in H; cbn [drop read_args opt_str] in H;
    unfold ogr in H;
    remember (Return v) as r eqn:Hr; revert Hr;
    repeat copy_step H.
  all: try (intros Hr; discriminate Hr).
  all: intros ->;
    apply write_output_returns in H
      as (-> & s & fields & features & <- & <- & <- & <- & Hlen & Hend & ->);
    split_and!; [done|simpl; lia|];
    exists a1, a2, s, fields, features; split_and!; try done.
Qed.

(** X16: when [ogr.Open] gives [None] for the input, or the layer asked
    for is [None], [main] raises AttributeError at the next line: that
    answer is the last event of the run, and the output has not been
    deleted. *)
Theorem missing_input_raises fuel argv tr r e :
  runs (main plus of_int SetGeometryDirectly fuel argv) tr r ->
  tr !! 0%nat = Some e \/ tr !! 1%nat = Some e ->
  gave_nothing e = true ->
  r = Raise AttributeError
  /\ last tr = Some e
  /\ never_calls "DeleteDataSource" tr = true.
Proof.
  intros H.
  destruct argv as [|a0 [|a1 [|a2 [|a3 [|a4 rest]]]]].
  1-3, 6: unfold main in H; cbn [drop read_args] in H;
    apply Usage_runs in H as [-> ->]; by intros [[= <-]|[= <-]].
  all: unfold main in H; cbn [drop read_args opt_str] in H; unfold ogr in H;
    repeat copy_step H.
  all: intros [He|He]; simpl in He;
    (first [discriminate He | injection He as <-]); simpl; intros Hn;
    try done.
  all: match type of Hn with
       | match ?v with _ => _ end = true => by destruct v
       end.
Qed.

End Copy.

Lemma walk_transforms_every_leaf_vertex_witness :
  omap (@written Z) one_feature_run.1
  = map (transformed Z.add id) (omap (@cloned Z) one_feature_run.1)
  /\ exists infile outfile s fields features,
       read_to_end (s_first s) features = true
       /\ one_feature_run.1
          = copy_calls Z.add id infile outfile (sample_argv !! 3%nat) s
              fields features
       /\ omap (@cloned Z) one_feature_run.1 = map (@a_clone Z) features
       /\ omap (@written Z) one_feature_run.1
          = map (fun a => transformed Z.add id (a_clone a)) features.
Proof.
  split.
  - refine (proj2 (proj1 (proj2 (@walk_transforms_every_leaf_vertex Z Z.add id
                                   no_such_method))
                     2%nat sample_argv one_feature_run.1 one_feature_run.2
                     one_feature_run_runs)
              (VInt 0) _).
    reflexivity.
  - apply (proj2 (proj2 (@walk_transforms_every_leaf_vertex Z Z.add id
                           no_such_method))
             2%nat sample_argv one_feature_run.1).
    apply one_feature_run_runs.
Defined.

Lemma short_argv_run_runs :
  runs (main Z.add id no_such_method 2 ["vec_tr.py"; "in.shp"])
    short_argv_run.1 short_argv_run.2.
Proof. by apply (@exec_runs _ _ _ []). Qed.

Lemma usage_on_wrong_arity_witness :
  short_argv_run.1 = usage_lines Z /\ short_argv_run.2 = Return (VInt 2).
Proof.
  apply (@usage_on_wrong_arity Z Z.add id no_such_method 2
           ["vec_tr.py"; "in.shp"] short_argv_run.1 short_argv_run.2).
  - apply short_argv_run_runs.
  - left. simpl. lia.
Defined.

Lemma main_returns_witness :
  ((VInt 0 : pyval (geometry Z)) = VInt 2 /\ one_feature_run.1 = usage_lines Z
   /\ (length sample_argv <= 2 \/ 5 <= length sample_argv))
  \/ ((VInt 0 : pyval (geometry Z)) = VInt 0
      /\ (length sample_argv = 3 \/ length sample_argv = 4)
      /\ exists infile outfile s fields features,
           sample_argv !! 1%nat = Some infile
           /\ sample_argv !! 2%nat = Some outfile
           /\ length fields = Z.to_nat (s_field_count s)
           /\ read_to_end (s_first s) features = true
           /\ one_feature_run.1
              = copy_calls Z.add id infile outfile (sample_argv !! 3%nat) s
                  fields features).
Proof.
  apply (@main_returns Z Z.add id no_such_method 2 sample_argv
           one_feature_run.1 (VInt 0)).
  apply one_feature_run_runs.
Defined.

Lemma missing_input_run_runs :
  runs (main Z.add id no_such_method 2 sample_argv)
    missing_input_run.1 missing_input_run.2.
Proof. by apply (@exec_runs _ _ _ [Gives VNone]). Qed.

Lemma missing_input_raises_witness :
  missing_input_run.2 = Raise AttributeError
  /\ last missing_input_run.1
     = Some (Asked (Method (ogr Z) "Open" [VStr "in.shp"] [("update", VInt 0)])
               (Gives VNone))
  /\ never_calls "DeleteDataSource" missing_input_run.1 = true.
Proof.
  apply (@missing_input_raises Z Z.add id no_such_method 2 sample_argv).
  - apply missing_input_run_runs.
  - by left.
  - reflexivity.
Defined.

End VecTrProofs.

(** * The proximity engine: proofs *)

Module ProximityEngineProofs.
Import ProximityEngine.

Section EngineFacts.
Context {num : Type} `{EqDecision num}.
Variable zero : num.
Variable add : num -> num -> num.
Variable leb : num -> num -> bool.
Variable forward_steps : units -> list (Z * Z * num).
Variable backward_steps : units -> list (Z * Z * num).

Implicit Types (c : cell) (dist out : gmap cell num).

Lemma elem_of_row w y c : c ∈ row w y <-> c.1 < w /\ c.2 = y.
Proof.
  unfold row. rewrite list_elem_of_In, in_map_iff. split.
  - intros (x & <- & Hx). apply in_seq in Hx. simpl. lia.
  - intros [Hx <-]. exists c.1. split; [by destruct c|]. apply in_seq. lia.
Qed.

Lemma elem_of_grid w h c : c ∈ grid w h <-> c.1 < w /\ c.2 < h.
Proof.
  unfold grid. rewrite list_elem_of_In, in_concat. split.
  - intros (l & Hl & Hc). apply in_map_iff in Hl as (y & <- & Hy).
    apply in_seq in Hy. apply list_elem_of_In, elem_of_row in Hc. lia.
  - intros [Hx Hy]. exists (row w c.2). split.
    + apply in_map_iff. exists c.2. split; [done|]. apply in_seq. lia.
    + apply list_elem_of_In, elem_of_row. done.
Qed.

(** A visit of another cell leaves the distance of a cell as it is. *)
Lemma visit_other opts input steps dist c c' :
  c <> c' -> visit zero add leb opts input steps dist c' !! c = dist !! c.
Proof.
  intros Hne. unfold visit. destruct (is_source zero opts input c').
  - by rewrite lookup_insert_ne.
  - destruct (from_neighbours add leb steps dist c'); [|done].
    by rewrite lookup_insert_ne.
Qed.

Lemma visit_source opts input steps dist c :
  is_source zero opts input c = true ->
  visit zero add leb opts input steps dist c !! c = Some zero.
Proof. intros Hs. unfold visit. rewrite Hs. apply lookup_insert_eq. Qed.

(** A sweep leaves a source at distance 0. *)
Lemma sweep_source opts input steps order dist c :
  is_source zero opts input c = true ->
  c ∈ order \/ dist !! c = Some zero ->
  foldl (visit zero add leb opts input steps) dist order !! c = Some zero.
Proof.
  intros Hs. revert dist. induction order as [|c' order IH]; intros dist Hc.
  { destruct Hc as [Hc|Hc]; [by apply elem_of_nil in Hc|done]. }
  simpl. apply IH. destruct (decide (c = c')) as [<-|Hne].
  - right. by apply visit_source.
  - destruct Hc as [Hc|Hc].
    + apply elem_of_cons in Hc as [?|Hc]; [done|by left].
    + right. by rewrite visit_other.
Qed.

Lemma sweeps_source opts input c :
  is_source zero opts input c = true ->
  c.1 < width input -> c.2 < height input ->
  sweeps zero add leb forward_steps backward_steps opts input !! c = Some zero.
Proof.
  intros Hs Hx Hy. unfold sweeps. apply sweep_source; [done|]. right.
  apply sweep_source; [done|]. left. by apply elem_of_grid.
Qed.

(** What a row, and the rows, leave in the output. *)
Lemma write_row_lookup value w y out c :
  write_row value w y out !! c
  = if decide (c ∈ row w y) then Some (value c) else out !! c.
Proof.
  unfold write_row. generalize (row w y). intros l. revert out.
  induction l as [|c' l IH]; intros out; cbn [foldl].
  { case_decide as Hin; [by apply elem_of_nil in Hin|done]. }
  rewrite IH. destruct (decide (c ∈ l)) as [Hl|Hl].
  - rewrite decide_True; [done|by right].
  - destruct (decide (c = c')) as [->|Hne].
    + rewrite lookup_insert_eq. rewrite decide_True; [done|by left].
    + rewrite lookup_insert_ne by done.
      rewrite decide_False; [done|]. intros Hin.
      by apply elem_of_cons in Hin as [?|?].
Qed.

Lemma write_rows_lookup value progress w rows out out' c :
  write_rows value progress w rows out = (None, out') ->
  out' !! c
  = if decide (c.1 < w /\ c.2 ∈ rows) then Some (value c) else out !! c.
Proof.
  revert out. induction rows as [|y rows IH]; intros out; cbn [write_rows].
  { intros [= <-]. case_decide as Hin; [|done]. destruct Hin as [_ Hin].
    by apply elem_of_nil in Hin. }
  destruct (cancels progress y); [done|]. intros Hrows.
  rewrite (IH _ Hrows). rewrite write_row_lookup.
  destruct (decide (c.1 < w /\ c.2 ∈ rows)) as [[Hx Hr]|Hr].
  - rewrite decide_True; [done|]. split; [done|by right].
  - destruct (decide (c ∈ row w y)) as [Hrow|Hrow].
    + apply elem_of_row in Hrow as [Hx Hy].
      rewrite decide_True; [done|]. split; [done|]. rewrite Hy. by left.
    + rewrite decide_False; [done|]. intros [Hx Hin].
      apply elem_of_cons in Hin as [Hy|Hin]; [|by destruct Hr].
      apply Hrow, elem_of_row. done.
Qed.

(** Whether the rows are all written depends on the sink only. *)
Lemma write_rows_status value progress w rows out1 out2 :
  (write_rows value progress w rows out1).1
  = (write_rows value progress w rows out2).1.
Proof.
  revert out1 out2. induction rows as [|y rows IH]; intros out1 out2; simpl;
    [done|].
  destruct (cancels progress y); [done|]. apply IH.
Qed.

Lemma reported_same_sentinel opts input dst1 dst2 dist c :
  nodata dst1 = nodata dst2 ->
  reported zero leb opts input dst1 dist c
  = reported zero leb opts input dst2 dist c.
Proof. intros Hn. unfold reported, sentinel. by rewrite Hn. Qed.

Lemma write_rows_ext value1 value2 progress w rows out :
  (forall c, value1 c = value2 c) ->
  write_rows value1 progress w rows out = write_rows value2 progress w rows out.
Proof.
  intros Hv. revert out. induction rows as [|y rows IH]; intros out; simpl;
    [done|].
  destruct (cancels progress y); [done|]. rewrite <- IH. f_equal.
  unfold write_row. generalize (row w y). intros l. revert out.
  induction l as [|c l IHl]; intros out; simpl; [done|]. by rewrite Hv, IHl.
Qed.

Lemma well_formed_fresh w h (fill : num) (s : option num) :
  well_formed (fresh w h fill s).
Proof.
  intros c. unfold fresh, in_grid. simpl. rewrite <- elem_of_grid. split.
  - intros [v Hv]. apply elem_of_list_to_map_2 in Hv.
    apply list_elem_of_In, in_map_iff in Hv as (c' & [= <- _] & Hc).
    by apply list_elem_of_In.
  - intros Hc. destruct (list_to_map (M:=gmap cell num)
                           (map (fun c => (c, fill)) (grid w h)) !! c)
      as [v|] eqn:E; [by eexists|].
    apply not_elem_of_list_to_map_2 in E. destruct E.
    apply list_elem_of_fmap. exists (c, fill). split; [done|].
    apply list_elem_of_In, in_map_iff. exists c. split; [done|].
    by apply list_elem_of_In.
Qed.

(** The outputs of two runs on the same input, options and sink agree,
    whatever the output bands held before. *)
Lemma computeProximity_any_output input dst1 dst2 opts progress :
  well_formed dst1 -> well_formed dst2 ->
  width dst1 = width dst2 -> height dst1 = height dst2 ->
  nodata dst1 = nodata dst2 ->
  let r1 := computeProximity zero add leb forward_steps backward_steps
              input dst1 opts progress in
  let r2 := computeProximity zero add leb forward_steps backward_steps
              input dst2 opts progress in
  r1.1 = r2.1 /\ (r1.1 = None -> r1.2 = r2.2).
Proof.
  intros Hwf1 Hwf2 Hw Hh Hn. unfold computeProximity. rewrite <- Hw, <- Hh.
  destruct (bool_decide (width input = width dst1
                         /\ height input = height dst1)); simpl; [|done].
  set (dist := sweeps zero add leb forward_steps backward_steps opts input).
  rewrite (@write_rows_ext (reported zero leb opts input dst2 dist)
             (reported zero leb opts input dst1 dist))
    by (intros c; by apply reported_same_sentinel).
  split; [apply write_rows_status|]. intros Hok. rewrite <- Hn. f_equal.
  destruct (write_rows (reported zero leb opts input dst1 dist) progress
              (width dst1) (seq 0 (height dst1)) (cells dst1))
    as [e1 cells1] eqn:E1.
  destruct (write_rows (reported zero leb opts input dst1 dist) progress
              (width dst1) (seq 0 (height dst1)) (cells dst2))
    as [e2 cells2] eqn:E2.
  assert (He : e1 = e2).
  { change e1 with (e1, cells1).1. change e2 with (e2, cells2).1.
    rewrite <- E1, <- E2. apply write_rows_status. }
  simpl in *. subst e1 e2. apply map_eq. intros c.
  rewrite (write_rows_lookup c E1), (write_rows_lookup c E2).
  case_decide as Hc; [done|].
  assert (Hout : ~ in_grid dst1 c).
  { intros [Hx Hy]. apply Hc. split; [done|]. apply elem_of_seq. lia. }
  assert (Hdst2 : ~ in_grid dst2 c).
  { unfold in_grid. by rewrite <- Hw, <- Hh. }
  assert (H1 : cells dst1 !! c = None).
  { apply eq_None_not_Some. intros Hs. by apply Hout, Hwf1. }
  assert (H2 : cells dst2 !! c = None).
  { apply eq_None_not_Some. intros Hs. by apply Hdst2, Hwf2. }
  by rewrite H1, H2.
Qed.

(** C6: two runs of the engine on the same input, options and sink, into
    two fresh output bands, end alike, and when they succeed the two
    output bands are equal, cell by cell, whatever the bands were filled
    with. *)
Theorem engine_deterministic (input : band) opts progress (fill1 fill2 : num)
    (s : option num) :
  let dst1 := fresh (width input) (height input) fill1 s in
  let dst2 := fresh (width input) (height input) fill2 s in
  let r1 := computeProximity zero add leb forward_steps backward_steps
              input dst1 opts progress in
  let r2 := computeProximity zero add leb forward_steps backward_steps
              input dst2 opts progress in
  r1.1 = r2.1 /\ (r1.1 = None -> r1.2 = r2.2).
Proof.
  apply computeProximity_any_output; try done; apply well_formed_fresh.
Qed.


End EngineFacts.

Example distances_from_corner :
  map (fun c => cells (run_engine plain_options).2 !! c) (grid 3 2)
  = [Some 0; Some 1; Some 2; Some 1; Some 1; Some 2]%Z.
Proof. by vm_compute. Qed.

Example buffer_from_corner :
  map (fun c => cells (run_engine buffer_options).2 !! c) (grid 3 2)
  = [Some 0; Some 5; Some 5; Some 5; Some 5; Some 5]%Z.
Proof. by vm_compute. Qed.

(** The source keeps 0 when its value is the no-data value of the input;
    the cells at distance 1 hold the buffer value and the others the
    no-data value of the output. *)
Example buffer_from_nodata_corner :
  map (fun c =>
         cells (run_engine_on nodata_corner_input nodata_buffer_options).2
         !! c) (grid 3 2)
  = [Some 0; Some 5; Some 9; Some 5; Some 5; Some 9]%Z.
Proof. by vm_compute. Qed.

Lemma engine_deterministic_witness :
  (computeProximity 0%Z Z.add Z.leb unit_forward unit_backward corner_input
     (fresh 3 2 0%Z None) plain_options None).2
  = (computeProximity 0%Z Z.add Z.leb unit_forward unit_backward corner_input
       (fresh 3 2 7%Z None) plain_options None).2.
Proof.
  apply (proj2 (@engine_deterministic Z _ 0%Z Z.add Z.leb unit_forward
                  unit_backward corner_input plain_options None 0%Z 7%Z None)).
  by vm_compute.
Defined.


End ProximityEngineProofs.
